(** * GSM-AT response parser: a shallow embedding of [gsm_parser.c] and of
    the argument checks of [gsm_sms.c], with the properties of the
    specification stated and settled over it.

    Conventions of the embedding.

    - A [const char*] into a NUL-terminated buffer is the [string] of the
      characters from the pointer onwards.  [EmptyString] is a pointer at
      the terminator; a character ["000"] inside a [string] is read as a
      terminator as well, exactly as C would.
    - [p++] is taking the tail.  The parser only ever increments a pointer
      after it has read a non-NUL character through it (the fixed skip of
      [gsmi_parse_cpin] apart), so the tail always exists.
    - [int32_t] and [uint32_t] are [Z] with the wrap-around written out.
    - [size_t] indices and lengths are [nat]; arrays are lists, read with
      [!!] and written with [<[i:=x]>]. *)

From stdpp Require Import base list.
From Stdlib Require Import ZArith String Ascii Lia Bool.

Local Open Scope Z_scope.

(** ** Characters and C strings *)

Definition NUL : ascii := "000"%char.
Definition CR : ascii := "013"%char.
Definition LF : ascii := "010"%char.
Definition DQUOTE : ascii := "034"%char.

(** Integer value of a character, as in the integer promotion of a [char]
    or [uint8_t] operand. *)
Definition char_code (c : ascii) : Z := Z.of_nat (nat_of_ascii c).

(** [*p] *)
Definition deref (p : string) : ascii :=
  match p with
  | EmptyString => NUL
  | String c _ => c
  end.

(** [p + 1]; only meaningful when [*p] is not the terminator. *)
Definition next (p : string) : string :=
  match p with
  | EmptyString => EmptyString
  | String _ p' => p'
  end.

(** [if ( *p == c) { p++; }] for a character [c] other than NUL. *)
Definition skip_char (c : ascii) (p : string) : string :=
  if Ascii.eqb (deref p) c then next p else p.

(** The characters of the C string at [p]: everything before the first
    terminator. *)
Fixpoint c_chars (p : string) : string :=
  match p with
  | EmptyString => EmptyString
  | String c p' => if Ascii.eqb c NUL then EmptyString else String c (c_chars p')
  end.

(** [strlen(p)] *)
Definition strlen (p : string) : nat := String.length (c_chars p).

(** [strncmp(s1, s2, n) == 0]: the first [n] characters agree, or both
    strings end, in agreement, before that. *)
Fixpoint strncmp_eq (s1 s2 : string) (n : nat) : bool :=
  match n with
  | O => true
  | S n' =>
      let c1 := deref s1 in
      let c2 := deref s2 in
      if Ascii.eqb c1 c2
      then (if Ascii.eqb c1 NUL then true else strncmp_eq (next s1) (next s2) n')
      else false
  end.

(** [strcmp(s1, s2) == 0], by recursion on the first string. *)
Fixpoint strcmp_eq (s1 s2 : string) : bool :=
  match s1 with
  | EmptyString => Ascii.eqb (deref s2) NUL
  | String c1 s1' =>
      if Ascii.eqb c1 (deref s2)
      then (if Ascii.eqb c1 NUL then true else strcmp_eq s1' (next s2))
      else false
  end.

(** A string that holds no terminator in its body, i.e. one that is the
    C string it denotes. *)
Fixpoint nul_free (s : string) : bool :=
  match s with
  | EmptyString => true
  | String c s' => negb (Ascii.eqb c NUL) && nul_free s'
  end.

(** ** Fixed-width integers *)

Definition wrap_u32 (z : Z) : Z := z mod 2 ^ 32.
Definition wrap_i32 (z : Z) : Z := (z + 2 ^ 31) mod 2 ^ 32 - 2 ^ 31.

Definition INT32_MAX : Z := 2 ^ 31 - 1.

(** [GSM_U32(x)]: conversion to [uint32_t]. *)
Definition GSM_U32 (z : Z) : Z := wrap_u32 z.

(** ** Character classes

    The macros [GSM_CHARISNUM] and [GSM_CHARTONUM] are used by the parser
    but declared in a header outside the sources at hand. *)

(** Modelled from the spec: [GSM_CHARISNUM], missing from the sources; the
    number parser "accumulates decimal digits" and "stops at first
    non-digit". *)
Definition GSM_CHARISNUM (c : ascii) : bool :=
  (char_code "0" <=? char_code c) && (char_code c <=? char_code "9").

(** Modelled from the spec: [GSM_CHARTONUM], missing from the sources; the
    value of a decimal digit in the accumulation [digit*10+value]. *)
Definition GSM_CHARTONUM (c : ascii) : Z := char_code c - char_code "0".

(** ** [gsmi_parse_number] *)

(** The [while (GSM_CHARISNUM( *p))] loop: [val] is the [int32_t]
    accumulator, the result is its final value and the final pointer. *)
Fixpoint parse_number_loop (val : Z) (p : string) : Z * string :=
  match p with
  | EmptyString => (val, p)
  | String c p' =>
      if GSM_CHARISNUM c
      then parse_number_loop (wrap_i32 (val * 10 + GSM_CHARTONUM c)) p'
      else (val, p)
  end.

(** Returns the parsed number and the new value of [*str]. *)
Definition gsmi_parse_number (str : string) : Z * string :=
  let p := str in
  let p := skip_char DQUOTE p in
  let p := skip_char "," p in
  let p := skip_char DQUOTE p in
  let minus := Ascii.eqb (deref p) "-" in
  let p := if minus then next p else p in
  let '(val, p) := parse_number_loop 0 p in
  let p := skip_char "," p in
  (if minus then wrap_i32 (- val) else val, p).

(** ** [gsmi_parse_string] *)

(** The test [p[1] == ',' || p[1] == '\r' || p[1] == '\n'] on the
    character after a quote. *)
Definition ends_field (c : ascii) : bool :=
  Ascii.eqb c "," || Ascii.eqb c CR || Ascii.eqb c LF.

(** The [while ( *p)] loop.  [dst] is the destination array ([None] for a
    NULL pointer), [i] the number of characters copied so far, which is
    also the offset the moving pointer [dst] has reached, and [dst_len]
    the capacity left after the terminator was reserved.  The result is
    the final [p], the array and the final [i]. *)
Fixpoint parse_string_loop (p : string) (dst : option (list ascii))
    (i dst_len : nat) (trim : bool) : string * option (list ascii) * nat :=
  match p with
  | EmptyString => (p, dst, i)
  | String c p' =>
      if Ascii.eqb c NUL then (p, dst, i)
      else if Ascii.eqb c DQUOTE && ends_field (deref p') then (p', dst, i)
      else
        match dst with
        | Some d =>
            if (i <? dst_len)%nat
            then parse_string_loop p' (Some (<[i:=c]> d)) (S i) dst_len trim
            else if negb trim then (p, dst, i)
            else parse_string_loop p' dst i dst_len trim
        | None => parse_string_loop p' dst i dst_len trim
        end
  end.

(** Returns the new value of [*src] and the destination array after the
    call; the C function returns 1 on every path.  A write outside the
    array (only possible when [dst_len] exceeds its real size, or is 0 for
    an array of size 0) is undefined in C and leaves the list as it is. *)
Definition gsmi_parse_string (src : string) (dst : option (list ascii))
    (dst_len : nat) (trim : bool) : string * option (list ascii) :=
  let p := src in
  let p := skip_char "," p in
  let p := skip_char DQUOTE p in
  let dst_len := Nat.pred dst_len in
  let '(p, dst, i) := parse_string_loop p dst 0 dst_len trim in
  let dst := option_map (fun d => <[i:=NUL]> d) dst in
  (p, dst).

(** The C string held by a character array. *)
Definition buf_string (b : list ascii) : string :=
  c_chars (string_of_list_ascii b).

(** ** [gsmi_parse_memory] and [gsmi_parse_memories_string]

    [gsm_mem_t] is an enumeration declared outside the sources at hand; a
    selector is its ordinal.  The device table [gsm_dev_mem_map] (with
    [gsm_dev_mem_map_size] its length) and the ordinal of
    [GSM_MEM_UNKNOWN] are supplied from outside as well and are parameters
    of the embedding. *)

Definition gsm_mem_t := Z.

Record gsm_dev_mem_map_t := {
  mem_str : string;
  mem : gsm_mem_t
}.

(** [s += n] *)
Definition advance (n : nat) (s : string) : string := Nat.iter n next s.

Section Memory.

Variable gsm_dev_mem_map : list gsm_dev_mem_map_t.
Variable GSM_MEM_UNKNOWN : gsm_mem_t.

(** The [for] loop over the table: the selector of the first entry whose
    name compares equal over its own length, and the pointer moved past
    that name; [None] when the loop runs to the end. *)
Fixpoint mem_map_scan (map : list gsm_dev_mem_map_t) (s : string)
    : option (gsm_mem_t * string) :=
  match map with
  | [] => None
  | e :: map' =>
      let sl := strlen (mem_str e) in
      if strncmp_eq s (mem_str e) sl
      then Some (mem e, advance sl s)
      else mem_map_scan map' s
  end.

(** Returns the selector and the new value of [*src]. *)
Definition gsmi_parse_memory (src : string) : gsm_mem_t * string :=
  let s := src in
  let s := skip_char "," s in
  let s := skip_char DQUOTE s in
  let '(m, s) :=
    match mem_map_scan gsm_dev_mem_map s with
    | Some r => r
    | None => (GSM_MEM_UNKNOWN, s)
    end in
  let s := if m =? GSM_MEM_UNKNOWN
           then fst (gsmi_parse_string s None 0 true)
           else s in
  let s := skip_char DQUOTE s in
  (m, s).

(** [GSM_U32(1 << GSM_U32(mem))].  For a selector in 0..31 this is the
    bit the code stores ([mem_bit_shift]).  C leaves a shift by 32 or more
    undefined: for such a selector the value here, 0 (the mathematical
    shift truncated to 32 bits), is a convention of this embedding and not
    a result of the code, on which nothing can be concluded there. *)
Definition mem_bit (m : gsm_mem_t) : Z :=
  GSM_U32 (Z.shiftl 1 (GSM_U32 m)).

(** The [do ... while ( *str && *str != ')')] loop.  The loop has no bound
    of its own in C; [fuel] bounds the number of iterations and [None]
    means it ran out. *)
Fixpoint memories_loop (fuel : nat) (str : string) (mem_dst : Z)
    : option (string * Z) :=
  match fuel with
  | O => None
  | S fuel' =>
      let '(m, str) := gsmi_parse_memory str in
      let mem_dst := Z.lor mem_dst (mem_bit m) in
      if negb (Ascii.eqb (deref str) NUL) && negb (Ascii.eqb (deref str) ")")
      then memories_loop fuel' str mem_dst
      else Some (str, mem_dst)
  end.

(** Returns the new value of [*src] and the value stored in [*mem_dst];
    the C function returns 1.  Every iteration that is followed by another
    one consumes a character when the table has no empty name, so one more
    iteration than the input has characters is enough fuel (see
    [memories_string_terminates]). *)
Definition gsmi_parse_memories_string (src : string) : option (string * Z) :=
  let str := src in
  let mem_dst := 0 in
  let str := skip_char "," str in
  let str := skip_char "(" str in
  match memories_loop (S (String.length str)) str mem_dst with
  | Some (str, mem_dst) => Some (skip_char ")" str, mem_dst)
  | None => None
  end.

End Memory.

(** ** The device state touched by the line parsers

    Calls into the rest of the driver ([gsmi_get_sim_info], [gsmi_send_cb])
    are recorded, in order, in a log kept next to the fields of the global
    [gsm] structure that the parsers write. *)

Inductive gsm_sim_state_t :=
  | GSM_SIM_STATE_READY
  | GSM_SIM_STATE_NOT_READY
  | GSM_SIM_STATE_NOT_INSERTED
  | GSM_SIM_STATE_PIN
  | GSM_SIM_STATE_PUK.

Inductive gsm_cb_type_t :=
  | GSM_CB_CPIN.

Inductive ext_call :=
  | call_gsmi_get_sim_info (blocking : Z)
  | call_gsmi_send_cb (evt : gsm_cb_type_t).

Record gsm_t := {
  sim_state : gsm_sim_state_t;      (* gsm.sim_state *)
  cb_cpin_state : gsm_sim_state_t;  (* gsm.cb.cb.cpin.state *)
  ext_calls : list ext_call         (* calls made so far, oldest first *)
}.

Definition set_sim_state (v : gsm_sim_state_t) (g : gsm_t) : gsm_t :=
  {| sim_state := v; cb_cpin_state := cb_cpin_state g;
     ext_calls := ext_calls g |}.

Definition set_cb_cpin_state (v : gsm_sim_state_t) (g : gsm_t) : gsm_t :=
  {| sim_state := sim_state g; cb_cpin_state := v;
     ext_calls := ext_calls g |}.

Definition do_call (c : ext_call) (g : gsm_t) : gsm_t :=
  {| sim_state := sim_state g; cb_cpin_state := cb_cpin_state g;
     ext_calls := ext_calls g ++ [c] |}.

Definition sim_state_eqb (a b : gsm_sim_state_t) : bool :=
  match a, b with
  | GSM_SIM_STATE_READY, GSM_SIM_STATE_READY
  | GSM_SIM_STATE_NOT_READY, GSM_SIM_STATE_NOT_READY
  | GSM_SIM_STATE_NOT_INSERTED, GSM_SIM_STATE_NOT_INSERTED
  | GSM_SIM_STATE_PIN, GSM_SIM_STATE_PIN
  | GSM_SIM_STATE_PUK, GSM_SIM_STATE_PUK => true
  | _, _ => false
  end.

(** ** [gsmi_parse_cpin] *)

(** [str += n] for a pointer that must stay inside the string or on its
    terminator: [None] when fewer than [n] characters are left. *)
Fixpoint advance_checked (n : nat) (s : string) : option string :=
  match n with
  | O => Some s
  | S n' =>
      match s with
      | EmptyString => None
      | String c s' => if Ascii.eqb c NUL then None else advance_checked n' s'
      end
  end.

(** The [if]/[else if] chain of literal comparisons, with the lengths the
    source passes to [strncmp]. *)
Definition cpin_match (str : string) : gsm_sim_state_t :=
  if strncmp_eq str "READY" 5 then GSM_SIM_STATE_READY
  else if strncmp_eq str "NOT READY" 9 then GSM_SIM_STATE_NOT_READY
  else if strncmp_eq str "NOT INSERTED" 14 then GSM_SIM_STATE_NOT_INSERTED
  else if strncmp_eq str "SIM PIN" 7 then GSM_SIM_STATE_PIN
  else if strncmp_eq str "PIN PUK" 7 then GSM_SIM_STATE_PUK
  else GSM_SIM_STATE_NOT_READY.

(** The text the comparisons run on: the input itself, or the input after
    the fixed skip of 7 characters when it starts with [+].  [None] when
    the skip would leave the string. *)
Definition cpin_body (str : string) : option string :=
  if Ascii.eqb (deref str) "+" then advance_checked 7 str else Some str.

(** Returns the device state after the call ([None] when the 7-character
    skip runs past the terminator, which C leaves undefined); the C
    function returns 1. *)
Definition gsmi_parse_cpin (str : string) (send_evt : bool) (gsm : gsm_t)
    : option gsm_t :=
  match cpin_body str with
  | None => None
  | Some str =>
      let gsm := set_sim_state (cpin_match str) gsm in
      let gsm := if sim_state_eqb (sim_state gsm) GSM_SIM_STATE_READY
                 then do_call (call_gsmi_get_sim_info 0) gsm
                 else gsm in
      let gsm := if send_evt
                 then do_call (call_gsmi_send_cb GSM_CB_CPIN)
                        (set_cb_cpin_state (sim_state gsm) gsm)
                 else gsm in
      Some gsm
  end.

(** ** [gsmi_parse_cops_scan] *)

(** One entry of the operator array.  [stat] is the enumeration
    [gsm_operator_status_t] as the 32-bit value it is stored as; the name
    arrays have the size their lists have. *)
Record gsm_operator_t := {
  stat : Z;
  long_name : list ascii;
  short_name : list ascii;
  num : Z
}.

(** The part of [gsm.msg->msg.cops_scan] the scanner uses: the array, its
    length, the index of the entry being filled, and the cell [opf] points
    to ([None] for a NULL pointer). *)
Record cops_scan_t := {
  ops : list gsm_operator_t;
  opsl : nat;
  opsi : nat;
  opf : option nat
}.

(** The function's [static] state [u.f]. *)
Record cops_flags_t := {
  bo : bool;        (* bracket open, 1 bit *)
  ccd : bool;       (* two commas in a row seen, 1 bit *)
  tn : nat;         (* term number, 2 bits *)
  tp : nat;         (* character position in the term, uint8_t *)
  ch_prev : ascii   (* previous character *)
}.

Record cops_state := {
  u : cops_flags_t;
  cops : cops_scan_t
}.

(** [memset(&u, 0x00, sizeof(u))] *)
Definition cops_flags_zero : cops_flags_t :=
  {| bo := false; ccd := false; tn := 0; tp := 0; ch_prev := NUL |}.

(** [name[tp++] = ch; name[tp] = 0;] under the guard
    [tp < sizeof(name) - 1]; returns the array and the new [tp]. *)
Definition name_put (name : list ascii) (tp : nat) (ch : ascii)
    : list ascii * nat :=
  if (tp <? List.length name - 1)%nat
  then let tp' := ((tp + 1) mod 256)%nat in
       (<[tp':=NUL]> (<[tp:=ch]> name), tp')
  else (name, tp).

(** The [switch (u.f.tn)] on a data character: the entry after the update
    and the new [tp]. *)
Definition cops_term (t : nat) (tp : nat) (ch : ascii) (o : gsm_operator_t)
    : gsm_operator_t * nat :=
  match t with
  | 0%nat =>
      ({| stat := wrap_u32 (10 * stat o + (char_code ch - char_code "0"));
          long_name := long_name o; short_name := short_name o;
          num := num o |}, tp)
  | 1%nat =>
      let '(n, tp') := name_put (long_name o) tp ch in
      ({| stat := stat o; long_name := n; short_name := short_name o;
          num := num o |}, tp')
  | 2%nat =>
      let '(n, tp') := name_put (short_name o) tp ch in
      ({| stat := stat o; long_name := long_name o; short_name := n;
          num := num o |}, tp')
  | 3%nat =>
      ({| stat := stat o; long_name := long_name o;
          short_name := short_name o;
          num := wrap_u32 (10 * num o + (char_code ch - char_code "0")) |}, tp)
  | _ => (o, tp)
  end.

(** One call.  Returns the state after it; the C function returns 1 on
    every path.  An index [opsi] outside the array (excluded by the test
    [opsi >= opsl] when [opsl] is the real length of [ops]) would be
    undefined in C and leaves the state as it is. *)
Definition gsmi_parse_cops_scan (ch : ascii) (reset : bool) (st : cops_state)
    : cops_state :=
  let f := u st in
  let m := cops st in
  if reset then {| u := cops_flags_zero; cops := m |}
  else if ccd f || (opsl m <=? opsi m)%nat then st
  else
    let '(f, m) :=
      if bo f then
        if Ascii.eqb ch ")" then
          let i := S (opsi m) in
          ({| bo := false; ccd := ccd f; tn := 0; tp := 0;
              ch_prev := ch_prev f |},
           {| ops := ops m; opsl := opsl m; opsi := i;
              opf := option_map (fun _ => i) (opf m) |})
        else if Ascii.eqb ch "," then
          ({| bo := bo f; ccd := ccd f; tn := ((tn f + 1) mod 4)%nat; tp := 0;
              ch_prev := ch_prev f |}, m)
        else if negb (Ascii.eqb ch DQUOTE) then
          let i := opsi m in
          match ops m !! i with
          | Some o =>
              let '(o', tp') := cops_term (tn f) (tp f) ch o in
              ({| bo := bo f; ccd := ccd f; tn := tn f; tp := tp';
                  ch_prev := ch_prev f |},
               {| ops := <[i:=o']> (ops m); opsl := opsl m; opsi := opsi m;
                  opf := opf m |})
          | None => (f, m)
          end
        else (f, m)
      else
        if Ascii.eqb ch "(" then
          ({| bo := true; ccd := ccd f; tn := tn f; tp := tp f;
              ch_prev := ch_prev f |}, m)
        else if Ascii.eqb ch "," && Ascii.eqb (ch_prev f) "," then
          ({| bo := bo f; ccd := true; tn := tn f; tp := tp f;
              ch_prev := ch_prev f |}, m)
        else (f, m) in
    {| u := {| bo := bo f; ccd := ccd f; tn := tn f; tp := tp f;
               ch_prev := ch |};
       cops := m |}.

(** Feeding a sequence of characters, one call each, without reset. *)
Definition cops_feed (s : string) (st : cops_state) : cops_state :=
  fold_left (fun st ch => gsmi_parse_cops_scan ch false st)
            (list_ascii_of_string s) st.

(** ** [gsmi_parse_sms_status] *)

Inductive gsm_sms_status_t :=
  | GSM_SMS_STATUS_ALL
  | GSM_SMS_STATUS_READ
  | GSM_SMS_STATUS_UNREAD
  | GSM_SMS_STATUS_SENT
  | GSM_SMS_STATUS_UNSENT.

(** The [if]/[else if] chain of [strcmp] calls on the local array. *)
Definition sms_status_match (t : string) : gsm_sms_status_t :=
  if strcmp_eq t "REC UNREAD" then GSM_SMS_STATUS_UNREAD
  else if strcmp_eq t "REC READ" then GSM_SMS_STATUS_READ
  else if strcmp_eq t "STO UNSENT" then GSM_SMS_STATUS_UNSENT
  else if strcmp_eq t "REC SENT" then GSM_SMS_STATUS_SENT
  else GSM_SMS_STATUS_ALL.

(** The local array [char t[11]] after the call of [gsmi_parse_string];
    [t0] is what the uninitialised array happens to hold on entry. *)
Definition sms_status_buffer (t0 : list ascii) (src : string) : list ascii :=
  default t0 (snd (gsmi_parse_string src (Some t0) 11 true)).

(** Returns the return value, the new value of [*src] and the value of
    [*stat] after the call, [stat] being its value before. *)
Definition gsmi_parse_sms_status (t0 : list ascii) (src : string)
    (stat : gsm_sms_status_t) : Z * string * gsm_sms_status_t :=
  let t := sms_status_buffer t0 src in
  let src := fst (gsmi_parse_string src (Some t0) 11 true) in
  let s := sms_status_match (string_of_list_ascii t) in
  match s with
  | GSM_SMS_STATUS_ALL => (0, src, stat)
  | _ => (1, src, s)
  end.

(** ** [gsm_sms_send]: the checks on the arguments *)

Module SmsApi.

Inductive gsmr_t :=
  | gsmOK
  | gsmERR
  | gsmERRMEM
  | gsmERRNOTENABLED
  | gsmPARERR.

Inductive gsm_cmd_t :=
  | GSM_CMD_CMGS
  | GSM_CMD_CMGF.

(** What a call comes to: it returns a result, or it dereferences a NULL
    pointer inside [strlen]. *)
Inductive outcome :=
  | Returns (r : gsmr_t)
  | StrlenOfNull.

(** The message handed to the producer mailbox. *)
Record sms_send_msg := {
  cmd_def : gsm_cmd_t;
  cmd : gsm_cmd_t;
  sms_num : option string;
  sms_text : option string;
  sms_format : Z
}.

(** [check_enabled()], reading [gsm.sms.enabled]. *)
Definition check_enabled (enabled : bool) : gsmr_t :=
  if enabled then gsmOK else gsmERR.

(** The condition of the first assertion: [num != NULL]. *)
Definition assert_num_cond (num : option string) : bool :=
  match num with
  | Some _ => true
  | None => false
  end.

(** The condition of the second assertion:
    [num != NULL && strlen(text) <= 160], with the short-circuit of [&&].
    [None] when its evaluation calls [strlen] on a NULL pointer. *)
Definition assert_text_cond (num text : option string) : option bool :=
  if assert_num_cond num
  then match text with
       | Some t => Some (strlen t <=? 160)%nat
       | None => None
       end
  else Some false.

Section Send.

(** Allocation of the message and [gsmi_send_msg_to_producer_mbox] belong
    to the command mailbox, outside the sources at hand. *)
Variable send_msg_to_producer_mbox : sms_send_msg -> Z -> gsmr_t.

(** Modelled from the spec: [GSM_ASSERT], missing from the sources (it is
    declared in a header outside them); an input-validation assertion,
    which rejects the call when its condition is false: the function
    returns at once with the parameter error [gsmPARERR]. *)
Definition GSM_ASSERT (c : bool) (k : outcome) : outcome :=
  if c then k else Returns gsmPARERR.

Definition gsm_sms_send (enabled : bool) (num text : option string)
    (blocking : Z) : outcome :=
  GSM_ASSERT (assert_num_cond num)
    match assert_text_cond num text with
    | None => StrlenOfNull
    | Some c =>
        GSM_ASSERT c
          match check_enabled enabled with
          | gsmOK =>
              Returns (send_msg_to_producer_mbox
                         {| cmd_def := GSM_CMD_CMGS; cmd := GSM_CMD_CMGF;
                            sms_num := num; sms_text := text;
                            sms_format := 1 |} blocking)
          | _ => Returns gsmERRNOTENABLED
          end
    end.

End Send.

End SmsApi.

(** ** [gsmi_parse_hexnumber]

    The macros [GSM_CHARISHEXNUM] and [GSM_CHARHEXTONUM] are declared
    outside the sources at hand; the function is embedded over any pair of
    them. *)

Section HexNumber.

Variable GSM_CHARISHEXNUM : ascii -> bool.
Variable GSM_CHARHEXTONUM : ascii -> Z.

(** The [while (GSM_CHARISHEXNUM( *p))] loop on the [int32_t]
    accumulator.  The terminator is taken not to be a hexadecimal digit,
    whatever the classifier says of it. *)
Fixpoint parse_hexnumber_loop (val : Z) (p : string) : Z * string :=
  match p with
  | EmptyString => (val, p)
  | String c p' =>
      if Ascii.eqb c NUL then (val, p)
      else if GSM_CHARISHEXNUM c
      then parse_hexnumber_loop (wrap_i32 (val * 16 + GSM_CHARHEXTONUM c)) p'
      else (val, p)
  end.

(** Returns the number, converted to the [uint32_t] of the return type,
    and the new value of [*str]. *)
Definition gsmi_parse_hexnumber (str : string) : Z * string :=
  let p := str in
  let p := skip_char DQUOTE p in
  let p := skip_char "," p in
  let p := skip_char DQUOTE p in
  let '(val, p) := parse_hexnumber_loop 0 p in
  let p := skip_char "," p in
  (wrap_u32 val, p).

End HexNumber.

(** ** [gsmi_parse_ip] and [gsmi_parse_mac] *)

(** [p++] on a pointer that may stand on the terminator: [None] when the
    step leaves the string. *)
Definition step_over (p : string) : option string :=
  match p with
  | EmptyString => None
  | String c p' => if Ascii.eqb c NUL then None else Some p'
  end.

Section Addresses.

(** The element types of [gsm_ip_t.ip] and [gsm_mac_t.mac] are declared
    outside the sources at hand; [ip_elem] and [mac_elem] are the
    conversions of an assigned value to them. *)
Variable ip_elem : Z -> Z.
Variable mac_elem : Z -> Z.
Variable GSM_CHARISHEXNUM : ascii -> bool.
Variable GSM_CHARHEXTONUM : ascii -> Z.

(** Returns the new value of [*src] and the four elements written to
    [ip->ip]; [None] when one of the fixed [p++] steps leaves the string.
    The C function returns 1. *)
Definition gsmi_parse_ip (src : string) : option (string * list Z) :=
  let p := skip_char DQUOTE src in
  let '(v0, p) := gsmi_parse_number p in
  match step_over p with
  | None => None
  | Some p =>
      let '(v1, p) := gsmi_parse_number p in
      match step_over p with
      | None => None
      | Some p =>
          let '(v2, p) := gsmi_parse_number p in
          match step_over p with
          | None => None
          | Some p =>
              let '(v3, p) := gsmi_parse_number p in
              let p := skip_char DQUOTE p in
              Some (p, [ip_elem v0; ip_elem v1; ip_elem v2; ip_elem v3])
          end
      end
  end.

(** The first five fields of a MAC address, each followed by [p++]: the
    elements read so far, in reverse order, and the pointer. *)
Fixpoint parse_mac_fields (n : nat) (p : string) (acc : list Z)
    : option (string * list Z) :=
  match n with
  | O => Some (p, acc)
  | S n' =>
      let '(v, p) := gsmi_parse_hexnumber GSM_CHARISHEXNUM GSM_CHARHEXTONUM p in
      match step_over p with
      | None => None
      | Some p => parse_mac_fields n' p (mac_elem v :: acc)
      end
  end.

(** Returns the new value of [*src] and the six elements written to
    [mac->mac]; the C function returns 1. *)
Definition gsmi_parse_mac (src : string) : option (string * list Z) :=
  let p := skip_char DQUOTE src in
  match parse_mac_fields 5 p [] with
  | None => None
  | Some (p, acc) =>
      let '(v5, p) := gsmi_parse_hexnumber GSM_CHARISHEXNUM GSM_CHARHEXTONUM p in
      let p := skip_char DQUOTE p in
      let p := skip_char "," p in
      Some (p, rev (mac_elem v5 :: acc))
  end.

End Addresses.

(** ** The other line parsers

    Each of them starts with the fixed skip [if ( *str == '+') str += 7],
    which is [cpin_body].  The fields of [gsm.call], of the event
    structures and of the SMS entry are declared outside the sources at
    hand: a numeric field holds, in the embedding, the value that is
    assigned to it, before its conversion to the field's type; a character
    array has the size its list has. *)

(** The fields of [gsm.call] written by [gsmi_parse_clcc]. *)
Record gsm_call_t := {
  call_id : Z;
  call_dir : Z;
  call_state : Z;
  call_type : Z;
  call_is_multipart : Z;
  call_number : list ascii;
  call_addr_type : Z;
  call_name : list ascii
}.

(** Returns [gsm.call] after the call and whether the call-changed event
    was sent; [None] when the 7-character skip leaves the string.  The C
    function returns 1. *)
Definition gsmi_parse_clcc (str : string) (send_evt : bool)
    (call : gsm_call_t) : option (gsm_call_t * bool) :=
  match cpin_body str with
  | None => None
  | Some str =>
      let '(id, str) := gsmi_parse_number str in
      let '(dir, str) := gsmi_parse_number str in
      let '(state, str) := gsmi_parse_number str in
      let '(type, str) := gsmi_parse_number str in
      let '(multipart, str) := gsmi_parse_number str in
      let '(str, number) :=
        gsmi_parse_string str (Some (call_number call))
          (List.length (call_number call)) true in
      let '(addr_type, str) := gsmi_parse_number str in
      let '(str, name) :=
        gsmi_parse_string str (Some (call_name call))
          (List.length (call_name call)) true in
      Some ({| call_id := id; call_dir := dir; call_state := state;
               call_type := type; call_is_multipart := multipart;
               call_number := default (call_number call) number;
               call_addr_type := addr_type;
               call_name := default (call_name call) name |},
            send_evt)
  end.

(** [uint16_t]: the type of the local [num] of [gsmi_parse_cmgs]. *)
Definition wrap_u16 (z : Z) : Z := z mod 2 ^ 16.

(** Returns the number carried by the SMS-sent event, [Some None] when no
    event is sent, [None] when the 7-character skip leaves the string.
    The C function returns 1. *)
Definition gsmi_parse_cmgs (str : string) (send_evt : bool)
    : option (option Z) :=
  match cpin_body str with
  | None => None
  | Some str =>
      let num := wrap_u16 (fst (gsmi_parse_number str)) in
      Some (if send_evt then Some num else None)
  end.

(** The fields of the SMS entry written by [gsmi_parse_cmgr]. *)
Record gsm_sms_entry_t := {
  sms_entry_status : gsm_sms_status_t;
  sms_entry_number : list ascii
}.

(** Returns the entry [gsm.msg->msg.sms_read.entry] points to after the
    call; [t0] is the initial content of the local array of
    [gsmi_parse_sms_status], whose return value is not looked at.  The C
    function returns 1. *)
Definition gsmi_parse_cmgr (t0 : list ascii) (str : string)
    (e : gsm_sms_entry_t) : option gsm_sms_entry_t :=
  match cpin_body str with
  | None => None
  | Some str =>
      let '(_, str, status) :=
        gsmi_parse_sms_status t0 str (sms_entry_status e) in
      let '(str, number) :=
        gsmi_parse_string str (Some (sms_entry_number e))
          (List.length (sms_entry_number e)) true in
      let '(str, _) := gsmi_parse_string str None 0 true in
      Some {| sms_entry_status := status;
              sms_entry_number := default (sms_entry_number e) number |}
  end.

Section StorageLines.

Variable gsm_dev_mem_map : list gsm_dev_mem_map_t.
Variable GSM_MEM_UNKNOWN : gsm_mem_t.

(** Returns [gsm.cb.cb.sms_recv.mem], [gsm.cb.cb.sms_recv.pos] and whether
    the SMS-received event was sent.  The C function returns 1. *)
Definition gsmi_parse_cmti (str : string) (send_evt : bool)
    : option (gsm_mem_t * Z * bool) :=
  match cpin_body str with
  | None => None
  | Some str =>
      let '(m, str) := gsmi_parse_memory gsm_dev_mem_map GSM_MEM_UNKNOWN str in
      let '(pos, str) := gsmi_parse_number str in
      Some (m, pos, send_evt)
  end.




End StorageLines.

(** ** [check_sms_mem] of [gsm_sms.c]

    [GSM_MEM_END] and [GSM_MEM_CURRENT] are members of the enumeration
    [gsm_mem_t], declared outside the sources at hand; [mem_available] is
    the field [gsm.sms.mem[GSM_SMS_OPERATION_IDX].mem_available], read as
    the 32-bit mask it is tested as. *)

Section SmsMemory.

Variable GSM_MEM_END : gsm_mem_t.
Variable GSM_MEM_CURRENT : gsm_mem_t.

Definition check_sms_mem (mem_available : Z) (m : gsm_mem_t) (can_curr : bool)
    : SmsApi.gsmr_t :=
  if ((m <? GSM_MEM_END) && negb (Z.land mem_available (mem_bit m) =? 0))
     || (can_curr && (m =? GSM_MEM_CURRENT))
  then SmsApi.gsmOK
  else SmsApi.gsmERRMEM.

End SmsMemory.

(** * Properties *)

(** ** Reference notions the statements are written with *)

(** [a] is a prefix of [b]. *)
Definition is_prefix (a b : string) : Prop := exists t, b = (a ++ t)%string.

(** A token between quotes. *)
Definition quoted (w : string) : string :=
  String DQUOTE (w ++ String DQUOTE EmptyString)%string.

(** The name of a table entry, as the C string it is. *)
Definition entry_name (e : gsm_dev_mem_map_t) : string := c_chars (mem_str e).

(** [e] is the first entry of the table whose name is a prefix of the
    text of a quoted occurrence of its own name: it sits in the table, and
    no entry before it has a name that is a prefix of [e]'s name followed
    by a quote and anything. *)
Definition first_named (tbl : list gsm_dev_mem_map_t) (e : gsm_dev_mem_map_t)
    : Prop :=
  exists i, tbl !! i = Some e /\
    forall j e' tail, (j < i)%nat -> tbl !! j = Some e' ->
      ~ is_prefix (entry_name e') (entry_name e ++ String DQUOTE tail).

(** The text of a list of memory names, each between quotes, separated by
    commas, without the brackets: the names after the first one come with
    a comma in front. *)
Definition more_names (ns : list string) : string :=
  fold_right (fun m acc => String "," (quoted m) ++ acc)%string EmptyString ns.

Definition memory_list_text (names : list string) : string :=
  match names with
  | [] => EmptyString
  | n :: ns => (quoted n ++ more_names ns)%string
  end.

(** The OR of [1 << selector] over a sequence of selectors. *)
Definition memory_mask (ms : list gsm_mem_t) : Z :=
  fold_left (fun acc m => Z.lor acc (mem_bit m)) ms 0.

(** Some quote in the string is directly followed by a comma, CR or LF. *)
Fixpoint has_field_end (s : string) : bool :=
  match s with
  | EmptyString => false
  | String c s' =>
      (Ascii.eqb c DQUOTE && ends_field (deref s')) || has_field_end s'
  end.

(** The first [n] characters of a string. *)
Fixpoint first_chars (n : nat) (s : string) : string :=
  match n, s with
  | S n', String c s' => String c (first_chars n' s')
  | _, _ => EmptyString
  end.

(** A string without a quote character. *)
Fixpoint quote_free (s : string) : bool :=
  match s with
  | EmptyString => true
  | String c s' => negb (Ascii.eqb c DQUOTE) && quote_free s'
  end.

(** The status a literal stands for, by equality of strings. *)
Definition sms_status_of_literal (w : string) : option gsm_sms_status_t :=
  if String.eqb w "REC UNREAD" then Some GSM_SMS_STATUS_UNREAD
  else if String.eqb w "REC READ" then Some GSM_SMS_STATUS_READ
  else if String.eqb w "STO UNSENT" then Some GSM_SMS_STATUS_UNSENT
  else if String.eqb w "REC SENT" then Some GSM_SMS_STATUS_SENT
  else None.

(** The number of times [gsmi_get_sim_info] has been called. *)
Definition is_sim_info_call (c : ext_call) : bool :=
  match c with
  | call_gsmi_get_sim_info _ => true
  | _ => false
  end.

Definition sim_info_calls (g : gsm_t) : nat :=
  List.length (List.filter is_sim_info_call (ext_calls g)).

(** The scanner ignores its input: the latch is set, or the array is
    full. *)
Definition cops_frozen (st : cops_state) : Prop :=
  ccd (u st) = true \/ (opsl (cops st) <= opsi (cops st))%nat.

(** A sequence of calls, each with its character and its reset flag. *)
Definition cops_run (calls : list (ascii * bool)) (st : cops_state)
    : cops_state :=
  fold_left (fun st c => gsmi_parse_cops_scan (fst c) (snd c) st) calls st.

(** The state at program start: the [static] flags are zero. *)
Definition cops_start (m : cops_scan_t) : cops_state :=
  {| u := cops_flags_zero; cops := m |}.

(** An operator entry with zeroed fields and name arrays of 20 bytes. *)
Definition operator_zero : gsm_operator_t :=
  {| stat := 0; long_name := replicate 20 NUL;
     short_name := replicate 20 NUL; num := 0 |}.

(** The strings matching [[0-9]+] and [-?[0-9]+]. *)
Fixpoint all_digits (s : string) : bool :=
  match s with
  | EmptyString => true
  | String c s' => GSM_CHARISNUM c && all_digits s'
  end.

Definition is_digits (s : string) : bool :=
  negb (String.length s =? 0)%nat && all_digits s.

Definition is_decimal (s : string) : bool :=
  match s with
  | String c s' => if Ascii.eqb c "-" then is_digits s' else is_digits s
  | EmptyString => false
  end.

(** The integer a decimal numeral denotes, by the positional rule. *)
Fixpoint digits_value (s : string) : Z :=
  match s with
  | EmptyString => 0
  | String c s' =>
      GSM_CHARTONUM c * 10 ^ Z.of_nat (String.length s') + digits_value s'
  end.

Definition decimal_value (s : string) : Z :=
  match s with
  | String c s' => if Ascii.eqb c "-" then - digits_value s' else digits_value s
  | EmptyString => 0
  end.

(** [t] is what is left of [s] after some prefix of it. *)
Definition is_suffix (t s : string) : Prop := exists pre, s = (pre ++ t)%string.

(** What [gsmi_parse_number] and [gsmi_parse_hexnumber] accept in front of
    a number: a quote, a comma and a quote, each of them optional. *)
Definition number_lead (q1 c q2 : bool) : string :=
  ((if q1 then String DQUOTE EmptyString else EmptyString) ++
   (if c then String "," EmptyString else EmptyString) ++
   (if q2 then String DQUOTE EmptyString else EmptyString))%string.

(** A string after its first [n] characters. *)
Fixpoint drop_chars (n : nat) (s : string) : string :=
  match n, s with
  | S n', String _ s' => drop_chars n' s'
  | _, _ => s
  end.

(** A destination array after a copy: the characters copied, the
    terminator, and what the array held behind it. *)
Definition copied (w : string) (d : list ascii) : list ascii :=
  list_ascii_of_string w ++ NUL :: drop (S (String.length w)) d.

(** Strings of hexadecimal digits, and their value by the positional
    rule, for a classifier and a valuation of the digits. *)
Fixpoint all_hexdigits (isx : ascii -> bool) (s : string) : bool :=
  match s with
  | EmptyString => true
  | String c s' => negb (Ascii.eqb c NUL) && isx c && all_hexdigits isx s'
  end.

Fixpoint hex_value (val : ascii -> Z) (s : string) : Z :=
  match s with
  | EmptyString => 0
  | String c s' => val c * 16 ^ Z.of_nat (String.length s') + hex_value val s'
  end.

(** The hexadecimal loop stops on [tail]: at the terminator, or at a
    character that is not a digit. *)
Definition hex_stop (isx : ascii -> bool) (tail : string) : bool :=
  Ascii.eqb (deref tail) NUL || negb (isx (deref tail)).

(** Modelled from the spec: the hexadecimal digits and their values, for
    [GSM_CHARISHEXNUM] and [GSM_CHARHEXTONUM], missing from the sources;
    "base-16 semantics" over the digits [0-9], [a-f] and [A-F]. *)
Definition hex_digit_value (c : ascii) : Z :=
  let n := char_code c in
  if (48 <=? n) && (n <=? 57) then n - 48
  else if (97 <=? n) && (n <=? 102) then n - 87
  else if (65 <=? n) && (n <=? 70) then n - 55
  else 0.

Definition is_hex_digit (c : ascii) : bool :=
  let n := char_code c in
  ((48 <=? n) && (n <=? 57)) || ((97 <=? n) && (n <=? 102))
  || ((65 <=? n) && (n <=? 70)).

(** A character that separates the fields of a dotted address: not the
    terminator, not a comma, not a digit. *)
Definition is_separator (c : ascii) : bool :=
  negb (Ascii.eqb c NUL) && negb (Ascii.eqb c ",") && negb (GSM_CHARISNUM c).

(** The same for the fields of a MAC address: not the terminator, not a
    comma, not a quote, not a hexadecimal digit. *)
Definition is_hex_separator (isx : ascii -> bool) (c : ascii) : bool :=
  negb (Ascii.eqb c NUL) && negb (Ascii.eqb c ",")
  && negb (Ascii.eqb c DQUOTE) && negb (isx c).

(** The text of a run of fields, each followed by its separator, in front
    of [tail]. *)
Definition fields_text (fs : list (string * ascii)) (tail : string) : string :=
  fold_right (fun f acc => (fst f ++ String (snd f) acc)%string) tail fs.

(** The text of a bracketed list of the names of table entries, in front
    of [tail]. *)
Definition memory_list (es : list gsm_dev_mem_map_t) (tail : string) : string :=
  String "(" (memory_list_text (entry_name <$> es) ++ String ")" tail).

(** All entries of a list are found first in the table under their names
    and are not the unknown selector. *)
Definition known_entries (tbl : list gsm_dev_mem_map_t) (unknown : gsm_mem_t)
    (es : list gsm_dev_mem_map_t) : Prop :=
  forall x, x ∈ es -> first_named tbl x /\ mem x <> unknown.

(** A scanner state, field by field. *)
Definition cops_mk (b c : bool) (t p : nat) (prev : ascii)
    (o : list gsm_operator_t) (l i : nat) (f : option nat) : cops_state :=
  {| u := {| bo := b; ccd := c; tn := t; tp := p; ch_prev := prev |};
     cops := {| ops := o; opsl := l; opsi := i; opf := f |} |}.

(** A string without its quote characters. *)
Fixpoint unquote (s : string) : string :=
  match s with
  | EmptyString => EmptyString
  | String c s' =>
      if Ascii.eqb c DQUOTE then unquote s' else String c (unquote s')
  end.

(** The text of one field of a record: no comma and no closing bracket. *)
Fixpoint is_field (s : string) : bool :=
  match s with
  | EmptyString => true
  | String c s' =>
      negb (Ascii.eqb c ",") && negb (Ascii.eqb c ")") && is_field s'
  end.

(** The last character of a string, [d] for the empty string. *)
Fixpoint last_char (d : ascii) (s : string) : ascii :=
  match s with
  | EmptyString => d
  | String c s' => last_char c s'
  end.

(** A name array of [n] bytes that holds the characters [done] and is
    zero behind them. *)
Definition name_fill (done : list ascii) (n : nat) : list ascii :=
  done ++ replicate (n - List.length done) NUL.

(** The scanner's [switch], run over the characters of one field, the
    quotes left out: the entry and the character position after it. *)
Fixpoint field_fold (t : nat) (w : string) (o : gsm_operator_t) (p : nat)
    : gsm_operator_t * nat :=
  match w with
  | EmptyString => (o, p)
  | String c w' =>
      if Ascii.eqb c DQUOTE then field_fold t w' o p
      else let '(o', p') := cops_term t p c o in field_fold t w' o' p'
  end.

(** [name_put] run over the characters of one field, the quotes left
    out. *)
Fixpoint name_fold (arr : list ascii) (p : nat) (w : string)
    : list ascii * nat :=
  match w with
  | EmptyString => (arr, p)
  | String c w' =>
      if Ascii.eqb c DQUOTE then name_fold arr p w'
      else let '(arr', p') := name_put arr p c in name_fold arr' p' w'
  end.

(** ** Basic facts on pointers and C strings *)

#[local] Arguments Ascii.eqb : simpl never.

Lemma ascii_eqb_eq (a b : ascii) : Ascii.eqb a b = true <-> a = b.
Proof. apply Ascii.eqb_eq. Qed.

Lemma ascii_eqb_neq (a b : ascii) : Ascii.eqb a b = false <-> a <> b.
Proof. apply Ascii.eqb_neq. Qed.

Lemma string_app_assoc (a b c : string) :
  ((a ++ b) ++ c = a ++ (b ++ c))%string.
Proof. induction a as [|x a IH]; simpl; [reflexivity | rewrite IH; reflexivity]. Qed.

Lemma string_app_length (a b : string) :
  String.length (a ++ b) = (String.length a + String.length b)%nat.
Proof. induction a as [|x a IH]; simpl; [reflexivity | rewrite IH; reflexivity]. Qed.

Lemma length_next (p : string) :
  String.length (next p) = Nat.pred (String.length p).
Proof. destruct p; reflexivity. Qed.

Lemma length_skip_char (c : ascii) (p : string) :
  (String.length (skip_char c p) <= String.length p)%nat.
Proof.
  unfold skip_char. destruct (Ascii.eqb (deref p) c); [|lia].
  rewrite length_next. lia.
Qed.

Lemma skip_char_eq (c : ascii) (p : string) : skip_char c (String c p) = p.
Proof. unfold skip_char. simpl. rewrite Ascii.eqb_refl. reflexivity. Qed.

Lemma skip_char_ne (c d : ascii) (p : string) :
  Ascii.eqb c d = false -> skip_char d (String c p) = String c p.
Proof. unfold skip_char. simpl. intros ->. reflexivity. Qed.

Lemma skip_char_cases (c : ascii) (p : string) :
  skip_char c p = p \/ (String.length (skip_char c p) < String.length p)%nat.
Proof.
  unfold skip_char. destruct (Ascii.eqb (deref p) c); [|left; reflexivity].
  destruct p; simpl; [left; reflexivity | right; lia].
Qed.

Lemma length_advance (n : nat) (p : string) :
  String.length (advance n p) = (String.length p - n)%nat.
Proof.
  unfold advance. induction n as [|n IH]; simpl.
  - lia.
  - rewrite length_next, IH. lia.
Qed.

Lemma advance_app (a t : string) :
  advance (String.length a) (a ++ t) = t.
Proof.
  unfold advance. induction a as [|c a IH]; simpl; [reflexivity|].
  rewrite <- IH at 2. clear IH.
  generalize (String.length a) as n. intros n.
  induction n as [|n IH]; simpl; [reflexivity|].
  rewrite <- IH. reflexivity.
Qed.

Lemma c_chars_nul_free (s : string) : nul_free (c_chars s) = true.
Proof.
  induction s as [|c s IH]; simpl; [reflexivity|].
  destruct (Ascii.eqb c NUL) eqn:E; simpl; [reflexivity|].
  rewrite E. exact IH.
Qed.

Lemma c_chars_id (s : string) : nul_free s = true -> c_chars s = s.
Proof.
  induction s as [|c s IH]; simpl; [reflexivity|].
  destruct (Ascii.eqb c NUL); simpl; [discriminate|].
  intros H. rewrite IH; auto.
Qed.

(** [strncmp] over the length of the second string is the prefix test. *)
Lemma strncmp_eq_prefix (lit s : string) :
  strncmp_eq s lit (strlen lit) = true <-> is_prefix (c_chars lit) s.
Proof.
  unfold strlen, is_prefix. revert s.
  induction lit as [|c lit IH]; intros s; simpl.
  - split; [exists s; reflexivity | reflexivity].
  - destruct (Ascii.eqb c NUL) eqn:Ec; simpl.
    + split; [exists s; reflexivity | reflexivity].
    + destruct s as [|d s]; simpl.
      * replace (Ascii.eqb NUL c) with false
          by (symmetry; rewrite Ascii.eqb_sym; exact Ec).
        split; [discriminate | intros [t Ht]; simpl in Ht; discriminate].
      * destruct (Ascii.eqb d c) eqn:Ed.
        -- apply ascii_eqb_eq in Ed. subst d. rewrite Ec.
           rewrite IH. split; intros [t Ht]; exists t.
           ++ rewrite Ht. reflexivity.
           ++ simpl in Ht. injection Ht. auto.
        -- split; [discriminate|]. intros [t Ht]. simpl in Ht. injection Ht.
           intros _ Hd. apply ascii_eqb_neq in Ed. contradiction.
Qed.

(** [strcmp] against a string without terminator in its body is equality
    of the C string with it. *)
Lemma strcmp_eq_spec (s lit : string) :
  nul_free lit = true -> strcmp_eq s lit = true <-> c_chars s = lit.
Proof.
  revert lit. induction s as [|c s IH]; intros lit Hl; simpl.
  - destruct lit as [|d lit]; simpl in *.
    + split; reflexivity.
    + apply andb_true_iff in Hl as [Hd _]. apply negb_true_iff in Hd.
      rewrite Hd. split; discriminate.
  - destruct lit as [|d lit]; simpl in *.
    + destruct (Ascii.eqb c NUL); split; auto; discriminate.
    + apply andb_true_iff in Hl as [Hd Hl]. apply negb_true_iff in Hd.
      destruct (Ascii.eqb c d) eqn:Ecd.
      * apply ascii_eqb_eq in Ecd. subst d. rewrite Hd.
        rewrite (IH lit Hl). split; [intros ->; reflexivity|].
        intros H. injection H. auto.
      * apply ascii_eqb_neq in Ecd.
        destruct (Ascii.eqb c NUL); split; try discriminate.
        intros H. injection H. intros _ Hc. contradiction.
Qed.

(** ** [gsmi_parse_number] *)

Lemma wrap_i32_small (z : Z) :
  - 2 ^ 31 <= z <= INT32_MAX -> wrap_i32 z = z.
Proof.
  unfold wrap_i32, INT32_MAX. intros H.
  rewrite Z.mod_small by lia. lia.
Qed.

Lemma digit_range (c : ascii) :
  GSM_CHARISNUM c = true -> 0 <= GSM_CHARTONUM c <= 9.
Proof.
  unfold GSM_CHARISNUM, GSM_CHARTONUM. intros H.
  apply andb_true_iff in H as [H1 H2].
  apply Z.leb_le in H1, H2.
  change (char_code "0") with 48 in *. change (char_code "9") with 57 in *.
  lia.
Qed.

Lemma digit_not (c d : ascii) :
  GSM_CHARISNUM c = true -> GSM_CHARISNUM d = false -> Ascii.eqb c d = false.
Proof.
  intros Hc Hd. apply ascii_eqb_neq. intros ->. congruence.
Qed.

Lemma digits_value_nonneg (s : string) :
  all_digits s = true -> 0 <= digits_value s.
Proof.
  induction s as [|c s IH]; simpl; [lia|].
  intros H. apply andb_true_iff in H as [Hc Hs].
  pose proof (digit_range c Hc). specialize (IH Hs).
  assert (0 < 10 ^ Z.of_nat (String.length s)) by (apply Z.pow_pos_nonneg; lia).
  nia.
Qed.

(** The accumulation loop computes the positional value as long as the
    final value fits an [int32_t]. *)
Lemma parse_number_loop_digits (ds : string) :
  forall (acc : Z) (rest : string),
    all_digits ds = true ->
    0 <= acc ->
    acc * 10 ^ Z.of_nat (String.length ds) + digits_value ds <= INT32_MAX ->
    parse_number_loop acc (ds ++ String "," rest) =
      (acc * 10 ^ Z.of_nat (String.length ds) + digits_value ds,
       String "," rest).
Proof.
  induction ds as [|c ds IH]; intros acc rest Hd Hacc Hmax.
  - simpl. f_equal. lia.
  - simpl in Hd. apply andb_true_iff in Hd as [Hc Hd].
    pose proof (digit_range c Hc) as Hr.
    pose proof (digits_value_nonneg ds Hd) as Hv.
    assert (Hp : 0 < 10 ^ Z.of_nat (String.length ds))
      by (apply Z.pow_pos_nonneg; lia).
    assert (Hs : 10 ^ Z.of_nat (String.length (String c ds)) =
                 10 * 10 ^ Z.of_nat (String.length ds)).
    { cbn [String.length]. rewrite Nat2Z.inj_succ, Z.pow_succ_r by lia.
      reflexivity. }
    rewrite Hs in *. cbn [digits_value] in *.
    cbn [append parse_number_loop]. rewrite Hc.
    rewrite wrap_i32_small by (unfold INT32_MAX in *; nia).
    rewrite IH; [f_equal; lia | assumption | lia | lia].
Qed.

Lemma is_digits_head (c : ascii) (s : string) :
  is_digits (String c s) = true ->
  GSM_CHARISNUM c = true /\ all_digits (String c s) = true.
Proof.
  unfold is_digits. intros H.
  apply andb_true_iff in H as [_ Ha]. split; [|exact Ha].
  simpl in Ha. apply andb_true_iff in Ha as [Hc _]. exact Hc.
Qed.

Lemma parse_number_digits (ds rest : string) :
  is_digits ds = true ->
  digits_value ds <= INT32_MAX ->
  parse_number_loop 0 (ds ++ String "," rest) =
    (digits_value ds, String "," rest).
Proof.
  intros Hd Hmax.
  assert (Ha : all_digits ds = true).
  { unfold is_digits in Hd. apply andb_true_iff in Hd as [_ Hd]. exact Hd. }
  rewrite parse_number_loop_digits; auto; lia.
Qed.

(** C4 (as amended): for every string [s] matching [-?[0-9]+] whose value
    has a magnitude of at most [INT32_MAX], [gsmi_parse_number] on [s]
    followed by a comma returns the integer [s] denotes and leaves the
    cursor one character past that comma. *)
Theorem parse_number_decimal_in_range (s rest : string) :
  is_decimal s = true ->
  Z.abs (decimal_value s) <= INT32_MAX ->
  gsmi_parse_number (s ++ String "," rest) = (decimal_value s, rest).
Proof.
  intros Hs Hmax. destruct s as [|c s]; [discriminate|].
  unfold is_decimal, decimal_value in *.
  destruct (Ascii.eqb c "-") eqn:Em.
  - apply ascii_eqb_eq in Em. subst c.
    rewrite Z.abs_opp in Hmax.
    assert (Ha : all_digits s = true).
    { unfold is_digits in Hs. apply andb_true_iff in Hs as [_ Hs]. exact Hs. }
    pose proof (digits_value_nonneg s Ha) as Hv.
    rewrite Z.abs_eq in Hmax by lia.
    unfold gsmi_parse_number. cbn [append].
    rewrite !skip_char_ne by reflexivity.
    cbn [deref next]. change (Ascii.eqb "-" "-") with true. cbv iota.
    rewrite parse_number_digits by assumption.
    rewrite skip_char_eq.
    rewrite wrap_i32_small by (unfold INT32_MAX in *; lia).
    reflexivity.
  - destruct (is_digits_head c s Hs) as [Hc Ha].
    pose proof (digits_value_nonneg _ Ha) as Hv.
    rewrite Z.abs_eq in Hmax by lia.
    unfold gsmi_parse_number. cbn [append].
    rewrite !skip_char_ne by (apply digit_not; [assumption|reflexivity]).
    cbn [deref]. rewrite Em.
    change (String c (s ++ String "," rest))
      with (String c s ++ String "," rest)%string.
    rewrite parse_number_digits by assumption.
    rewrite skip_char_eq. reflexivity.
Qed.

Lemma parse_number_decimal_in_range_witness :
  gsmi_parse_number "-20801,rest" = (-20801, "rest"%string).
Proof.
  apply (parse_number_decimal_in_range "-20801" "rest").
  - reflexivity.
  - vm_compute. discriminate.
Defined.

(** C4 (as stated) fails: the numeral 2147483648 matches [-?[0-9]+], and
    the 32-bit accumulator does not return its value. *)
Lemma parse_number_overflow_counterexample :
  is_decimal "2147483648" = true /\
  gsmi_parse_number "2147483648,rest" = (-2147483648, "rest"%string) /\
  fst (gsmi_parse_number "2147483648,rest") <> decimal_value "2147483648".
Proof.
  split; [reflexivity|]. split; [vm_compute; reflexivity|].
  vm_compute. discriminate.
Qed.

(** ** [gsmi_parse_string] *)

(** The loop never moves the pointer backwards. *)
Lemma parse_string_loop_length (p : string) :
  forall dst i n trim,
    (String.length (fst (fst (parse_string_loop p dst i n trim)))
     <= String.length p)%nat.
Proof.
  induction p as [|c p IH]; intros dst i n trim; simpl; [lia|].
  destruct (Ascii.eqb c NUL); simpl; [lia|].
  destruct (Ascii.eqb c DQUOTE && ends_field (deref p)); simpl; [lia|].
  destruct dst as [d|].
  - destruct (i <? n)%nat.
    + specialize (IH (Some (<[i:=c]> d)) (S i) n trim). lia.
    + destruct (negb trim); simpl; [lia|].
      specialize (IH (Some d) i n trim). lia.
  - specialize (IH None i n trim). lia.
Qed.

Lemma parse_string_length (src : string) dst n trim :
  (String.length (fst (gsmi_parse_string src dst n trim))
   <= String.length src)%nat.
Proof.
  unfold gsmi_parse_string.
  pose proof (length_skip_char "," src) as H1.
  pose proof (length_skip_char DQUOTE (skip_char "," src)) as H2.
  pose proof (parse_string_loop_length (skip_char DQUOTE (skip_char "," src))
                dst 0 (Nat.pred n) trim) as H3.
  destruct (parse_string_loop _ _ _ _ _) as [[p d] i]. simpl in *. lia.
Qed.

(** C8 (as amended): on the input ["hello",rest], with a destination of
    capacity at least 6, [gsmi_parse_string] writes the null-terminated
    string [hello]; with capacity 3 and [trim] set it writes [he]; in both
    cases the source field is consumed up to and including its closing
    quote, so the cursor is left on the comma in front of [rest]. *)
Theorem parse_string_hello (rest : string) (buf : list ascii) (n : nat)
    (trim : bool) :
  (n <= List.length buf)%nat ->
  (6 <= n)%nat \/ (n = 3%nat /\ trim = true) ->
  exists buf',
    gsmi_parse_string (quoted "hello" ++ String "," rest) (Some buf) n trim
      = (String "," rest, Some buf') /\
    List.length buf' = List.length buf /\
    buf_string buf' = (if (6 <=? n)%nat then "hello" else "he")%string.
Proof.
  intros Hlen [Hn | [-> ->]].
  - do 6 (destruct n as [|n]; [lia|]).
    do 6 (destruct buf as [|? buf]; [simpl in Hlen; lia|]).
    eexists. split; [reflexivity|]. split; reflexivity.
  - do 3 (destruct buf as [|? buf]; [simpl in Hlen; lia|]).
    eexists. split; [reflexivity|]. split; reflexivity.
Qed.

Lemma parse_string_hello_witness :
  exists buf',
    gsmi_parse_string (quoted "hello" ++ String "," "rest")
      (Some (replicate 3 NUL)) 3 true = (",rest"%string, Some buf') /\
    List.length buf' = 3%nat /\
    buf_string buf' = "he"%string.
Proof.
  apply (parse_string_hello "rest" (replicate 3 NUL) 3 true).
  - simpl. lia.
  - right. split; reflexivity.
Defined.

(** C8 (as stated) fails: the cursor is not at [rest], the comma after the
    closing quote is still to be read. *)
Lemma parse_string_hello_counterexample :
  fst (gsmi_parse_string (quoted "hello" ++ String "," "rest")
         (Some (replicate 6 NUL)) 6 true) = ",rest"%string /\
  fst (gsmi_parse_string (quoted "hello" ++ String "," "rest")
         (Some (replicate 6 NUL)) 6 true) <> "rest"%string /\
  fst (gsmi_parse_string (quoted "hello" ++ String "," "rest")
         (Some (replicate 3 NUL)) 3 true) <> "rest"%string.
Proof.
  split; [reflexivity|]. split; vm_compute; discriminate.
Qed.

(** ** [gsmi_parse_memory] *)

Section MemoryFacts.

Variable map : list gsm_dev_mem_map_t.
Variable unknown : gsm_mem_t.

(** The table scan returns the first entry, in table order, whose name is
    a prefix of the input, and moves the pointer past that name. *)
Lemma mem_map_scan_first (tbl : list gsm_dev_mem_map_t) (s t : string)
    (i : nat) (e : gsm_dev_mem_map_t) :
  tbl !! i = Some e ->
  s = (entry_name e ++ t)%string ->
  (forall j e', (j < i)%nat -> tbl !! j = Some e' ->
                ~ is_prefix (entry_name e') s) ->
  mem_map_scan tbl s = Some (mem e, t).
Proof.
  revert i. induction tbl as [|e0 tbl IH]; intros i Hi Hs Hfirst.
  - destruct i; discriminate.
  - simpl. destruct i as [|i].
    + simpl in Hi. injection Hi as ->.
      assert (Hp : strncmp_eq s (mem_str e) (strlen (mem_str e)) = true).
      { apply strncmp_eq_prefix. exists t. exact Hs. }
      rewrite Hp. unfold strlen. fold (entry_name e).
      rewrite Hs, advance_app. reflexivity.
    + assert (Hp : strncmp_eq s (mem_str e0) (strlen (mem_str e0)) = false).
      { apply not_true_is_false. intros H. apply strncmp_eq_prefix in H.
        apply (Hfirst 0%nat e0); [lia | reflexivity | exact H]. }
      rewrite Hp. apply (IH i); [exact Hi | exact Hs |].
      intros j e' Hj He'. apply (Hfirst (S j) e'); [lia | exact He'].
Qed.

Lemma mem_map_scan_none (tbl : list gsm_dev_mem_map_t) (s : string) :
  (forall e, e ∈ tbl -> ~ is_prefix (entry_name e) s) ->
  mem_map_scan tbl s = None.
Proof.
  induction tbl as [|e0 tbl IH]; intros Hno; [reflexivity|].
  simpl.
  assert (Hp : strncmp_eq s (mem_str e0) (strlen (mem_str e0)) = false).
  { apply not_true_is_false. intros H. apply strncmp_eq_prefix in H.
    apply (Hno e0); [left | exact H]. }
  rewrite Hp. apply IH. intros e He. apply Hno. right. exact He.
Qed.

Lemma parse_memory_match (src t : string) (i : nat) (e : gsm_dev_mem_map_t) :
  let body := skip_char DQUOTE (skip_char "," src) in
  map !! i = Some e ->
  body = (entry_name e ++ t)%string ->
  (forall j e', (j < i)%nat -> map !! j = Some e' ->
                ~ is_prefix (entry_name e') body) ->
  mem e <> unknown ->
  gsmi_parse_memory map unknown src = (mem e, skip_char DQUOTE t).
Proof.
  intros body Hi Hb Hfirst Hne.
  unfold gsmi_parse_memory. fold body.
  rewrite (mem_map_scan_first map body t i e Hi Hb Hfirst).
  apply Z.eqb_neq in Hne. rewrite Hne. reflexivity.
Qed.

Lemma parse_memory_no_match (src : string) :
  let body := skip_char DQUOTE (skip_char "," src) in
  (forall e, e ∈ map -> ~ is_prefix (entry_name e) body) ->
  gsmi_parse_memory map unknown src =
    (unknown, skip_char DQUOTE (fst (gsmi_parse_string body None 0 true))).
Proof.
  intros body Hno. unfold gsmi_parse_memory. fold body.
  rewrite (mem_map_scan_none map body Hno).
  rewrite Z.eqb_refl. reflexivity.
Qed.


End MemoryFacts.



(** ** [gsmi_parse_memories_string] *)

Section MemoriesFacts.

Variable map : list gsm_dev_mem_map_t.
Variable unknown : gsm_mem_t.

(** A quoted table name, with or without a comma in front, is read as its
    entry, and the cursor is left behind the closing quote. *)
Lemma parse_memory_quoted_name (e : gsm_dev_mem_map_t) (tail : string) :
  first_named map e -> mem e <> unknown ->
  gsmi_parse_memory map unknown (quoted (entry_name e) ++ tail)
    = (mem e, tail) /\
  gsmi_parse_memory map unknown (String "," (quoted (entry_name e) ++ tail))
    = (mem e, tail).
Proof.
  intros [i [Hi Hfirst]] Hne.
  assert (Hq : (quoted (entry_name e) ++ tail)%string =
               String DQUOTE (entry_name e ++ String DQUOTE tail)).
  { unfold quoted. simpl. f_equal. rewrite string_app_assoc.
    reflexivity. }
  assert (Hb1 : skip_char DQUOTE (skip_char "," (quoted (entry_name e) ++ tail))
                = (entry_name e ++ String DQUOTE tail)%string).
  { rewrite Hq. rewrite skip_char_ne by reflexivity. apply skip_char_eq. }
  assert (Hb2 : skip_char DQUOTE
                  (skip_char "," (String "," (quoted (entry_name e) ++ tail)))
                = (entry_name e ++ String DQUOTE tail)%string).
  { rewrite skip_char_eq, Hq. apply skip_char_eq. }
  split.
  - rewrite (parse_memory_match map unknown _ (String DQUOTE tail) i e Hi);
      [rewrite skip_char_eq; reflexivity | exact Hb1 | | exact Hne].
    rewrite Hb1. intros j e' Hj. apply Hfirst. exact Hj.
  - rewrite (parse_memory_match map unknown _ (String DQUOTE tail) i e Hi);
      [rewrite skip_char_eq; reflexivity | exact Hb2 | | exact Hne].
    rewrite Hb2. intros j e' Hj. apply Hfirst. exact Hj.
Qed.

Lemma more_names_length (ns : list string) (tail : string) :
  (List.length ns <= String.length (more_names ns ++ tail))%nat.
Proof.
  induction ns as [|n ns IH]; simpl; [lia|].
  rewrite string_app_assoc, string_app_length. lia.
Qed.

(** The loop over a well-formed list: one iteration per name, the bits of
    the selectors accumulated in order, and the cursor left on what
    follows the last name. *)
Lemma memories_loop_names (es : list gsm_dev_mem_map_t) :
  forall (e : gsm_dev_mem_map_t) (comma : bool) (fuel : nat) (acc : Z)
         (closing : string),
    (List.length es < fuel)%nat ->
    (forall x, x ∈ e :: es -> first_named map x /\ mem x <> unknown) ->
    deref closing = NUL \/ deref closing = ")"%char ->
    memories_loop map unknown fuel
      ((if comma then String "," (quoted (entry_name e))
        else quoted (entry_name e))
       ++ more_names (entry_name <$> es) ++ closing) acc
    = Some (closing,
            fold_left (fun a m => Z.lor a (mem_bit m)) (mem <$> e :: es) acc).
Proof.
  induction es as [|e2 es IH]; intros e comma fuel acc closing Hf Hall Hc.
  - destruct fuel as [|fuel]; [simpl in Hf; lia|].
    destruct (Hall e) as [Hfn Hne]; [left|].
    destruct (parse_memory_quoted_name e closing Hfn Hne) as [P1 P2].
    cbn [memories_loop fmap list_fmap more_names fold_right].
    change (EmptyString ++ closing)%string with closing.
    assert (Hp : gsmi_parse_memory map unknown
                   ((if comma then String "," (quoted (entry_name e))
                     else quoted (entry_name e)) ++ closing) = (mem e, closing)).
    { destruct comma; [exact P2 | exact P1]. }
    rewrite Hp.
    assert (Hexit : negb (Ascii.eqb (deref closing) NUL)
                    && negb (Ascii.eqb (deref closing) ")") = false).
    { destruct Hc as [-> | ->]; reflexivity. }
    rewrite Hexit. reflexivity.
  - destruct fuel as [|fuel]; [simpl in Hf; lia|].
    destruct (Hall e) as [Hfn Hne]; [left|].
    set (tail := (String "," (quoted (entry_name e2))
                  ++ more_names (entry_name <$> es) ++ closing)%string).
    destruct (parse_memory_quoted_name e tail Hfn Hne) as [P1 P2].
    assert (Ht : (more_names (entry_name <$> e2 :: es) ++ closing)%string
                 = tail).
    { unfold tail. cbn [fmap list_fmap more_names fold_right].
      rewrite string_app_assoc. reflexivity. }
    cbn [memories_loop]. rewrite Ht.
    assert (Hp : gsmi_parse_memory map unknown
                   ((if comma then String "," (quoted (entry_name e))
                     else quoted (entry_name e)) ++ tail) = (mem e, tail)).
    { destruct comma; [exact P2 | exact P1]. }
    rewrite Hp.
    assert (Hcont : negb (Ascii.eqb (deref tail) NUL)
                    && negb (Ascii.eqb (deref tail) ")") = true)
      by reflexivity.
    rewrite Hcont. unfold tail.
    rewrite (IH e2 true fuel (Z.lor acc (mem_bit (mem e))) closing).
    + reflexivity.
    + simpl in Hf. lia.
    + intros x Hx. apply Hall. right. exact Hx.
    + exact Hc.
Qed.

Lemma parse_memories_string_names (e : gsm_dev_mem_map_t)
    (es : list gsm_dev_mem_map_t) (closing : string) :
  (forall x, x ∈ e :: es -> first_named map x /\ mem x <> unknown) ->
  deref closing = NUL \/ deref closing = ")"%char ->
  gsmi_parse_memories_string map unknown
    (String "(" (memory_list_text (entry_name <$> e :: es) ++ closing))
  = Some (skip_char ")" closing, memory_mask (mem <$> e :: es)).
Proof.
  intros Hall Hc. unfold gsmi_parse_memories_string.
  rewrite skip_char_ne by reflexivity. rewrite skip_char_eq.
  change (memory_list_text (entry_name <$> e :: es))
    with (quoted (entry_name e) ++ more_names (entry_name <$> es))%string.
  rewrite string_app_assoc.
  rewrite (memories_loop_names es e false _ 0 closing); auto.
  pose proof (more_names_length (entry_name <$> es) closing) as Hl.
  rewrite length_fmap in Hl. rewrite string_app_length. lia.
Qed.

(** For a selector in 0..31 the bit stored is the plain shift: neither
    conversion to 32 bits changes anything. *)
Lemma mem_bit_shift (m : gsm_mem_t) :
  0 <= m < 32 -> mem_bit m = Z.shiftl 1 m.
Proof.
  intros Hm. unfold mem_bit, GSM_U32, wrap_u32.
  rewrite (Z.mod_small m) by lia.
  rewrite Z.shiftl_1_l. apply Z.mod_small.
  split; [apply Z.pow_nonneg; lia | apply Z.pow_lt_mono_r; lia].
Qed.

Lemma memory_mask_shifts (ms : list gsm_mem_t) :
  Forall (fun m => 0 <= m < 32) ms ->
  memory_mask ms = fold_left (fun acc m => Z.lor acc (Z.shiftl 1 m)) ms 0.
Proof.
  intros Hms. unfold memory_mask.
  assert (H : forall acc,
            fold_left (fun a m => Z.lor a (mem_bit m)) ms acc
            = fold_left (fun a m => Z.lor a (Z.shiftl 1 m)) ms acc).
  { induction Hms as [|m ms Hm Hms IH]; intros acc; [reflexivity|].
    cbn [fold_left]. rewrite mem_bit_shift by exact Hm. apply IH. }
  apply H.
Qed.

(** C6: [gsmi_parse_memories_string] reads a bracketed, comma-separated
    list of quoted memory names by calling [gsmi_parse_memory] once per
    name and OR-ing [1 << selector] into the bitmask, until it stands on
    the closing bracket or on the end of the input; the bracket is skipped.
    The selectors are in 0..31, where the shift of the C code is defined.
    In particular, with SM = 0 and ME = 1 the first two entries of the
    table, the input [("SM","ME")rest] gives the bitmask [0b11] and the
    cursor at [rest]. *)
Theorem parse_memories_string_list :
  (forall e es closing,
     (forall x, x ∈ e :: es ->
        first_named map x /\ mem x <> unknown /\ 0 <= mem x < 32) ->
     deref closing = NUL \/ deref closing = ")"%char ->
     gsmi_parse_memories_string map unknown
       (String "(" (memory_list_text (entry_name <$> e :: es) ++ closing))
     = Some (skip_char ")" closing,
             fold_left (fun acc m => Z.lor acc (Z.shiftl 1 m))
                       (mem <$> e :: es) 0)) /\
  (forall rest,
     map !! 0%nat = Some {| mem_str := "SM"; mem := 0 |} ->
     map !! 1%nat = Some {| mem_str := "ME"; mem := 1 |} ->
     unknown <> 0 -> unknown <> 1 ->
     gsmi_parse_memories_string map unknown
       (String "(" (quoted "SM" ++ String "," (quoted "ME")
                    ++ String ")" rest))
     = Some (rest, 3)).
Proof.
  split.
  - intros e es closing Hall Hc.
    rewrite <- memory_mask_shifts.
    + apply parse_memories_string_names; [|exact Hc].
      intros x Hx. destruct (Hall x Hx) as (Hf & Hu & _). split; assumption.
    + apply Forall_fmap, Forall_forall. intros x Hx.
      destruct (Hall x Hx) as (_ & _ & Hr). exact Hr.
  - intros rest H0 H1 Hn0 Hn1.
    apply (parse_memories_string_names
             {| mem_str := "SM"; mem := 0 |} [ {| mem_str := "ME"; mem := 1 |} ]
             (String ")" rest)).
    + intros x Hx. apply list_elem_of_In in Hx.
      destruct Hx as [<- | [<- | []]].
      * split; [|cbn [mem]; auto]. exists 0%nat. split; [exact H0|].
        intros j e' tail Hj. lia.
      * split; [|cbn [mem]; auto]. exists 1%nat. split; [exact H1|].
        intros j e' tail Hj He'. destruct j as [|j]; [|lia].
        rewrite H0 in He'. injection He' as <-. intros [t Ht]. discriminate Ht.
    + right. reflexivity.
Qed.

End MemoriesFacts.

Lemma parse_memories_string_list_witness :
  gsmi_parse_memories_string
    [ {| mem_str := "SM"; mem := 0 |}; {| mem_str := "ME"; mem := 1 |} ] 31
    (String "(" (quoted "SM" ++ String "," (quoted "ME")
                 ++ String ")" "rest"))
  = Some ("rest"%string, 3) /\
  gsmi_parse_memories_string
    [ {| mem_str := "SM"; mem := 0 |}; {| mem_str := "ME"; mem := 1 |} ] 31
    (String "(" (quoted "ME" ++ String "," (quoted "SM")))
  = Some (EmptyString, 3).
Proof.
  split.
  - refine (proj2 (parse_memories_string_list
              [ {| mem_str := "SM"; mem := 0 |}; {| mem_str := "ME"; mem := 1 |} ]
              31) "rest"%string eq_refl eq_refl _ _); discriminate.
  - refine (proj1 (parse_memories_string_list
              [ {| mem_str := "SM"; mem := 0 |}; {| mem_str := "ME"; mem := 1 |} ]
              31) {| mem_str := "ME"; mem := 1 |}
              [ {| mem_str := "SM"; mem := 0 |} ] EmptyString _ _).
    + intros x Hx. apply list_elem_of_In in Hx.
      destruct Hx as [<- | [<- | []]].
      * split; [|split; [discriminate | simpl; lia]].
        exists 1%nat. split; [reflexivity|].
        intros j e' tail Hj He'. destruct j as [|j]; [|lia].
        injection He' as <-. intros [t Ht]. discriminate Ht.
      * split; [|split; [discriminate | simpl; lia]].
        exists 0%nat. split; [reflexivity|].
        intros j e' tail Hj. lia.
    + left. reflexivity.
Defined.

(** *** Termination of the list loop, and the empty list *)

Section MemoriesTermination.

Variable map : list gsm_dev_mem_map_t.
Variable unknown : gsm_mem_t.

Hypothesis names_nonempty :
  forall e, e ∈ map -> entry_name e <> EmptyString.

Lemma deref_nul_length (s : string) :
  deref s <> NUL -> (0 < String.length s)%nat.
Proof. destruct s; simpl; [congruence | lia]. Qed.

(** A successful table scan consumes at least one character. *)
Lemma mem_map_scan_progress (tbl : list gsm_dev_mem_map_t) (s s' : string)
    (m : gsm_mem_t) :
  (forall e, e ∈ tbl -> entry_name e <> EmptyString) ->
  mem_map_scan tbl s = Some (m, s') ->
  (String.length s' < String.length s)%nat.
Proof.
  induction tbl as [|e tbl IH]; intros Hne; simpl; [discriminate|].
  destruct (strncmp_eq s (mem_str e) (strlen (mem_str e))) eqn:E.
  - intros H. injection H as _ <-.
    apply strncmp_eq_prefix in E as [t Ht].
    assert (He : entry_name e <> EmptyString) by (apply Hne; left).
    unfold strlen, entry_name in *. rewrite Ht at 1.
    rewrite advance_app. rewrite Ht, string_app_length.
    destruct (c_chars (mem_str e)); [congruence | simpl; lia].
  - apply IH. intros x Hx. apply Hne. right. exact Hx.
Qed.

(** Skipping a string token that starts on a character other than NUL
    consumes at least one character. *)
Lemma parse_string_skip_progress (s : string) :
  deref s <> NUL ->
  (String.length (fst (gsmi_parse_string s None 0 true)) < String.length s)%nat.
Proof.
  intros Hs. destruct s as [|c s]; [simpl in Hs; congruence|].
  simpl in Hs. apply ascii_eqb_neq in Hs.
  unfold gsmi_parse_string.
  destruct (Ascii.eqb c ",") eqn:Ec.
  { apply ascii_eqb_eq in Ec. subst c. rewrite skip_char_eq.
    pose proof (length_skip_char DQUOTE s) as H1.
    pose proof (parse_string_loop_length (skip_char DQUOTE s) None 0
                  (Nat.pred 0) true) as H2.
    destruct (parse_string_loop _ _ _ _ _) as [[p d] i]. simpl in *. lia. }
  rewrite (skip_char_ne c "," s Ec).
  destruct (Ascii.eqb c DQUOTE) eqn:Eq.
  { apply ascii_eqb_eq in Eq. subst c. rewrite skip_char_eq.
    pose proof (parse_string_loop_length s None 0 (Nat.pred 0) true) as H2.
    destruct (parse_string_loop _ _ _ _ _) as [[p d] i]. simpl in *. lia. }
  rewrite (skip_char_ne c DQUOTE s Eq).
  cbn [parse_string_loop]. rewrite Hs, Eq. cbn [andb].
  pose proof (parse_string_loop_length s None 0 (Nat.pred 0) true) as H2.
  destruct (parse_string_loop _ _ _ _ _) as [[p d] i]. simpl in *. lia.
Qed.

(** One call of [gsmi_parse_memory] either consumes a character or was
    made at the end of the input. *)
Lemma parse_memory_progress (s : string) :
  deref s <> NUL ->
  (String.length (snd (gsmi_parse_memory map unknown s)) < String.length s)%nat.
Proof.
  intros Hs. unfold gsmi_parse_memory.
  set (body := skip_char DQUOTE (skip_char "," s)).
  assert (Hb : (String.length body <= String.length s)%nat).
  { unfold body. pose proof (length_skip_char "," s).
    pose proof (length_skip_char DQUOTE (skip_char "," s)). lia. }
  assert (Hskip : forall x,
            (String.length (fst (gsmi_parse_string x None 0 true))
             <= String.length x)%nat)
    by (intros x; apply parse_string_length).
  destruct (mem_map_scan map body) as [[m s']|] eqn:E.
  - pose proof (mem_map_scan_progress map body s' m names_nonempty E) as Hp.
    destruct (m =? unknown); cbn [snd].
    + pose proof (Hskip s').
      pose proof (length_skip_char DQUOTE
                    (fst (gsmi_parse_string s' None 0 true))). lia.
    + pose proof (length_skip_char DQUOTE s'). lia.
  - rewrite Z.eqb_refl. cbn [snd].
    pose proof (length_skip_char DQUOTE
                  (fst (gsmi_parse_string body None 0 true))) as H1.
    destruct (skip_char_cases "," s) as [E1|L1];
      destruct (skip_char_cases DQUOTE (skip_char "," s)) as [E2|L2].
    + assert (Hbs : body = s) by (unfold body; congruence).
      rewrite Hbs in *. pose proof (parse_string_skip_progress s Hs). lia.
    + pose proof (Hskip body). pose proof (length_skip_char "," s).
      unfold body in *. lia.
    + pose proof (Hskip body). unfold body in *. rewrite E2 in *. lia.
    + pose proof (Hskip body). unfold body in *. lia.
Qed.

(** A call made at the end of the input leaves the cursor there. *)
Lemma parse_memory_at_end (s : string) :
  deref s = NUL -> snd (gsmi_parse_memory map unknown s) = s.
Proof.
  intros Hs.
  assert (Hk : forall c, Ascii.eqb NUL c = false -> skip_char c s = s).
  { intros c Hc. unfold skip_char. rewrite Hs, Hc. reflexivity. }
  unfold gsmi_parse_memory.
  rewrite (Hk ","%char eq_refl), (Hk DQUOTE eq_refl).
  rewrite mem_map_scan_none.
  - rewrite Z.eqb_refl. cbn [snd]. unfold gsmi_parse_string.
    rewrite (Hk ","%char eq_refl), (Hk DQUOTE eq_refl).
    assert (Hl : parse_string_loop s None 0 (Nat.pred 0) true = (s, None, 0%nat)).
    { destruct s as [|c s]; [reflexivity|]. simpl in Hs. subst c. reflexivity. }
    rewrite Hl. cbn [fst]. apply (Hk DQUOTE eq_refl).
  - intros e He [t Ht]. apply (names_nonempty e He).
    pose proof (c_chars_nul_free (mem_str e)) as Hn.
    unfold entry_name in *.
    destruct (c_chars (mem_str e)) as [|c n]; [reflexivity|].
    simpl in Hn. apply andb_true_iff in Hn as [Hc _].
    apply negb_true_iff, ascii_eqb_neq in Hc.
    rewrite Ht in Hs. simpl in Hs. contradiction.
Qed.

(** With no empty name in the table the loop ends within one more
    iteration than the input has characters. *)
Lemma memories_loop_terminates (fuel : nat) :
  forall (str : string) (acc : Z),
    (String.length str < fuel)%nat ->
    exists r, memories_loop map unknown fuel str acc = Some r.
Proof.
  induction fuel as [|fuel IH]; intros str acc Hf; [lia|].
  cbn [memories_loop].
  destruct (gsmi_parse_memory map unknown str) as [m str'] eqn:E.
  destruct (negb (Ascii.eqb (deref str') NUL)
            && negb (Ascii.eqb (deref str') ")")) eqn:Ec; [|eauto].
  apply IH.
  apply andb_true_iff in Ec as [Ec _]. apply negb_true_iff in Ec.
  apply ascii_eqb_neq in Ec.
  pose proof (deref_nul_length str' Ec) as Hpos.
  destruct (Ascii.eqb (deref str) NUL) eqn:En.
  - apply ascii_eqb_eq in En.
    pose proof (parse_memory_at_end str En) as He.
    rewrite E in He. cbn [snd] in He. congruence.
  - apply ascii_eqb_neq in En.
    pose proof (parse_memory_progress str En) as Hp.
    rewrite E in Hp. cbn [snd] in Hp. lia.
Qed.

Theorem memories_string_terminates (src : string) :
  exists r, gsmi_parse_memories_string map unknown src = Some r.
Proof.
  unfold gsmi_parse_memories_string.
  destruct (memories_loop_terminates
              (S (String.length (skip_char "(" (skip_char "," src))))
              (skip_char "(" (skip_char "," src)) 0) as [[str m] Hr]; [lia|].
  rewrite Hr. eauto.
Qed.

(** The loop only adds bits to the mask. *)
Lemma memories_loop_mono (fuel : nat) :
  forall (str cur : string) (acc mask : Z) (n : Z),
    memories_loop map unknown fuel str acc = Some (cur, mask) ->
    Z.testbit acc n = true -> Z.testbit mask n = true.
Proof.
  induction fuel as [|fuel IH]; intros str cur acc mask n; [discriminate|].
  cbn [memories_loop].
  destruct (gsmi_parse_memory map unknown str) as [m str'].
  destruct (negb (Ascii.eqb (deref str') NUL)
            && negb (Ascii.eqb (deref str') ")")).
  - intros Hl Hb. apply (IH _ _ _ _ n Hl).
    rewrite Z.lor_spec, Hb. reflexivity.
  - intros H Hb. injection H as _ <-.
    rewrite Z.lor_spec, Hb. reflexivity.
Qed.

Lemma mem_bit_small (m : gsm_mem_t) : 0 <= m < 32 -> mem_bit m = 2 ^ m.
Proof.
  intros Hm. unfold mem_bit, GSM_U32, wrap_u32.
  rewrite (Z.mod_small m) by lia.
  rewrite Z.shiftl_1_l. apply Z.mod_small.
  split; [apply Z.pow_nonneg; lia | apply Z.pow_lt_mono_r; lia].
Qed.

(** Without a quote that ends a field, the string skip runs to the end of
    the input. *)
Lemma parse_string_loop_to_end (p : string) :
  nul_free p = true -> has_field_end p = false ->
  parse_string_loop p None 0 0 true = (EmptyString, None, 0%nat).
Proof.
  induction p as [|c p IH]; [reflexivity|].
  cbn [nul_free has_field_end parse_string_loop].
  intros Hn Hf.
  apply andb_true_iff in Hn as [Hc Hn]. apply negb_true_iff in Hc.
  apply orb_false_iff in Hf as [Hq Hf].
  rewrite Hc, Hq. apply IH; assumption.
Qed.

(** A quote followed by a comma, CR or LF stops the string skip just
    behind that quote. *)
Lemma parse_string_loop_to_quote (a : string) (c : ascii) (b : string) :
  nul_free a = true -> quote_free a = true -> ends_field c = true ->
  parse_string_loop (a ++ String DQUOTE (String c b)) None 0 0 true
  = (String c b, None, 0%nat).
Proof.
  intros Hn Hq Hc. induction a as [|x a IH].
  - cbn [append parse_string_loop deref].
    change (Ascii.eqb DQUOTE NUL) with false.
    change (Ascii.eqb DQUOTE DQUOTE) with true.
    rewrite Hc. reflexivity.
  - cbn [nul_free quote_free] in Hn, Hq.
    apply andb_true_iff in Hn as [Hx Hn]. apply negb_true_iff in Hx.
    apply andb_true_iff in Hq as [Hd Hq]. apply negb_true_iff in Hd.
    cbn [append parse_string_loop]. rewrite Hx, Hd. cbn [andb].
    apply IH; assumption.
Qed.

Lemma ends_field_not_quote (c : ascii) :
  ends_field c = true -> Ascii.eqb c DQUOTE = false.
Proof.
  unfold ends_field. intros H.
  apply orb_true_iff in H as [H | H];
    [apply orb_true_iff in H as [H | H]|];
    apply ascii_eqb_eq in H; subst c; reflexivity.
Qed.

(** C9: on the empty list [()rest] the result is never the bitmask 0 with
    the cursor just behind the bracket.  The loop body runs once before
    its test; [gsmi_parse_memory], standing on the closing bracket, finds
    no table entry, returns the unknown selector, whose bit is OR-ed into
    the mask, and skips a string token, which takes the bracket with it
    and, when no quote followed by a comma, CR or LF stops it, all of the
    remaining input. *)
Theorem parse_memories_string_empty_list (rest : string) :
  (forall e, e ∈ map -> ~ is_prefix (entry_name e) (String ")" rest)) ->
  0 <= unknown < 32 ->
  fst (gsmi_parse_memory map unknown (String ")" rest)) = unknown /\
  (exists cur mask,
     gsmi_parse_memories_string map unknown (String "(" (String ")" rest))
       = Some (cur, mask) /\
     Z.testbit mask unknown = true /\
     (cur, mask) <> (rest, 0)) /\
  (nul_free rest = true -> has_field_end rest = false ->
   gsmi_parse_memories_string map unknown (String "(" (String ")" rest))
     = Some (EmptyString, 2 ^ unknown)) /\
  (forall a c b,
     rest = (a ++ String DQUOTE (String c b))%string ->
     nul_free a = true -> quote_free a = true -> ends_field c = true ->
     gsmi_parse_memory map unknown (String ")" rest) = (unknown, String c b)).
Proof.
  intros Hno Hu.
  assert (Hpm : gsmi_parse_memory map unknown (String ")" rest) =
                (unknown,
                 skip_char DQUOTE
                   (fst (gsmi_parse_string (String ")" rest) None 0 true)))).
  { apply (parse_memory_no_match map unknown (String ")" rest)). exact Hno. }
  assert (Hbit : Z.testbit (Z.lor 0 (mem_bit unknown)) unknown = true).
  { rewrite Z.lor_0_l, mem_bit_small by lia. apply Z.pow2_bits_true. lia. }
  split; [rewrite Hpm; reflexivity|]. split.
  - destruct (memories_string_terminates (String "(" (String ")" rest)))
      as [[cur mask] Hr].
    exists cur, mask. split; [exact Hr|].
    assert (Hm : Z.testbit mask unknown = true).
    { unfold gsmi_parse_memories_string in Hr.
      rewrite skip_char_ne, skip_char_eq in Hr by reflexivity.
      cbn [memories_loop] in Hr. rewrite Hpm in Hr.
      destruct (negb _ && negb _) in Hr.
      - destruct (memories_loop _ _ _ _ _) as [[c1 m1]|] eqn:El in Hr;
          [|discriminate].
        injection Hr as _ <-.
        apply (memories_loop_mono _ _ _ _ _ unknown El Hbit).
      - injection Hr as _ <-. exact Hbit. }
    split; [exact Hm|].
    intros H. injection H as _ ->. rewrite Z.bits_0 in Hm. discriminate.
  - split.
    2:{ intros a c b -> Ha Hq Hc. rewrite Hpm. f_equal.
        unfold gsmi_parse_string. rewrite !skip_char_ne by reflexivity.
        cbn [Nat.pred].
        change (String ")" (a ++ String DQUOTE (String c b)))
          with (String ")" a ++ String DQUOTE (String c b))%string.
        rewrite parse_string_loop_to_quote; auto.
        cbn [fst]. apply skip_char_ne. apply ends_field_not_quote. exact Hc. }
    intros Hn Hf. unfold gsmi_parse_memories_string.
    rewrite skip_char_ne, skip_char_eq by reflexivity.
    cbn [memories_loop]. rewrite Hpm.
    assert (Hs : fst (gsmi_parse_string (String ")" rest) None 0 true)
                 = EmptyString).
    { unfold gsmi_parse_string. rewrite !skip_char_ne by reflexivity.
      cbn [Nat.pred]. rewrite parse_string_loop_to_end; auto. }
    rewrite Hs. cbn. rewrite mem_bit_small by lia. reflexivity.
Qed.

End MemoriesTermination.

Lemma parse_memories_string_empty_list_witness :
  gsmi_parse_memories_string
    [ {| mem_str := "SM"; mem := 0 |}; {| mem_str := "ME"; mem := 1 |} ] 31
    "()rest" = Some (EmptyString, 2 ^ 31) /\
  gsmi_parse_memory
    [ {| mem_str := "SM"; mem := 0 |}; {| mem_str := "ME"; mem := 1 |} ] 31
    (String ")" (String DQUOTE (String "," (quoted "SM"))))
  = (31, String "," (quoted "SM")).
Proof.
  assert (Hne : forall e,
            e ∈ [ {| mem_str := "SM"; mem := 0 |}; {| mem_str := "ME"; mem := 1 |} ] ->
            entry_name e <> EmptyString).
  { intros e He. apply list_elem_of_In in He.
    destruct He as [<- | [<- | []]]; discriminate. }
  assert (Hno : forall rest e,
            e ∈ [ {| mem_str := "SM"; mem := 0 |}; {| mem_str := "ME"; mem := 1 |} ] ->
            ~ is_prefix (entry_name e) (String ")" rest)).
  { intros rest e He [t Ht]. apply list_elem_of_In in He.
    destruct He as [<- | [<- | []]]; discriminate Ht. }
  split.
  - refine (proj1 (proj2 (proj2 (parse_memories_string_empty_list
              _ 31 Hne "rest"%string (Hno _) _))) eq_refl eq_refl). lia.
  - refine (proj2 (proj2 (proj2 (parse_memories_string_empty_list
              _ 31 Hne _ (Hno _) _))) EmptyString ","%char (quoted "SM")
              eq_refl eq_refl eq_refl eq_refl). lia.
Defined.

(** ** [gsmi_parse_sms_status] *)

Lemma first_chars_nul_free (n : nat) (s : string) :
  nul_free s = true -> nul_free (first_chars n s) = true.
Proof.
  revert s. induction n as [|n IH]; intros [|c s]; simpl; auto.
  intros H. apply andb_true_iff in H as [Hc Hs].
  rewrite Hc. simpl. auto.
Qed.

(** The copy loop on a quoted token without inner quote: the first
    characters of the token go to the array as far as the capacity
    reaches, the rest of the token is read without being copied, and the
    cursor ends behind the closing quote.  [pre] is the part of the array
    already written, [suf] the part still to be written. *)
Lemma parse_string_loop_copy (w : string) :
  forall (pre suf : list ascii) (n : nat) (rest : string),
    nul_free w = true -> quote_free w = true ->
    (List.length pre <= n < List.length pre + List.length suf)%nat ->
    let l := list_ascii_of_string (first_chars (n - List.length pre) w) in
    parse_string_loop (w ++ String DQUOTE (String "," rest))
      (Some (pre ++ suf)) (List.length pre) n true
    = (String "," rest, Some (pre ++ l ++ drop (List.length l) suf),
       (List.length pre + List.length l)%nat).
Proof.
  induction w as [|c w IH]; intros pre suf n rest Hn Hq Hlen l.
  - subst l. destruct (n - List.length pre)%nat; simpl;
      rewrite Nat.add_0_r; reflexivity.
  - cbn [nul_free quote_free] in Hn, Hq.
    apply andb_true_iff in Hn as [Hc Hn]. apply negb_true_iff in Hc.
    apply andb_true_iff in Hq as [Hd Hq]. apply negb_true_iff in Hd.
    cbn [append parse_string_loop]. rewrite Hc, Hd. cbn [andb].
    destruct (List.length pre <? n)%nat eqn:El.
    + apply Nat.ltb_lt in El.
      destruct suf as [|x suf]; [simpl in Hlen; lia|].
      assert (Hins : <[List.length pre:=c]> (pre ++ x :: suf)
                     = (pre ++ [c]) ++ suf).
      { rewrite insert_app_r_alt by lia. rewrite Nat.sub_diag. simpl.
        rewrite <- app_assoc. reflexivity. }
      rewrite Hins.
      replace (S (List.length pre)) with (List.length (pre ++ [c]))
        by (rewrite length_app; simpl; lia).
      rewrite IH; [|assumption|assumption|rewrite length_app; simpl in *; lia].
      subst l. rewrite length_app. cbn [List.length].
      replace (n - List.length pre)%nat
        with (S (n - (List.length pre + 1)))%nat by lia.
      cbn [first_chars list_ascii_of_string List.length drop].
      rewrite <- !app_assoc. simpl. f_equal. lia.
    + apply Nat.ltb_ge in El. cbn [negb].
      rewrite IH by (assumption || lia).
      subst l. replace (n - List.length pre)%nat with 0%nat by lia.
      reflexivity.
Qed.

Lemma c_chars_of_list (l suf : list ascii) :
  nul_free (string_of_list_ascii l) = true ->
  c_chars (string_of_list_ascii (l ++ NUL :: suf)) = string_of_list_ascii l.
Proof.
  induction l as [|c l IH]; simpl; [reflexivity|].
  intros H. apply andb_true_iff in H as [Hc Hl]. apply negb_true_iff in Hc.
  rewrite Hc, IH; auto.
Qed.

(** The token [gsmi_parse_sms_status] compares: the first 10 characters of
    the quoted token, whatever the local array held before. *)
Lemma sms_status_token (t0 : list ascii) (w rest : string) :
  List.length t0 = 11%nat ->
  nul_free w = true -> quote_free w = true ->
  gsmi_parse_string (quoted w ++ String "," rest) (Some t0) 11 true
  = (String "," rest,
     Some (list_ascii_of_string (first_chars 10 w) ++
           NUL :: drop (S (String.length (first_chars 10 w))) t0)).
Proof.
  intros Ht Hn Hq. unfold gsmi_parse_string, quoted.
  cbn [append]. rewrite skip_char_ne by reflexivity. rewrite skip_char_eq.
  rewrite string_app_assoc. cbn [append Nat.pred].
  pose proof (parse_string_loop_copy w [] t0 10 rest Hn Hq) as Hl.
  cbn [List.length app Nat.sub Nat.add] in Hl.
  rewrite Hl by lia. cbn [option_map]. f_equal. f_equal.
  set (l := list_ascii_of_string (first_chars 10 w)).
  assert (Hll : (List.length l <= 10)%nat).
  { subst l. clear. generalize 10%nat as n. intros n. revert w.
    induction n as [|n IH]; intros [|c w]; simpl; try lia.
    specialize (IH w). lia. }
  assert (Hls : String.length (first_chars 10 w) = List.length l).
  { subst l. clear. generalize 10%nat as n. intros n. revert w.
    induction n as [|n IH]; intros [|c w]; simpl; auto. }
  rewrite Hls.
  rewrite insert_app_r_alt by lia. rewrite Nat.sub_diag.
  f_equal.
  destruct (drop (List.length l) t0) as [|x d] eqn:Ed.
  - apply (f_equal List.length) in Ed. rewrite length_drop in Ed.
    simpl in Ed. lia.
  - simpl. f_equal.
    change (S (List.length l)) with (1 + List.length l)%nat.
    rewrite Nat.add_comm, <- drop_drop, Ed. reflexivity.
Qed.

(** The [strcmp] chain is the mapping of the four literals. *)
Lemma sms_status_match_literal (t : string) :
  sms_status_match t =
    match sms_status_of_literal (c_chars t) with
    | Some s => s
    | None => GSM_SMS_STATUS_ALL
    end.
Proof.
  unfold sms_status_match, sms_status_of_literal.
  repeat match goal with
  | |- context [strcmp_eq t ?lit] =>
      let E := fresh "E" in
      destruct (strcmp_eq t lit) eqn:E;
      [ apply strcmp_eq_spec in E; [|reflexivity]; rewrite E; reflexivity
      | assert (String.eqb (c_chars t) lit = false) as ->
          by (apply String.eqb_neq; intros H;
              apply (strcmp_eq_spec t lit eq_refl) in H; congruence) ]
  end.
  reflexivity.
Qed.

Lemma first_chars_all (n : nat) (w : string) :
  (String.length w <= n)%nat -> first_chars n w = w.
Proof.
  revert w. induction n as [|n IH]; intros [|c w]; simpl; auto; try lia.
  intros H. rewrite IH by lia. reflexivity.
Qed.

Lemma sms_status_first_chars (t0 : list ascii) (w rest : string)
    (stat : gsm_sms_status_t) :
  List.length t0 = 11%nat ->
  nul_free w = true -> quote_free w = true ->
  gsmi_parse_sms_status t0 (quoted w ++ String "," rest) stat =
    match sms_status_of_literal (first_chars 10 w) with
    | Some s => (1, String "," rest, s)
    | None => (0, String "," rest, stat)
    end.
Proof.
  intros Ht Hn Hq.
  unfold gsmi_parse_sms_status, sms_status_buffer.
  rewrite (sms_status_token t0 w rest Ht Hn Hq). cbn [fst snd default id].
  rewrite sms_status_match_literal.
  rewrite c_chars_of_list
    by (rewrite string_of_list_ascii_of_string;
        apply first_chars_nul_free; exact Hn).
  rewrite string_of_list_ascii_of_string.
  unfold sms_status_of_literal.
  repeat match goal with
  | |- context [String.eqb ?a ?b] => destruct (String.eqb a b)
  end; reflexivity.
Qed.

(** C7 (as amended): [gsmi_parse_sms_status] compares the first 10
    characters of the quoted token, which is all its 11-byte array holds,
    with the four literals [REC UNREAD], [REC READ], [STO UNSENT] and
    [REC SENT], and maps them to UNREAD, READ, UNSENT and SENT with a
    success result; when those characters are none of the four it
    reports failure and leaves the caller's status as it was.  For a token
    of at most 10 characters this is the exact match of the token. *)
Theorem sms_status_exact_on_first_ten (t0 : list ascii) (w rest : string)
    (stat : gsm_sms_status_t) :
  List.length t0 = 11%nat ->
  nul_free w = true -> quote_free w = true ->
  gsmi_parse_sms_status t0 (quoted w ++ String "," rest) stat =
    match sms_status_of_literal (first_chars 10 w) with
    | Some s => (1, String "," rest, s)
    | None => (0, String "," rest, stat)
    end /\
  ((String.length w <= 10)%nat ->
   gsmi_parse_sms_status t0 (quoted w ++ String "," rest) stat =
     match sms_status_of_literal w with
     | Some s => (1, String "," rest, s)
     | None => (0, String "," rest, stat)
     end).
Proof.
  intros Ht Hn Hq. split.
  - apply sms_status_first_chars; assumption.
  - intros Hw. rewrite <- (first_chars_all 10 w Hw) at 2.
    apply sms_status_first_chars; assumption.
Qed.

Lemma sms_status_exact_on_first_ten_witness :
  gsmi_parse_sms_status (replicate 11 NUL)
    (quoted "REC UNREAD" ++ String "," "rest") GSM_SMS_STATUS_READ
  = (1, ",rest"%string, GSM_SMS_STATUS_UNREAD) /\
  gsmi_parse_sms_status (replicate 11 NUL)
    (quoted "GARBAGE" ++ String "," "rest") GSM_SMS_STATUS_READ
  = (0, ",rest"%string, GSM_SMS_STATUS_READ).
Proof.
  split.
  - apply (proj2 (sms_status_exact_on_first_ten (replicate 11 NUL)
             "REC UNREAD" "rest" GSM_SMS_STATUS_READ eq_refl eq_refl eq_refl)).
    simpl. lia.
  - apply (proj2 (sms_status_exact_on_first_ten (replicate 11 NUL)
             "GARBAGE" "rest" GSM_SMS_STATUS_READ eq_refl eq_refl eq_refl)).
    simpl. lia.
Defined.

(** C7 (as stated) fails: a token that is none of the four literals, but
    starts with the 10 characters of one, is accepted. *)
Lemma sms_status_truncation_counterexample :
  sms_status_of_literal "REC UNREADxyz" = None /\
  gsmi_parse_sms_status (replicate 11 NUL)
    (quoted "REC UNREADxyz" ++ String "," "rest") GSM_SMS_STATUS_READ
  = (1, ",rest"%string, GSM_SMS_STATUS_UNREAD).
Proof.
  split; reflexivity.
Qed.

(** ** [gsmi_parse_cpin] *)

(** The comparison with [NOT INSERTED] is made over 14 characters, two
    more than the literal has, so it takes in the terminator: the literal
    matches only when the text ends right behind it. *)
Lemma cpin_match_not_inserted (rest : string) :
  cpin_match ("NOT INSERTED" ++ rest) =
    if Ascii.eqb (deref rest) NUL
    then GSM_SIM_STATE_NOT_INSERTED
    else GSM_SIM_STATE_NOT_READY.
Proof.
  destruct rest as [|c rest]; [reflexivity|].
  unfold cpin_match. cbn [append strncmp_eq deref next].
  change (Ascii.eqb "N" "R") with false. cbv iota.
  change (Ascii.eqb "N" "N") with true.
  change (Ascii.eqb "O" "O") with true.
  change (Ascii.eqb "T" "T") with true.
  change (Ascii.eqb " " " ") with true.
  change (Ascii.eqb "I" "R") with false.
  change (Ascii.eqb "I" "I") with true.
  change (Ascii.eqb "S" "S") with true.
  change (Ascii.eqb "E" "E") with true.
  change (Ascii.eqb "R" "R") with true.
  change (Ascii.eqb "D" "D") with true.
  change (Ascii.eqb "N" NUL) with false.
  change (Ascii.eqb "O" NUL) with false.
  change (Ascii.eqb "T" NUL) with false.
  change (Ascii.eqb " " NUL) with false.
  change (Ascii.eqb "I" NUL) with false.
  change (Ascii.eqb "S" NUL) with false.
  change (Ascii.eqb "E" NUL) with false.
  change (Ascii.eqb "R" NUL) with false.
  change (Ascii.eqb "D" NUL) with false.
  change (Ascii.eqb "N" "S") with false.
  change (Ascii.eqb "N" "P") with false.
  cbv iota.
  destruct (Ascii.eqb c NUL); reflexivity.
Qed.

(** The literals compared over their own length are matched as prefixes. *)
Lemma cpin_match_ready (rest : string) :
  cpin_match ("READY" ++ rest) = GSM_SIM_STATE_READY.
Proof. reflexivity. Qed.

Lemma cpin_match_not_ready (rest : string) :
  cpin_match ("NOT READY" ++ rest) = GSM_SIM_STATE_NOT_READY.
Proof. reflexivity. Qed.

Lemma cpin_match_sim_pin (rest : string) :
  cpin_match ("SIM PIN" ++ rest) = GSM_SIM_STATE_PIN.
Proof. reflexivity. Qed.

Lemma cpin_match_pin_puk (rest : string) :
  cpin_match ("PIN PUK" ++ rest) = GSM_SIM_STATE_PUK.
Proof. reflexivity. Qed.

(** A body that none of the comparisons accepts gives NOT_READY. *)
Lemma cpin_match_default (body : string) :
  strncmp_eq body "READY" 5 = false ->
  strncmp_eq body "NOT INSERTED" 14 = false ->
  strncmp_eq body "SIM PIN" 7 = false ->
  strncmp_eq body "PIN PUK" 7 = false ->
  cpin_match body = GSM_SIM_STATE_NOT_READY.
Proof.
  intros H1 H2 H3 H4. unfold cpin_match. rewrite H1, H2, H3, H4.
  destruct (strncmp_eq body "NOT READY" 9); reflexivity.
Qed.

Lemma sim_info_calls_app (g : gsm_t) (c : ext_call) :
  sim_info_calls (do_call c g) =
    (sim_info_calls g +
     if is_sim_info_call c then 1 else 0)%nat.
Proof.
  unfold sim_info_calls, do_call. cbn [ext_calls].
  rewrite List.filter_app, length_app. destruct c; reflexivity.
Qed.

Lemma sim_info_calls_set_sim (g : gsm_t) (v : gsm_sim_state_t) :
  sim_info_calls (set_sim_state v g) = sim_info_calls g.
Proof. reflexivity. Qed.

Lemma sim_info_calls_set_cb (g : gsm_t) (v : gsm_sim_state_t) :
  sim_info_calls (set_cb_cpin_state v g) = sim_info_calls g.
Proof. reflexivity. Qed.

(** READY as a prefix sets the state to READY and calls
    [gsmi_get_sim_info] exactly once; SIM PIN as a prefix sets the state to
    PIN and does not call it. *)
Lemma cpin_ready_and_sim_pin (rest : string) (send_evt : bool) (g : gsm_t) :
  (exists g', gsmi_parse_cpin ("READY" ++ rest) send_evt g = Some g' /\
              sim_state g' = GSM_SIM_STATE_READY /\
              sim_info_calls g' = S (sim_info_calls g)) /\
  (exists g', gsmi_parse_cpin ("SIM PIN" ++ rest) send_evt g = Some g' /\
              sim_state g' = GSM_SIM_STATE_PIN /\
              sim_info_calls g' = sim_info_calls g).
Proof.
  split.
  - exists (if send_evt
            then do_call (call_gsmi_send_cb GSM_CB_CPIN)
                   (set_cb_cpin_state GSM_SIM_STATE_READY
                      (do_call (call_gsmi_get_sim_info 0)
                         (set_sim_state GSM_SIM_STATE_READY g)))
            else do_call (call_gsmi_get_sim_info 0)
                   (set_sim_state GSM_SIM_STATE_READY g)).
    destruct send_evt; (split; [reflexivity|]); (split; [reflexivity|]);
      rewrite ?sim_info_calls_app, ?sim_info_calls_set_cb,
        ?sim_info_calls_app, ?sim_info_calls_set_sim;
      cbn [is_sim_info_call]; lia.
  - exists (if send_evt
            then do_call (call_gsmi_send_cb GSM_CB_CPIN)
                   (set_cb_cpin_state GSM_SIM_STATE_PIN
                      (set_sim_state GSM_SIM_STATE_PIN g))
            else set_sim_state GSM_SIM_STATE_PIN g).
    destruct send_evt; (split; [reflexivity|]); (split; [reflexivity|]);
      rewrite ?sim_info_calls_app, ?sim_info_calls_set_cb,
        ?sim_info_calls_app, ?sim_info_calls_set_sim;
      cbn [is_sim_info_call]; lia.
Qed.

(** C2: the code at the input that shows the defect.  The body
    [NOT INSERTED] followed by the line end has the literal as a prefix,
    and is nevertheless taken as unmatched and set to NOT_READY; the same
    literal is recognised only when the body ends behind it.  The other
    literals are matched as prefixes. *)
Theorem cpin_not_inserted_line_end (send_evt : bool) (g : gsm_t) :
  is_prefix "NOT INSERTED" ("NOT INSERTED" ++ String CR (String LF "")) /\
  sim_state <$> gsmi_parse_cpin ("NOT INSERTED" ++ String CR (String LF ""))
                  send_evt g = Some GSM_SIM_STATE_NOT_READY /\
  sim_state <$> gsmi_parse_cpin
                  ("+CPIN: NOT INSERTED" ++ String CR (String LF ""))
                  send_evt g = Some GSM_SIM_STATE_NOT_READY /\
  sim_state <$> gsmi_parse_cpin "NOT INSERTED" send_evt g
    = Some GSM_SIM_STATE_NOT_INSERTED /\
  sim_state <$> gsmi_parse_cpin ("NOT READY" ++ String CR (String LF ""))
                  send_evt g = Some GSM_SIM_STATE_NOT_READY /\
  sim_state <$> gsmi_parse_cpin ("READY" ++ String CR (String LF ""))
                  send_evt g = Some GSM_SIM_STATE_READY /\
  sim_state <$> gsmi_parse_cpin ("SIM PIN" ++ String CR (String LF ""))
                  send_evt g = Some GSM_SIM_STATE_PIN.
Proof.
  split; [eexists; reflexivity|].
  destruct send_evt; repeat split; reflexivity.
Qed.

(** ** [gsmi_parse_cops_scan] *)

(** Once the scanner ignores its input, a call without reset returns
    before it touches anything. *)
Lemma cops_scan_frozen_step (ch : ascii) (st : cops_state) :
  cops_frozen st -> gsmi_parse_cops_scan ch false st = st.
Proof.
  intros Hf. unfold gsmi_parse_cops_scan.
  assert (H : ccd (u st) || (opsl (cops st) <=? opsi (cops st))%nat = true).
  { destruct Hf as [Hc | Hfull].
    - rewrite Hc. reflexivity.
    - apply Nat.leb_le in Hfull. rewrite Hfull. apply orb_true_r. }
  rewrite H. reflexivity.
Qed.

Lemma cops_feed_frozen (s : string) (st : cops_state) :
  cops_frozen st -> cops_feed s st = st.
Proof.
  intros Hf. unfold cops_feed.
  induction (list_ascii_of_string s) as [|c l IH]; [reflexivity|].
  cbn [fold_left]. rewrite cops_scan_frozen_step by exact Hf. exact IH.
Qed.

(** The field index is a 2-bit counter: it is below 4 after every call. *)
Lemma cops_scan_tn_bound (ch : ascii) (reset : bool) (st : cops_state) :
  (tn (u st) < 4)%nat ->
  (tn (u (gsmi_parse_cops_scan ch reset st)) < 4)%nat.
Proof.
  intros Hb. unfold gsmi_parse_cops_scan.
  destruct reset; [simpl; lia|].
  destruct (ccd (u st) || (opsl (cops st) <=? opsi (cops st))%nat);
    [exact Hb|].
  destruct (bo (u st)).
  - destruct (Ascii.eqb ch ")"); [simpl; lia|].
    destruct (Ascii.eqb ch ",").
    + cbn [u tn]. apply Nat.mod_upper_bound. lia.
    + destruct (negb (Ascii.eqb ch DQUOTE)); [|exact Hb].
      destruct (ops (cops st) !! opsi (cops st)); [|exact Hb].
      destruct (cops_term _ _ _ _). exact Hb.
  - destruct (Ascii.eqb ch "("); [exact Hb|].
    destruct (Ascii.eqb ch "," && Ascii.eqb (ch_prev (u st)) ",");
      exact Hb.
Qed.

Lemma cops_run_tn_bound (calls : list (ascii * bool)) :
  forall st, (tn (u st) < 4)%nat -> (tn (u (cops_run calls st)) < 4)%nat.
Proof.
  unfold cops_run.
  induction calls as [|c calls IH]; intros st Hb; [exact Hb|].
  cbn [fold_left]. apply IH. apply cops_scan_tn_bound. exact Hb.
Qed.

(** A comma inside a record. *)
Lemma cops_scan_comma_in_record (st : cops_state) :
  bo (u st) = true -> ~ cops_frozen st ->
  gsmi_parse_cops_scan "," false st =
    {| u := {| bo := true; ccd := false;
               tn := ((tn (u st) + 1) mod 4)%nat; tp := 0;
               ch_prev := "," |};
       cops := cops st |}.
Proof.
  intros Hbo Hnf. unfold gsmi_parse_cops_scan.
  destruct (ccd (u st)) eqn:Hc; [exfalso; apply Hnf; left; exact Hc|].
  destruct (opsl (cops st) <=? opsi (cops st))%nat eqn:Hl;
    [exfalso; apply Hnf; right; apply Nat.leb_le; exact Hl|].
  rewrite Hbo. reflexivity.
Qed.

(** A data character inside a record goes to the field that the index
    selects, in the entry under [opsi]. *)
Lemma cops_scan_data_in_record (ch : ascii) (st : cops_state)
    (o : gsm_operator_t) :
  bo (u st) = true -> ~ cops_frozen st ->
  ch <> ")"%char -> ch <> ","%char -> ch <> DQUOTE ->
  ops (cops st) !! opsi (cops st) = Some o ->
  gsmi_parse_cops_scan ch false st =
    {| u := {| bo := true; ccd := false; tn := tn (u st);
               tp := snd (cops_term (tn (u st)) (tp (u st)) ch o);
               ch_prev := ch |};
       cops := {| ops := <[opsi (cops st) :=
                            fst (cops_term (tn (u st)) (tp (u st)) ch o)]>
                           (ops (cops st));
                  opsl := opsl (cops st); opsi := opsi (cops st);
                  opf := opf (cops st) |} |}.
Proof.
  intros Hbo Hnf Hc Hk Hq Ho. unfold gsmi_parse_cops_scan.
  destruct (ccd (u st)) eqn:Hccd; [exfalso; apply Hnf; left; exact Hccd|].
  destruct (opsl (cops st) <=? opsi (cops st))%nat eqn:Hl;
    [exfalso; apply Hnf; right; apply Nat.leb_le; exact Hl|].
  rewrite Hbo.
  apply ascii_eqb_neq in Hc, Hk, Hq. rewrite Hc, Hk, Hq, Ho.
  cbn [orb negb].
  destruct (cops_term (tn (u st)) (tp (u st)) ch o) as [o' tp'].
  reflexivity.
Qed.

(** C1 (as amended): inside and outside of records the field index of the
    scanner is always in 0..3.  A comma inside a record leaves the
    operator array and the count as they are, keeps the record open and
    the latch clear, sets the character offset to 0, and moves the index
    on by one modulo 4: from an index below 3 to the next field, and from
    index 3 back to field 0, which changes the scanner state.  The
    character that follows such a fourth comma is taken as a digit of
    field 0, the status, of the entry being filled; its other fields stay
    as they are. *)
Theorem cops_scan_field_index :
  (forall (m : cops_scan_t) (calls : list (ascii * bool)),
     (tn (u (cops_run calls (cops_start m))) <= 3)%nat) /\
  (forall st : cops_state,
     bo (u st) = true -> ~ cops_frozen st ->
     let st' := gsmi_parse_cops_scan "," false st in
     cops st' = cops st /\
     bo (u st') = true /\ ccd (u st') = false /\ tp (u st') = 0%nat /\
     tn (u st') = ((tn (u st) + 1) mod 4)%nat /\
     ((tn (u st) < 3)%nat -> tn (u st') = S (tn (u st))) /\
     (tn (u st) = 3%nat -> tn (u st') = 0%nat /\ st' <> st)) /\
  (forall (st : cops_state) (ch : ascii) (o : gsm_operator_t),
     bo (u st) = true -> ~ cops_frozen st -> tn (u st) = 3%nat ->
     ch <> ")"%char -> ch <> ","%char -> ch <> DQUOTE ->
     ops (cops st) !! opsi (cops st) = Some o ->
     let st' := gsmi_parse_cops_scan ch false
                  (gsmi_parse_cops_scan "," false st) in
     bo (u st') = true /\ tn (u st') = 0%nat /\
     opsi (cops st') = opsi (cops st) /\ opf (cops st') = opf (cops st) /\
     ops (cops st') =
       <[opsi (cops st) :=
           {| stat := wrap_u32 (10 * stat o
                                + (char_code ch - char_code "0"));
              long_name := long_name o; short_name := short_name o;
              num := num o |}]> (ops (cops st))).
Proof.
  split; [|split].
  - intros m calls.
    pose proof (cops_run_tn_bound calls (cops_start m)) as H.
    simpl in H. lia.
  - intros st Hbo Hnf st'. subst st'.
    rewrite (cops_scan_comma_in_record st Hbo Hnf). cbn [u cops bo ccd tp tn].
    split; [reflexivity|]. split; [reflexivity|]. split; [reflexivity|].
    split; [reflexivity|]. split; [reflexivity|]. split.
    + intros Hlt. rewrite Nat.mod_small by lia. lia.
    + intros H3. rewrite H3. split; [reflexivity|].
      intros Heq. apply (f_equal (fun s => tn (u s))) in Heq.
      cbn [u tn] in Heq. rewrite H3 in Heq. discriminate Heq.
  - intros st ch o Hbo Hnf H3 Hc Hk Hq Ho st'. subst st'.
    rewrite (cops_scan_comma_in_record st Hbo Hnf). rewrite H3.
    change ((3 + 1) mod 4)%nat with 0%nat.
    rewrite (cops_scan_data_in_record ch _ o); cbn [u cops bo tn tp];
      try assumption; try reflexivity.
    + cbn [cops_term fst snd ops opsi opf]. repeat split; reflexivity.
    + intros [Hf | Hf]; cbn [u cops ccd] in Hf;
        [discriminate Hf | apply Hnf; right; exact Hf].
Qed.

Lemma cops_scan_field_index_witness :
  let m := {| ops := [operator_zero]; opsl := 1; opsi := 0;
              opf := Some 0%nat |} in
  let st := cops_feed "(2,a" (cops_start m) in
  let st3 := cops_feed "(2,a,b,5" (cops_start m) in
  tn (u st) = 1%nat /\
  tn (u (gsmi_parse_cops_scan "," false st)) = 2%nat /\
  cops (gsmi_parse_cops_scan "," false st) = cops st /\
  tn (u st3) = 3%nat /\
  tn (u (gsmi_parse_cops_scan "," false st3)) = 0%nat /\
  stat <$> ops (cops st3) !! 0%nat = Some 2 /\
  stat <$> ops (cops (gsmi_parse_cops_scan "7" false
                        (gsmi_parse_cops_scan "," false st3))) !! 0%nat
    = Some 27.
Proof.
  intros m st st3.
  assert (Hbo : bo (u st) = true) by reflexivity.
  assert (Hnf : ~ cops_frozen st).
  { intros [H | H]; vm_compute in H; [discriminate H | lia]. }
  assert (Hbo3 : bo (u st3) = true) by reflexivity.
  assert (Hnf3 : ~ cops_frozen st3).
  { intros [H | H]; vm_compute in H; [discriminate H | lia]. }
  assert (Ht3 : tn (u st3) = 3%nat) by reflexivity.
  destruct (proj1 (proj2 cops_scan_field_index) st Hbo Hnf)
    as (Hc & _ & _ & _ & _ & Ht & _).
  destruct (proj1 (proj2 cops_scan_field_index) st3 Hbo3 Hnf3)
    as (_ & _ & _ & _ & _ & _ & Hw).
  destruct (ops (cops st3) !! opsi (cops st3)) as [o|] eqn:Ho;
    [|vm_compute in Ho; discriminate Ho].
  destruct (proj2 (proj2 cops_scan_field_index) st3 "7"%char o Hbo3 Hnf3 Ht3)
    as (_ & _ & _ & _ & Hops); [discriminate | discriminate | discriminate
                               | exact Ho |].
  split; [reflexivity|]. split; [apply Ht; vm_compute; lia|].
  split; [exact Hc|]. split; [exact Ht3|].
  split; [exact (proj1 (Hw Ht3))|]. split; [reflexivity|].
  rewrite Hops. vm_compute in Ho. injection Ho as <-. reflexivity.
Defined.

(** C1 (as stated) fails: with the index at field 3, one more comma in the
    same record is not absorbed.  The 2-bit index wraps to 0, and the
    characters that follow go to field 0: the status read as 2 becomes
    27. *)
Lemma cops_scan_fifth_field_counterexample :
  let m := {| ops := [operator_zero]; opsl := 1; opsi := 0;
              opf := Some 0%nat |} in
  let st := cops_feed "(2,a,b,5" (cops_start m) in
  bo (u st) = true /\ tn (u st) = 3%nat /\
  gsmi_parse_cops_scan "," false st <> st /\
  tn (u (gsmi_parse_cops_scan "," false st)) = 0%nat /\
  stat <$> ops (cops st) !! 0%nat = Some 2 /\
  stat <$> ops (cops (cops_feed ",7" st)) !! 0%nat = Some 27.
Proof.
  repeat split; try reflexivity.
  vm_compute. discriminate.
Qed.

(** C3: two commas in a row outside of a record set the stop latch, and a
    closing bracket that fills the last free entry makes the array full;
    from then on every character fed without reset leaves the scanner
    state, the operator array and the reported count as they are.  A
    reset clears the latch. *)
Theorem cops_scan_stop_is_absorbing :
  (forall st : cops_state,
     bo (u st) = false -> ~ cops_frozen st -> ch_prev (u st) = ","%char ->
     ccd (u (gsmi_parse_cops_scan "," false st)) = true) /\
  (forall st : cops_state,
     bo (u st) = true -> ~ cops_frozen st ->
     S (opsi (cops st)) = opsl (cops st) ->
     cops_frozen (gsmi_parse_cops_scan ")" false st)) /\
  (forall (st : cops_state) (s : string),
     cops_frozen st -> cops_feed s st = st) /\
  (forall (st : cops_state) (ch : ascii),
     u (gsmi_parse_cops_scan ch true st) = cops_flags_zero /\
     cops (gsmi_parse_cops_scan ch true st) = cops st).
Proof.
  split; [|split; [|split]].
  - intros st Hbo Hnf Hp. unfold gsmi_parse_cops_scan.
    destruct (ccd (u st)) eqn:Hc; [exfalso; apply Hnf; left; exact Hc|].
    destruct (opsl (cops st) <=? opsi (cops st))%nat eqn:Hl;
      [exfalso; apply Hnf; right; apply Nat.leb_le; exact Hl|].
    rewrite Hbo, Hp. reflexivity.
  - intros st Hbo Hnf Hlast. unfold gsmi_parse_cops_scan.
    destruct (ccd (u st)) eqn:Hc; [exfalso; apply Hnf; left; exact Hc|].
    destruct (opsl (cops st) <=? opsi (cops st))%nat eqn:Hl;
      [exfalso; apply Hnf; right; apply Nat.leb_le; exact Hl|].
    rewrite Hbo. right. simpl. lia.
  - intros st s. apply cops_feed_frozen.
  - intros st ch. split; reflexivity.
Qed.

Lemma cops_scan_stop_is_absorbing_witness :
  let m := {| ops := [operator_zero; operator_zero]; opsl := 2; opsi := 0;
              opf := Some 0%nat |} in
  let latched := cops_feed "(2,a,b,5),," (cops_start m) in
  let full := cops_feed "(2,a,b,5),(1,c,d,6)" (cops_start m) in
  ccd (u latched) = true /\
  cops_feed "(1,c,d,6)" latched = latched /\
  opf (cops full) = Some 2%nat /\
  cops_feed ",(3,e,f,7)" full = full.
Proof.
  intros m latched full.
  destruct cops_scan_stop_is_absorbing as (Hlatch & Hfull & Habs & _).
  split; [|split; [|split]].
  - apply (Hlatch (cops_feed "(2,a,b,5)," (cops_start m))).
    + reflexivity.
    + intros [H | H]; vm_compute in H; [discriminate H | lia].
    + reflexivity.
  - apply Habs. left. reflexivity.
  - reflexivity.
  - apply Habs.
    apply (Hfull (cops_feed "(2,a,b,5),(1,c,d,6" (cops_start m))).
    + reflexivity.
    + intros [H | H]; vm_compute in H; [discriminate H | lia].
    + reflexivity.
Defined.

(** ** [gsm_sms_send] *)

(** C10: no assertion of [gsm_sms_send] rejects a call for a NULL [text].
    With [num] not NULL the first assertion holds, and the second one,
    which tests [num] where its message names [text], goes on to compute
    [strlen(text)]: a NULL [text] passes every NULL test and is handed to
    [strlen]. *)
Theorem sms_send_null_text_unchecked
    (send : SmsApi.sms_send_msg -> Z -> SmsApi.gsmr_t) (enabled : bool)
    (num : string) (blocking : Z) :
  SmsApi.assert_num_cond (Some num) = true /\
  (forall text, SmsApi.assert_num_cond (Some num) = true /\
                SmsApi.assert_text_cond (Some num) text =
                  option_map (fun t => (strlen t <=? 160)%nat) text) /\
  SmsApi.assert_text_cond (Some num) None = None /\
  SmsApi.gsm_sms_send send enabled (Some num) None blocking
    = SmsApi.StrlenOfNull /\
  (forall r, SmsApi.gsm_sms_send send enabled (Some num) None blocking
             <> SmsApi.Returns r).
Proof.
  split; [reflexivity|]. split.
  - intros [t|]; split; reflexivity.
  - split; [reflexivity|]. split; [reflexivity|].
    intros r. discriminate.
Qed.

(** * Further properties of the tokenizers *)

(** ** [gsmi_parse_number]: what it accepts around a number *)

Lemma parse_number_loop_stop (val : Z) (tail : string) :
  GSM_CHARISNUM (deref tail) = false ->
  parse_number_loop val tail = (val, tail).
Proof.
  destruct tail as [|c tail]; [reflexivity|].
  simpl. intros ->. reflexivity.
Qed.

Lemma parse_number_loop_digits_any (ds : string) :
  forall (acc : Z) (tail : string),
    all_digits ds = true ->
    GSM_CHARISNUM (deref tail) = false ->
    0 <= acc ->
    acc * 10 ^ Z.of_nat (String.length ds) + digits_value ds <= INT32_MAX ->
    parse_number_loop acc (ds ++ tail) =
      (acc * 10 ^ Z.of_nat (String.length ds) + digits_value ds, tail).
Proof.
  induction ds as [|c ds IH]; intros acc tail Hd Ht Hacc Hmax.
  - cbn [append]. rewrite parse_number_loop_stop by exact Ht.
    simpl. f_equal. lia.
  - simpl in Hd. apply andb_true_iff in Hd as [Hc Hd].
    pose proof (digit_range c Hc) as Hr.
    pose proof (digits_value_nonneg ds Hd) as Hv.
    assert (Hp : 0 < 10 ^ Z.of_nat (String.length ds))
      by (apply Z.pow_pos_nonneg; lia).
    assert (Hs : 10 ^ Z.of_nat (String.length (String c ds)) =
                 10 * 10 ^ Z.of_nat (String.length ds)).
    { cbn [String.length]. rewrite Nat2Z.inj_succ, Z.pow_succ_r by lia.
      reflexivity. }
    rewrite Hs in *. cbn [digits_value] in *.
    cbn [append parse_number_loop]. rewrite Hc.
    rewrite wrap_i32_small by (unfold INT32_MAX in *; nia).
    rewrite IH; [f_equal; lia | assumption | assumption | lia | lia].
Qed.

(** The three optional skips in front of a number. *)
Lemma skip_number_lead (q1 c q2 : bool) (x : string) :
  Ascii.eqb (deref x) DQUOTE = false ->
  Ascii.eqb (deref x) "," = false ->
  skip_char DQUOTE (skip_char "," (skip_char DQUOTE (number_lead q1 c q2 ++ x)))
  = x.
Proof.
  intros Hq Hc.
  assert (Hkq : skip_char DQUOTE x = x) by (unfold skip_char; rewrite Hq; reflexivity).
  assert (Hkc : skip_char "," x = x) by (unfold skip_char; rewrite Hc; reflexivity).
  destruct q1, c, q2; cbn [number_lead append];
    rewrite ?skip_char_eq, ?(skip_char_ne DQUOTE ",") by reflexivity;
    rewrite ?skip_char_eq, ?(skip_char_ne "," DQUOTE) by reflexivity;
    rewrite ?skip_char_eq, ?Hkq, ?Hkc, ?Hkq; reflexivity.
Qed.

(** A decimal numeral starts with a character that is neither a quote nor
    a comma. *)
Lemma decimal_head (s tail : string) :
  is_decimal s = true ->
  Ascii.eqb (deref (s ++ tail)) DQUOTE = false /\
  Ascii.eqb (deref (s ++ tail)) "," = false.
Proof.
  destruct s as [|c s]; [discriminate|]. unfold is_decimal. cbn [append deref].
  destruct (Ascii.eqb c "-") eqn:Em.
  - apply ascii_eqb_eq in Em. subst c. intros _. split; reflexivity.
  - intros H. destruct (is_digits_head c s H) as [Hc _].
    split; apply (digit_not c _ Hc); reflexivity.
Qed.

(** The number itself, once the cursor stands on it. *)
Lemma parse_number_body (s tail : string) :
  is_decimal s = true ->
  Z.abs (decimal_value s) <= INT32_MAX ->
  GSM_CHARISNUM (deref tail) = false ->
  (let p := (s ++ tail)%string in
   let minus := Ascii.eqb (deref p) "-" in
   let '(val, p') := parse_number_loop 0 (if minus then next p else p) in
   (if minus then wrap_i32 (- val) else val, skip_char "," p'))
  = (decimal_value s, skip_char "," tail).
Proof.
  intros Hs Hmax Ht. destruct s as [|c s]; [discriminate|].
  unfold is_decimal, decimal_value in *. cbv zeta. cbn [append deref next].
  destruct (Ascii.eqb c "-") eqn:Em.
  - rewrite Z.abs_opp in Hmax.
    assert (Ha : all_digits s = true).
    { unfold is_digits in Hs. apply andb_true_iff in Hs as [_ Hs]. exact Hs. }
    pose proof (digits_value_nonneg s Ha) as Hv.
    rewrite Z.abs_eq in Hmax by lia.
    rewrite (parse_number_loop_digits_any s 0 tail Ha Ht) by lia.
    rewrite wrap_i32_small by (unfold INT32_MAX in *; lia).
    f_equal.
  - destruct (is_digits_head c s Hs) as [Hc Ha].
    pose proof (digits_value_nonneg _ Ha) as Hv.
    rewrite Z.abs_eq in Hmax by lia.
    change (String c (s ++ tail)) with (String c s ++ tail)%string.
    rewrite (parse_number_loop_digits_any (String c s) 0 tail Ha Ht) by lia.
    f_equal.
Qed.

Lemma parse_number_lead (q1 c q2 : bool) (s tail : string) :
  is_decimal s = true ->
  Z.abs (decimal_value s) <= INT32_MAX ->
  GSM_CHARISNUM (deref tail) = false ->
  gsmi_parse_number (number_lead q1 c q2 ++ s ++ tail)
  = (decimal_value s, skip_char "," tail).
Proof.
  intros Hs Hmax Ht. unfold gsmi_parse_number.
  destruct (decimal_head s tail Hs) as [Hq Hc].
  rewrite (skip_number_lead q1 c q2 (s ++ tail) Hq Hc).
  pose proof (parse_number_body s tail Hs Hmax Ht) as Hb. cbv zeta in Hb.
  destruct (parse_number_loop 0 _) as [val p'] eqn:El.
  injection Hb as Hv Hp. rewrite Hv, Hp. reflexivity.
Qed.

(** X1: [gsmi_parse_number] reads a decimal numeral of magnitude at most
    [INT32_MAX] whatever of a quote, a comma and a quote stands in front
    of it, and stops on the first character that is not a digit; that
    character stays under the cursor unless it is a comma.  In particular
    a closing quote behind a quoted number is left to be read. *)
Theorem parse_number_field (q1 c q2 : bool) (s tail : string) :
  is_decimal s = true ->
  Z.abs (decimal_value s) <= INT32_MAX ->
  GSM_CHARISNUM (deref tail) = false ->
  gsmi_parse_number (number_lead q1 c q2 ++ s ++ tail)
  = (decimal_value s, skip_char "," tail).
Proof.
  intros Hs Hmax Ht. unfold gsmi_parse_number.
  destruct (decimal_head s tail Hs) as [Hq Hc].
  rewrite (skip_number_lead q1 c q2 (s ++ tail) Hq Hc).
  pose proof (parse_number_body s tail Hs Hmax Ht) as Hb. cbv zeta in Hb.
  destruct (parse_number_loop 0 _) as [val p'] eqn:El.
  injection Hb as Hv Hp. rewrite Hv, Hp. reflexivity.
Qed.

Lemma parse_number_field_witness :
  gsmi_parse_number (String "," (String DQUOTE ("145" ++ String DQUOTE ",x")))
  = (145, String DQUOTE ",x").
Proof.
  apply (parse_number_field false true true "145" (String DQUOTE ",x")).
  - reflexivity.
  - vm_compute. discriminate.
  - reflexivity.
Defined.

(** X2: on a text that starts with none of a quote, a comma, a minus sign
    and a digit (the end of the string included), [gsmi_parse_number]
    returns 0 and leaves the cursor where it was: the value 0 does not tell
    a number from its absence. *)
Theorem parse_number_no_digits (s : string) :
  Ascii.eqb (deref s) DQUOTE = false ->
  Ascii.eqb (deref s) "," = false ->
  Ascii.eqb (deref s) "-" = false ->
  GSM_CHARISNUM (deref s) = false ->
  gsmi_parse_number s = (0, s).
Proof.
  intros Hq Hc Hm Hd.
  assert (Hkq : skip_char DQUOTE s = s)
    by (unfold skip_char; rewrite Hq; reflexivity).
  assert (Hkc : skip_char "," s = s)
    by (unfold skip_char; rewrite Hc; reflexivity).
  unfold gsmi_parse_number. rewrite Hkq, Hkc, Hkq, Hm.
  rewrite parse_number_loop_stop by exact Hd. rewrite Hkc. reflexivity.
Qed.

Lemma parse_number_no_digits_witness :
  gsmi_parse_number "READY" = (0, "READY"%string) /\
  gsmi_parse_number EmptyString = (0, EmptyString).
Proof.
  split.
  - apply (parse_number_no_digits "READY"); reflexivity.
  - apply (parse_number_no_digits EmptyString); reflexivity.
Defined.

(** ** The text left under the cursor

    With a cursor embedded as the text that remains, what a tokenizer
    leaves is a suffix of what it was given.  The facts below measure the
    progress of the loops that call the tokenizers. *)

Lemma is_suffix_refl (s : string) : is_suffix s s.
Proof. exists EmptyString. reflexivity. Qed.

Lemma is_suffix_trans (a b c : string) :
  is_suffix a b -> is_suffix b c -> is_suffix a c.
Proof.
  intros [p Hp] [q Hq]. exists (q ++ p)%string.
  rewrite Hq, Hp, string_app_assoc. reflexivity.
Qed.

Lemma is_suffix_cons (c : ascii) (a b : string) :
  is_suffix a b -> is_suffix a (String c b).
Proof. intros [p Hp]. exists (String c p). rewrite Hp. reflexivity. Qed.

Lemma is_suffix_next (s : string) : is_suffix (next s) s.
Proof.
  destruct s as [|c s]; [apply is_suffix_refl|].
  apply is_suffix_cons, is_suffix_refl.
Qed.

Lemma is_suffix_skip_char (c : ascii) (s : string) :
  is_suffix (skip_char c s) s.
Proof.
  unfold skip_char. destruct (Ascii.eqb (deref s) c);
    [apply is_suffix_next | apply is_suffix_refl].
Qed.

Lemma is_suffix_advance (n : nat) (s : string) : is_suffix (advance n s) s.
Proof.
  unfold advance. induction n as [|n IH]; [apply is_suffix_refl|].
  simpl. eapply is_suffix_trans; [apply is_suffix_next | exact IH].
Qed.

Lemma parse_number_loop_suffix (p : string) :
  forall val, is_suffix (snd (parse_number_loop val p)) p.
Proof.
  induction p as [|c p IH]; intros val; simpl; [apply is_suffix_refl|].
  destruct (GSM_CHARISNUM c); [|apply is_suffix_refl].
  apply is_suffix_cons, IH.
Qed.

Lemma parse_string_loop_suffix (p : string) :
  forall dst i n trim,
    is_suffix (fst (fst (parse_string_loop p dst i n trim))) p.
Proof.
  induction p as [|c p IH]; intros dst i n trim; simpl;
    [apply is_suffix_refl|].
  destruct (Ascii.eqb c NUL); [apply is_suffix_refl|].
  destruct (Ascii.eqb c DQUOTE && ends_field (deref p));
    [apply is_suffix_cons, is_suffix_refl|].
  destruct dst as [d|].
  - destruct (i <? n)%nat; [apply is_suffix_cons, IH|].
    destruct (negb trim); [apply is_suffix_refl | apply is_suffix_cons, IH].
  - apply is_suffix_cons, IH.
Qed.

Lemma parse_string_suffix (src : string) dst n trim :
  is_suffix (fst (gsmi_parse_string src dst n trim)) src.
Proof.
  unfold gsmi_parse_string.
  pose proof (parse_string_loop_suffix
                (skip_char DQUOTE (skip_char "," src)) dst 0 (Nat.pred n) trim)
    as H.
  destruct (parse_string_loop _ _ _ _ _) as [[p d] i]. cbn [fst] in *.
  eapply is_suffix_trans; [exact H|].
  eapply is_suffix_trans; apply is_suffix_skip_char.
Qed.

Lemma mem_map_scan_suffix (tbl : list gsm_dev_mem_map_t) (s s' : string)
    (m : gsm_mem_t) :
  mem_map_scan tbl s = Some (m, s') -> is_suffix s' s.
Proof.
  induction tbl as [|e tbl IH]; simpl; [discriminate|].
  destruct (strncmp_eq s (mem_str e) (strlen (mem_str e))); [|exact IH].
  intros H. injection H as _ <-. apply is_suffix_advance.
Qed.

Lemma parse_number_suffix (str : string) :
  is_suffix (snd (gsmi_parse_number str)) str.
Proof.
  unfold gsmi_parse_number.
  set (p0 := skip_char DQUOTE (skip_char "," (skip_char DQUOTE str))).
  assert (H0 : is_suffix p0 str).
  { unfold p0. eapply is_suffix_trans; [apply is_suffix_skip_char|].
    eapply is_suffix_trans; apply is_suffix_skip_char. }
  set (p1 := if Ascii.eqb (deref p0) "-" then next p0 else p0).
  assert (H1 : is_suffix p1 str).
  { unfold p1. destruct (Ascii.eqb (deref p0) "-"); [|exact H0].
    eapply is_suffix_trans; [apply is_suffix_next | exact H0]. }
  pose proof (parse_number_loop_suffix p1 0) as H2.
  destruct (parse_number_loop 0 p1) as [val p2]. cbn [snd] in *.
  eapply is_suffix_trans; [apply is_suffix_skip_char|].
  eapply is_suffix_trans; [exact H2 | exact H1].
Qed.

Lemma parse_memory_suffix map unknown (src : string) :
  is_suffix (snd (gsmi_parse_memory map unknown src)) src.
Proof.
  unfold gsmi_parse_memory.
  set (body := skip_char DQUOTE (skip_char "," src)).
  assert (Hb : is_suffix body src).
  { unfold body. eapply is_suffix_trans; apply is_suffix_skip_char. }
  destruct (mem_map_scan map body) as [[m s']|] eqn:E.
  - pose proof (mem_map_scan_suffix map body s' m E) as Hs.
    destruct (m =? unknown); cbn [snd].
    + eapply is_suffix_trans; [apply is_suffix_skip_char|].
      eapply is_suffix_trans; [apply parse_string_suffix|].
      eapply is_suffix_trans; [exact Hs | exact Hb].
    + eapply is_suffix_trans; [apply is_suffix_skip_char|].
      eapply is_suffix_trans; [exact Hs | exact Hb].
  - rewrite Z.eqb_refl. cbn [snd].
    eapply is_suffix_trans; [apply is_suffix_skip_char|].
    eapply is_suffix_trans; [apply parse_string_suffix | exact Hb].
Qed.

Lemma is_suffix_length (t s : string) :
  is_suffix t s -> (String.length t <= String.length s)%nat.
Proof. intros [p ->]. rewrite string_app_length. lia. Qed.

(** ** [gsmi_parse_string]: the destination array *)

(** The copy loop writes inside the window from [i] to the capacity, and
    nowhere else. *)
Lemma parse_string_loop_frame (p : string) :
  forall (d : list ascii) (i n : nat) (trim : bool),
    exists d' i',
      parse_string_loop p (Some d) i n trim
        = (fst (fst (parse_string_loop p (Some d) i n trim)), Some d', i') /\
      (i <= i')%nat /\ ((i <= n)%nat -> (i' <= n)%nat) /\
      List.length d' = List.length d /\
      (forall k, (k < i \/ i' <= k)%nat -> d' !! k = d !! k).
Proof.
  induction p as [|c p IH]; intros d i n trim.
  - exists d, i. simpl. auto.
  - cbn [parse_string_loop].
    destruct (Ascii.eqb c NUL); [exists d, i; simpl; auto|].
    destruct (Ascii.eqb c DQUOTE && ends_field (deref p));
      [exists d, i; simpl; auto|].
    destruct (i <? n)%nat eqn:El.
    + apply Nat.ltb_lt in El.
      destruct (IH (<[i:=c]> d) (S i) n trim) as (d' & i' & He & Hi & Hn & Hl & Hk).
      exists d', i'. split; [exact He|]. split; [lia|]. split; [lia|].
      split; [rewrite Hl; apply length_insert|].
      intros k Hkk. rewrite Hk by lia.
      apply list_lookup_insert_ne. lia.
    + destruct (negb trim); [exists d, i; simpl; auto|].
      apply IH.
Qed.

Lemma c_chars_length_nul (l : list ascii) (i : nat) :
  l !! i = Some NUL ->
  (String.length (c_chars (string_of_list_ascii l)) <= i)%nat.
Proof.
  revert i. induction l as [|c l IH]; intros i; [destruct i; discriminate|].
  destruct i as [|i]; simpl.
  - intros H. injection H as ->. simpl. lia.
  - intros H. destruct (Ascii.eqb c NUL); simpl; [lia|].
    specialize (IH i H). lia.
Qed.

(** X4: [gsmi_parse_string] never writes behind the capacity it is given.
    For every input, every array of at least [dst_len] bytes with
    [dst_len >= 1], and both values of [trim]: the array keeps its size,
    every byte from index [dst_len] on is left as it was, and the array
    holds a terminated string of at most [dst_len - 1] characters. *)
Theorem parse_string_within_capacity (src : string) (d : list ascii)
    (n : nat) (trim : bool) :
  (1 <= n <= List.length d)%nat ->
  exists d',
    snd (gsmi_parse_string src (Some d) n trim) = Some d' /\
    List.length d' = List.length d /\
    (forall k, (n <= k)%nat -> d' !! k = d !! k) /\
    (String.length (buf_string d') <= n - 1)%nat.
Proof.
  intros Hn. unfold gsmi_parse_string.
  destruct (parse_string_loop_frame
              (skip_char DQUOTE (skip_char "," src)) d 0 (Nat.pred n) trim)
    as (d' & i' & He & _ & Hi & Hl & Hk).
  rewrite He. cbn [snd option_map].
  specialize (Hi ltac:(lia)).
  exists (<[i':=NUL]> d'). split; [reflexivity|].
  split; [rewrite length_insert; exact Hl|]. split.
  - intros k Hkn. rewrite list_lookup_insert_ne by lia. apply Hk. lia.
  - unfold buf_string.
    assert (H : (<[i':=NUL]> d') !! i' = Some NUL)
      by (apply list_lookup_insert_eq; lia).
    pose proof (c_chars_length_nul _ _ H). lia.
Qed.

Lemma parse_string_within_capacity_witness :
  exists d',
    snd (gsmi_parse_string "abcdefgh" (Some (replicate 6 "x"%char)) 4 false)
      = Some d' /\
    List.length d' = 6%nat /\
    (forall k, (4 <= k)%nat -> d' !! k = replicate 6 "x"%char !! k) /\
    (String.length (buf_string d') <= 3)%nat.
Proof.
  apply (parse_string_within_capacity "abcdefgh" (replicate 6 "x"%char) 4 false).
  simpl. lia.
Defined.

Lemma parse_string_loop_full (p : string) :
  forall (d : list ascii) (i n : nat) (trim : bool),
    (n <= i)%nat ->
    snd (fst (parse_string_loop p (Some d) i n trim)) = Some d /\
    snd (parse_string_loop p (Some d) i n trim) = i.
Proof.
  induction p as [|c p IH]; intros d i n trim Hi; [simpl; auto|].
  cbn [parse_string_loop].
  destruct (Ascii.eqb c NUL); [simpl; auto|].
  destruct (Ascii.eqb c DQUOTE && ends_field (deref p)); [simpl; auto|].
  replace (i <? n)%nat with false by (symmetry; apply Nat.ltb_ge; exact Hi).
  destruct (negb trim); [simpl; auto|]. apply IH. exact Hi.
Qed.

(** X5: a capacity of 0 does not keep [gsmi_parse_string] from writing:
    with a destination that is not NULL and [dst_len = 0] nothing is
    copied, and the terminator is still stored at [dst[0]], for every
    input and both values of [trim]. *)
Theorem parse_string_zero_capacity (src : string) (d : list ascii)
    (trim : bool) :
  snd (gsmi_parse_string src (Some d) 0 trim) = Some (<[0%nat:=NUL]> d).
Proof.
  unfold gsmi_parse_string.
  destruct (parse_string_loop_full
              (skip_char DQUOTE (skip_char "," src)) d 0 (Nat.pred 0) trim)
    as [Hd Hi]; [simpl; lia|].
  destruct (parse_string_loop _ _ _ _ _) as [[p d'] i'].
  cbn [fst snd] in *. subst. reflexivity.
Qed.

(** ** [gsmi_parse_string]: quoted tokens, with and without [trim] *)

Lemma first_chars_length (n : nat) (w : string) :
  String.length (first_chars n w) = Nat.min n (String.length w).
Proof.
  revert w. induction n as [|n IH]; intros [|c w]; simpl; auto.
Qed.

Lemma length_list_ascii_of_string (w : string) :
  List.length (list_ascii_of_string w) = String.length w.
Proof. induction w as [|c w IH]; simpl; auto. Qed.

Lemma first_chars_drop_chars (n : nat) (w : string) :
  (first_chars n w ++ drop_chars n w)%string = w.
Proof.
  revert w. induction n as [|n IH]; intros [|c w]; simpl; auto.
  rewrite IH. reflexivity.
Qed.

(** The copy loop on a token without inner quote that is closed by a quote
    and a comma, CR or LF: when [trim] is set, or the token fits. *)
Lemma parse_string_loop_token (w : string) :
  forall (pre suf : list ascii) (n : nat) (c : ascii) (rest : string)
         (trim : bool),
    nul_free w = true -> quote_free w = true -> ends_field c = true ->
    (List.length pre <= n < List.length pre + List.length suf)%nat ->
    trim = true \/ (List.length pre + String.length w <= n)%nat ->
    let l := list_ascii_of_string (first_chars (n - List.length pre) w) in
    parse_string_loop (w ++ String DQUOTE (String c rest))
      (Some (pre ++ suf)) (List.length pre) n trim
    = (String c rest, Some (pre ++ l ++ drop (List.length l) suf),
       (List.length pre + List.length l)%nat).
Proof.
  induction w as [|x w IH]; intros pre suf n c rest trim Hn Hq Hc Hlen Ht l.
  - subst l. cbn [append parse_string_loop deref].
    change (Ascii.eqb DQUOTE NUL) with false.
    change (Ascii.eqb DQUOTE DQUOTE) with true. rewrite Hc. cbn [andb].
    destruct (n - List.length pre)%nat; simpl;
      rewrite Nat.add_0_r; reflexivity.
  - cbn [nul_free quote_free] in Hn, Hq.
    apply andb_true_iff in Hn as [Hx Hn]. apply negb_true_iff in Hx.
    apply andb_true_iff in Hq as [Hd Hq]. apply negb_true_iff in Hd.
    cbn [append parse_string_loop]. rewrite Hx, Hd. cbn [andb].
    destruct (List.length pre <? n)%nat eqn:El.
    + apply Nat.ltb_lt in El.
      destruct suf as [|y suf]; [simpl in Hlen; lia|].
      assert (Hins : <[List.length pre:=x]> (pre ++ y :: suf)
                     = (pre ++ [x]) ++ suf).
      { rewrite insert_app_r_alt by lia. rewrite Nat.sub_diag. simpl.
        rewrite <- app_assoc. reflexivity. }
      rewrite Hins.
      replace (S (List.length pre)) with (List.length (pre ++ [x]))
        by (rewrite length_app; simpl; lia).
      rewrite IH; [|assumption|assumption|assumption
                   |rewrite length_app; simpl in *; lia
                   |destruct Ht as [Ht|Ht];
                    [left; exact Ht
                    |right; rewrite length_app; simpl in *; lia]].
      subst l. rewrite length_app. cbn [List.length].
      replace (n - List.length pre)%nat
        with (S (n - (List.length pre + 1)))%nat by lia.
      cbn [first_chars list_ascii_of_string List.length drop].
      rewrite <- !app_assoc. simpl. f_equal. lia.
    + apply Nat.ltb_ge in El.
      destruct Ht as [-> | Hfit]; [|simpl in Hfit; lia].
      cbn [negb].
      rewrite IH by (assumption || lia || (left; reflexivity)).
      subst l. replace (n - List.length pre)%nat with 0%nat by lia.
      reflexivity.
Qed.

(** The copy loop without [trim] on a token that does not fit: it stops
    on the first character it cannot store. *)
Lemma parse_string_loop_stop (w : string) :
  forall (pre suf : list ascii) (n : nat) (tail : string),
    nul_free w = true -> quote_free w = true ->
    (List.length pre <= n < List.length pre + List.length suf)%nat ->
    (n - List.length pre < String.length w)%nat ->
    let k := (n - List.length pre)%nat in
    let l := list_ascii_of_string (first_chars k w) in
    parse_string_loop (w ++ tail) (Some (pre ++ suf)) (List.length pre) n false
    = ((drop_chars k w ++ tail)%string,
       Some (pre ++ l ++ drop (List.length l) suf), n).
Proof.
  induction w as [|x w IH]; intros pre suf n tail Hn Hq Hlen Hw k l;
    [simpl in Hw; lia|].
  cbn [nul_free quote_free] in Hn, Hq.
  apply andb_true_iff in Hn as [Hx Hn]. apply negb_true_iff in Hx.
  apply andb_true_iff in Hq as [Hd Hq]. apply negb_true_iff in Hd.
  cbn [append parse_string_loop]. rewrite Hx, Hd. cbn [andb].
  destruct (List.length pre <? n)%nat eqn:El.
  - apply Nat.ltb_lt in El.
    destruct suf as [|y suf]; [simpl in Hlen; lia|].
    assert (Hins : <[List.length pre:=x]> (pre ++ y :: suf)
                   = (pre ++ [x]) ++ suf).
    { rewrite insert_app_r_alt by lia. rewrite Nat.sub_diag. simpl.
      rewrite <- app_assoc. reflexivity. }
    rewrite Hins.
    replace (S (List.length pre)) with (List.length (pre ++ [x]))
      by (rewrite length_app; simpl; lia).
    rewrite IH; [|assumption|assumption
                 |rewrite length_app; simpl in *; lia
                 |rewrite length_app; simpl in *; lia].
    subst k l. rewrite length_app. cbn [List.length].
    replace (n - List.length pre)%nat
      with (S (n - (List.length pre + 1)))%nat by lia.
    cbn [first_chars drop_chars list_ascii_of_string List.length drop].
    rewrite <- !app_assoc. reflexivity.
  - apply Nat.ltb_ge in El. cbn [negb].
    subst k l. replace (n - List.length pre)%nat with 0%nat by lia.
    simpl. rewrite drop_0.
    replace n with (List.length pre) by lia. reflexivity.
Qed.

Lemma buf_string_copied (w : string) (d : list ascii) :
  nul_free w = true -> buf_string (copied w d) = w.
Proof.
  intros Hw. unfold buf_string, copied.
  rewrite c_chars_of_list; rewrite string_of_list_ascii_of_string; auto.
Qed.

Lemma copied_after_loop (l : string) (d : list ascii) (n : nat) :
  (String.length l <= n - 1)%nat -> (1 <= n <= List.length d)%nat ->
  <[(0 + List.length (list_ascii_of_string l))%nat:=NUL]>
    ([] ++ list_ascii_of_string l
        ++ drop (List.length (list_ascii_of_string l)) d)
  = copied l d.
Proof.
  intros Hl Hn. unfold copied. cbn [app Nat.add].
  rewrite length_list_ascii_of_string.
  rewrite insert_app_r_alt by (rewrite length_list_ascii_of_string; lia).
  rewrite length_list_ascii_of_string, Nat.sub_diag. f_equal.
  destruct (drop (String.length l) d) as [|y t] eqn:Ed.
  - apply (f_equal List.length) in Ed. rewrite length_drop in Ed.
    simpl in Ed. lia.
  - simpl. f_equal.
    change (S (String.length l)) with (1 + String.length l)%nat.
    rewrite Nat.add_comm, <- drop_drop, Ed. reflexivity.
Qed.

(** A quoted token into a destination, for either value of [trim] as long
    as [trim] is set or the token fits. *)
Lemma parse_string_token (lead : bool) (w : string) (c : ascii)
    (rest : string) (d : list ascii) (n : nat) (trim : bool) :
  nul_free w = true -> quote_free w = true -> ends_field c = true ->
  (1 <= n <= List.length d)%nat ->
  trim = true \/ (String.length w <= n - 1)%nat ->
  gsmi_parse_string
    ((if lead then String "," (quoted w) else quoted w) ++ String c rest)
    (Some d) n trim
  = (String c rest, Some (copied (first_chars (n - 1) w) d)).
Proof.
  intros Hn Hq Hc Hlen Ht. unfold gsmi_parse_string.
  assert (Hs : skip_char DQUOTE
                 (skip_char ","
                    ((if lead then String "," (quoted w) else quoted w)
                     ++ String c rest))
               = (w ++ String DQUOTE (String c rest))%string).
  { unfold quoted. destruct lead; cbn [append].
    - rewrite skip_char_eq, skip_char_eq, string_app_assoc. reflexivity.
    - rewrite skip_char_ne by reflexivity.
      rewrite skip_char_eq, string_app_assoc. reflexivity. }
  rewrite Hs.
  pose proof (parse_string_loop_token w [] d (Nat.pred n) c rest trim
                Hn Hq Hc) as Hl.
  cbn [List.length app Nat.add] in Hl.
  rewrite Hl; [|lia | destruct Ht; [left; assumption | right; lia]].
  cbn [option_map]. rewrite Nat.sub_0_r.
  replace (Nat.pred n) with (n - 1)%nat by lia.
  f_equal. f_equal.
  apply (copied_after_loop (first_chars (n - 1) w) d n); [|exact Hlen].
  rewrite first_chars_length. lia.
Qed.

(** X6: on a quoted token closed by a quote and a comma, CR or LF, with or
    without a comma in front, [gsmi_parse_string] with [trim] set stores
    the first [dst_len - 1] characters of the token, terminated, and
    leaves the cursor on the character behind the closing quote, however
    long the token is. *)
Theorem parse_string_quoted_token (lead : bool) (w : string) (c : ascii)
    (rest : string) (d : list ascii) (n : nat) :
  nul_free w = true -> quote_free w = true -> ends_field c = true ->
  (1 <= n <= List.length d)%nat ->
  exists d',
    gsmi_parse_string
      ((if lead then String "," (quoted w) else quoted w) ++ String c rest)
      (Some d) n true
    = (String c rest, Some d') /\
    buf_string d' = first_chars (n - 1) w /\
    List.length d' = List.length d.
Proof.
  intros Hn Hq Hc Hlen.
  exists (copied (first_chars (n - 1) w) d). split.
  - apply parse_string_token; auto.
  - split.
    + apply buf_string_copied, first_chars_nul_free, Hn.
    + unfold copied. rewrite length_app, length_list_ascii_of_string.
      cbn [List.length]. rewrite length_drop.
      pose proof (first_chars_length (n - 1) w). lia.
Qed.

Lemma parse_string_quoted_token_witness :
  exists d',
    gsmi_parse_string
      (String "," (quoted "+38640123456") ++ String CR (String LF ""))
      (Some (replicate 8 "x"%char)) 8 true
    = (String CR (String LF ""), Some d') /\
    buf_string d' = "+386401"%string /\
    List.length d' = 8%nat.
Proof.
  apply (parse_string_quoted_token true "+38640123456" CR (String LF "")
           (replicate 8 "x"%char) 8); try reflexivity.
  simpl. lia.
Defined.

(** X7: without [trim], a quoted token that does not fit stops
    [gsmi_parse_string] in the middle of it: the first [dst_len - 1]
    characters are stored, terminated, and the cursor is left on the first
    character that was not stored, not behind the token. *)
Theorem parse_string_no_trim_stops (w tail : string) (d : list ascii)
    (n : nat) :
  nul_free w = true -> quote_free w = true ->
  (1 <= n <= List.length d)%nat ->
  (n - 1 < String.length w)%nat ->
  exists d',
    gsmi_parse_string (String DQUOTE (w ++ tail)) (Some d) n false
    = ((drop_chars (n - 1) w ++ tail)%string, Some d') /\
    buf_string d' = first_chars (n - 1) w.
Proof.
  intros Hn Hq Hlen Hw.
  exists (copied (first_chars (n - 1) w) d). split.
  - unfold gsmi_parse_string.
    rewrite skip_char_ne by reflexivity. rewrite skip_char_eq.
    pose proof (parse_string_loop_stop w [] d (Nat.pred n) tail Hn Hq) as Hl.
    cbn [List.length app Nat.add] in Hl.
    rewrite Hl by lia. cbn [option_map]. rewrite Nat.sub_0_r.
    replace (Nat.pred n) with (n - 1)%nat by lia.
    f_equal. f_equal.
    pose proof (copied_after_loop (first_chars (n - 1) w) d n) as Hc.
    cbn [app Nat.add] in Hc.
    rewrite <- Hc; [|rewrite first_chars_length; lia | exact Hlen].
    f_equal. rewrite length_list_ascii_of_string, first_chars_length. lia.
  - apply buf_string_copied, first_chars_nul_free, Hn.
Qed.

Lemma parse_string_no_trim_stops_witness :
  exists d',
    gsmi_parse_string (String DQUOTE ("hello" ++ String DQUOTE ",rest"))
      (Some (replicate 3 NUL)) 3 false
    = (("llo" ++ String DQUOTE ",rest")%string, Some d') /\
    buf_string d' = "he"%string.
Proof.
  apply (parse_string_no_trim_stops "hello" (String DQUOTE ",rest")
           (replicate 3 NUL) 3); try reflexivity; simpl; lia.
Defined.

Lemma parse_string_loop_cursor_trim (p : string) :
  forall (d : list ascii) (i n j m : nat),
    fst (fst (parse_string_loop p (Some d) i n true))
    = fst (fst (parse_string_loop p None j m true)).
Proof.
  induction p as [|c p IH]; intros d i n j m; [reflexivity|].
  cbn [parse_string_loop].
  destruct (Ascii.eqb c NUL); [reflexivity|].
  destruct (Ascii.eqb c DQUOTE && ends_field (deref p)); [reflexivity|].
  destruct (i <? n)%nat; cbn [negb]; apply IH.
Qed.

(** X8: with [trim] set the cursor [gsmi_parse_string] leaves does not
    depend on the destination: for every input it is the one the plain
    skip (NULL destination) leaves, whatever the array and its
    capacity. *)
Theorem parse_string_trim_cursor (src : string) (d : list ascii) (n : nat) :
  fst (gsmi_parse_string src (Some d) n true)
  = fst (gsmi_parse_string src None 0 true).
Proof.
  unfold gsmi_parse_string.
  pose proof (parse_string_loop_cursor_trim
                (skip_char DQUOTE (skip_char "," src)) d 0 (Nat.pred n)
                0 (Nat.pred 0)) as H.
  destruct (parse_string_loop _ (Some d) _ _ _) as [[p1 d1] i1].
  destruct (parse_string_loop _ None _ _ _) as [[p2 d2] i2].
  exact H.
Qed.

(** ** [gsmi_parse_hexnumber] *)

Lemma wrap_u32_i32 (a : Z) : wrap_u32 (wrap_i32 a) = wrap_u32 a.
Proof.
  unfold wrap_u32, wrap_i32.
  rewrite Zminus_mod_idemp_l. f_equal. lia.
Qed.

Lemma wrap_u32_scale (a p h : Z) :
  wrap_u32 (wrap_i32 a * p + h) = wrap_u32 (a * p + h).
Proof.
  unfold wrap_u32.
  rewrite <- Zplus_mod_idemp_l, <- Zmult_mod_idemp_l.
  fold (wrap_u32 (wrap_i32 a)). rewrite wrap_u32_i32. unfold wrap_u32.
  rewrite Zmult_mod_idemp_l, Zplus_mod_idemp_l. reflexivity.
Qed.

Section HexFacts.

Variable isx : ascii -> bool.
Variable val : ascii -> Z.

Lemma parse_hexnumber_loop_stop (acc : Z) (tail : string) :
  hex_stop isx tail = true -> parse_hexnumber_loop isx val acc tail = (acc, tail).
Proof.
  unfold hex_stop. destruct tail as [|c tail]; [reflexivity|].
  cbn [deref parse_hexnumber_loop]. intros H.
  destruct (Ascii.eqb c NUL); [reflexivity|].
  simpl in H. apply negb_true_iff in H. rewrite H. reflexivity.
Qed.

(** The accumulation is the positional value modulo [2^32], whatever the
    number of digits. *)
Lemma parse_hexnumber_loop_digits (ds : string) :
  forall (acc : Z) (tail : string),
    all_hexdigits isx ds = true -> hex_stop isx tail = true ->
    snd (parse_hexnumber_loop isx val acc (ds ++ tail)) = tail /\
    wrap_u32 (fst (parse_hexnumber_loop isx val acc (ds ++ tail)))
    = wrap_u32 (acc * 16 ^ Z.of_nat (String.length ds) + hex_value val ds).
Proof.
  induction ds as [|c ds IH]; intros acc tail Hd Ht.
  - cbn [append]. rewrite parse_hexnumber_loop_stop by exact Ht.
    split; [reflexivity|]. simpl. f_equal. lia.
  - cbn [all_hexdigits] in Hd.
    apply andb_true_iff in Hd as [Hc Hd]. apply andb_true_iff in Hc as [Hn Hc].
    apply negb_true_iff in Hn.
    cbn [append parse_hexnumber_loop]. rewrite Hn, Hc.
    destruct (IH (wrap_i32 (acc * 16 + val c)) tail Hd Ht) as [Hs Hv].
    split; [exact Hs|]. rewrite Hv.
    rewrite wrap_u32_scale. f_equal.
    cbn [String.length hex_value].
    rewrite Nat2Z.inj_succ, Z.pow_succ_r by lia. ring.
Qed.

Lemma hex_value_bound (ds : string) :
  (forall c, isx c = true -> 0 <= val c <= 15) ->
  all_hexdigits isx ds = true ->
  0 <= hex_value val ds < 16 ^ Z.of_nat (String.length ds).
Proof.
  intros Hr. induction ds as [|c ds IH]; intros Hd; [simpl; lia|].
  cbn [all_hexdigits] in Hd.
  apply andb_true_iff in Hd as [Hc Hd]. apply andb_true_iff in Hc as [_ Hc].
  specialize (IH Hd). specialize (Hr c Hc).
  cbn [String.length hex_value].
  rewrite Nat2Z.inj_succ, Z.pow_succ_r by lia. nia.
Qed.

Hypothesis quote_not_hex : isx DQUOTE = false.
Hypothesis comma_not_hex : isx "," = false.

Lemma hexdigits_head (ds tail : string) :
  all_hexdigits isx ds = true ->
  ds <> EmptyString \/
    (Ascii.eqb (deref tail) DQUOTE = false /\
     Ascii.eqb (deref tail) "," = false) ->
  Ascii.eqb (deref (ds ++ tail)) DQUOTE = false /\
  Ascii.eqb (deref (ds ++ tail)) "," = false.
Proof.
  intros Hd Hne. destruct ds as [|c ds].
  - destruct Hne as [Hne | Hne]; [congruence | exact Hne].
  - cbn [all_hexdigits] in Hd.
    apply andb_true_iff in Hd as [Hc _]. apply andb_true_iff in Hc as [_ Hc].
    cbn [append deref]. split; apply ascii_eqb_neq; intros ->; congruence.
Qed.

Lemma parse_hexnumber_lead (q1 c q2 : bool) (ds tail : string) :
  all_hexdigits isx ds = true -> hex_stop isx tail = true ->
  ds <> EmptyString \/
    (Ascii.eqb (deref tail) DQUOTE = false /\
     Ascii.eqb (deref tail) "," = false) ->
  gsmi_parse_hexnumber isx val (number_lead q1 c q2 ++ ds ++ tail)
  = (wrap_u32 (hex_value val ds), skip_char "," tail).
Proof.
  intros Hd Ht Hne. unfold gsmi_parse_hexnumber.
  destruct (hexdigits_head ds tail Hd Hne) as [Hq Hc].
  rewrite (skip_number_lead q1 c q2 (ds ++ tail) Hq Hc).
  destruct (parse_hexnumber_loop_digits ds 0 tail Hd Ht) as [Hs Hv].
  destruct (parse_hexnumber_loop isx val 0 (ds ++ tail)) as [v p].
  cbn [fst snd] in *. subst p. rewrite Hv. reflexivity.
Qed.

(** X9: [gsmi_parse_hexnumber], for any classifier and valuation of the
    hexadecimal digits that take neither a quote nor a comma for a digit:
    with or without quote, comma and quote in front, a non-empty string
    of digits is read to the first character that is not one, and the
    result is its base-16 positional value modulo [2^32]; with digit
    values in 0..15 and at most 8 digits it is that value itself. *)
Theorem parse_hexnumber_field (q1 c q2 : bool) (ds tail : string) :
  all_hexdigits isx ds = true -> ds <> EmptyString -> hex_stop isx tail = true ->
  gsmi_parse_hexnumber isx val (number_lead q1 c q2 ++ ds ++ tail)
  = (hex_value val ds mod 2 ^ 32, skip_char "," tail) /\
  ((forall x, isx x = true -> 0 <= val x <= 15) ->
   (String.length ds <= 8)%nat ->
   hex_value val ds mod 2 ^ 32 = hex_value val ds).
Proof.
  intros Hd Hne Ht. split.
  - apply parse_hexnumber_lead; auto.
  - intros Hr Hl. apply Z.mod_small.
    pose proof (hex_value_bound ds Hr Hd) as Hb.
    assert (16 ^ Z.of_nat (String.length ds) <= 16 ^ 8)
      by (apply Z.pow_le_mono_r; lia).
    change (16 ^ 8) with (2 ^ 32) in *. lia.
Qed.

End HexFacts.

Lemma hex_digit_range (c : ascii) :
  is_hex_digit c = true -> 0 <= hex_digit_value c <= 15.
Proof.
  unfold is_hex_digit, hex_digit_value. cbv zeta.
  destruct ((48 <=? char_code c) && (char_code c <=? 57)) eqn:E1.
  - intros _. apply andb_true_iff in E1 as [H1 H2].
    apply Z.leb_le in H1, H2. lia.
  - destruct ((97 <=? char_code c) && (char_code c <=? 102)) eqn:E2.
    + intros _. apply andb_true_iff in E2 as [H1 H2].
      apply Z.leb_le in H1, H2. lia.
    + destruct ((65 <=? char_code c) && (char_code c <=? 70)) eqn:E3.
      * intros _. apply andb_true_iff in E3 as [H1 H2].
        apply Z.leb_le in H1, H2. lia.
      * discriminate.
Qed.

Lemma parse_hexnumber_field_witness :
  gsmi_parse_hexnumber is_hex_digit hex_digit_value
    (String DQUOTE ("1fA" ++ ":22")) = (506, ":22"%string) /\
  hex_value hex_digit_value "1fA" mod 2 ^ 32 = hex_value hex_digit_value "1fA".
Proof.
  destruct (parse_hexnumber_field is_hex_digit hex_digit_value
              eq_refl eq_refl true false false "1fA" ":22"
              eq_refl ltac:(discriminate) eq_refl) as [H1 H2].
  split; [exact H1|].
  apply H2; [apply hex_digit_range | simpl; lia].
Defined.

(** ** [gsmi_parse_ip] and [gsmi_parse_mac] *)

Lemma parse_number_plain (s tail : string) :
  is_decimal s = true ->
  Z.abs (decimal_value s) <= INT32_MAX ->
  GSM_CHARISNUM (deref tail) = false ->
  gsmi_parse_number (s ++ tail) = (decimal_value s, skip_char "," tail).
Proof. exact (parse_number_lead false false false s tail). Qed.

Lemma is_separator_spec (c : ascii) :
  is_separator c = true ->
  Ascii.eqb c NUL = false /\ Ascii.eqb c "," = false /\
  GSM_CHARISNUM c = false.
Proof.
  unfold is_separator. intros H.
  apply andb_true_iff in H as [H H3]. apply andb_true_iff in H as [H1 H2].
  apply negb_true_iff in H1, H2, H3. auto.
Qed.

(** One field of a dotted address and the fixed step over its
    separator. *)
Lemma parse_number_then_step (s : string) (sep : ascii) (rest : string) :
  is_decimal s = true ->
  Z.abs (decimal_value s) <= INT32_MAX ->
  is_separator sep = true ->
  gsmi_parse_number (s ++ String sep rest)
    = (decimal_value s, String sep rest) /\
  step_over (String sep rest) = Some rest.
Proof.
  intros Hs Hmax Hsep.
  destruct (is_separator_spec sep Hsep) as (Hn & Hc & Hd).
  split.
  - rewrite parse_number_plain by assumption.
    rewrite skip_char_ne by exact Hc. reflexivity.
  - cbn [step_over]. rewrite Hn. reflexivity.
Qed.

(** X10: [gsmi_parse_ip] on four decimal fields, each of magnitude at most
    [INT32_MAX], with or without an opening quote: the three separators
    are stepped over without being looked at, so any character other than
    the terminator, a comma or a digit serves as one; the four values are
    stored in order, and behind the last field one comma and then one
    quote are skipped. *)
Theorem parse_ip_fields (ip_elem : Z -> Z) (lead : bool)
    (a b c d : string) (s1 s2 s3 : ascii) (tail : string) :
  is_decimal a = true -> is_decimal b = true ->
  is_decimal c = true -> is_decimal d = true ->
  Z.abs (decimal_value a) <= INT32_MAX ->
  Z.abs (decimal_value b) <= INT32_MAX ->
  Z.abs (decimal_value c) <= INT32_MAX ->
  Z.abs (decimal_value d) <= INT32_MAX ->
  is_separator s1 = true -> is_separator s2 = true ->
  is_separator s3 = true ->
  GSM_CHARISNUM (deref tail) = false ->
  gsmi_parse_ip ip_elem
    ((if lead then String DQUOTE EmptyString else EmptyString) ++
     a ++ String s1 (b ++ String s2 (c ++ String s3 (d ++ tail))))
  = Some (skip_char DQUOTE (skip_char "," tail),
          [ip_elem (decimal_value a); ip_elem (decimal_value b);
           ip_elem (decimal_value c); ip_elem (decimal_value d)]).
Proof.
  intros Ha Hb Hc Hd Ma Mb Mc Md H1 H2 H3 Ht.
  unfold gsmi_parse_ip.
  assert (Hlead : skip_char DQUOTE
            ((if lead then String DQUOTE EmptyString else EmptyString) ++
             a ++ String s1 (b ++ String s2 (c ++ String s3 (d ++ tail))))
          = (a ++ String s1 (b ++ String s2 (c ++ String s3 (d ++ tail))))%string).
  { destruct lead; cbn [append]; [apply skip_char_eq|].
    destruct (decimal_head a (String s1 (b ++ String s2 (c ++ String s3 (d ++ tail)))) Ha)
      as [Hq _].
    unfold skip_char. rewrite Hq. reflexivity. }
  rewrite Hlead.
  destruct (parse_number_then_step a s1
              (b ++ String s2 (c ++ String s3 (d ++ tail))) Ha Ma H1)
    as [-> ->].
  destruct (parse_number_then_step b s2 (c ++ String s3 (d ++ tail))
              Hb Mb H2) as [-> ->].
  destruct (parse_number_then_step c s3 (d ++ tail) Hc Mc H3) as [-> ->].
  rewrite parse_number_plain by assumption. reflexivity.
Qed.

Lemma parse_ip_fields_witness :
  gsmi_parse_ip (fun v => v mod 256)
    (String DQUOTE ("192.168.1.20" ++ String DQUOTE ",rest"))
  = Some (",rest"%string, [192; 168; 1; 20]).
Proof.
  apply (parse_ip_fields (fun v => v mod 256) true "192" "168" "1" "20"
           "." "." "." (String DQUOTE ",rest"));
    try reflexivity; vm_compute; discriminate.
Defined.

Lemma step_over_length (p p' : string) :
  step_over p = Some p' -> String.length p = S (String.length p').
Proof.
  destruct p as [|c p]; [discriminate|]. simpl.
  destruct (Ascii.eqb c NUL); [discriminate|].
  intros H. injection H as ->. reflexivity.
Qed.

Lemma parse_number_length (p : string) :
  (String.length (snd (gsmi_parse_number p)) <= String.length p)%nat.
Proof. apply is_suffix_length, parse_number_suffix. Qed.

(** X11: [gsmi_parse_ip] does not test the three characters it steps over
    between the fields: on every input on which all its reads stay inside
    the string, the text has at least 3 characters; on a shorter one,
    the empty string included, a [p++] moves the pointer past the
    terminator and the next field is read from there. *)
Theorem parse_ip_needs_separators (ip_elem : Z -> Z) (src : string) :
  (forall r, gsmi_parse_ip ip_elem src = Some r ->
             (3 <= String.length src)%nat) /\
  ((String.length src < 3)%nat -> gsmi_parse_ip ip_elem src = None).
Proof.
  assert (H : forall r, gsmi_parse_ip ip_elem src = Some r ->
                        (3 <= String.length src)%nat).
  { intros r. unfold gsmi_parse_ip.
    pose proof (length_skip_char DQUOTE src) as L0.
    pose proof (parse_number_length (skip_char DQUOTE src)) as L1.
    destruct (gsmi_parse_number (skip_char DQUOTE src)) as [v0 p0].
    cbn [snd] in L1.
    destruct (step_over p0) as [p0'|] eqn:E0; [|discriminate].
    apply step_over_length in E0.
    pose proof (parse_number_length p0') as L2.
    destruct (gsmi_parse_number p0') as [v1 p1]. cbn [snd] in L2.
    destruct (step_over p1) as [p1'|] eqn:E1; [|discriminate].
    apply step_over_length in E1.
    pose proof (parse_number_length p1') as L3.
    destruct (gsmi_parse_number p1') as [v2 p2]. cbn [snd] in L3.
    destruct (step_over p2) as [p2'|] eqn:E2; [|discriminate].
    apply step_over_length in E2. intros _. lia. }
  split; [exact H|].
  intros Hl. destruct (gsmi_parse_ip ip_elem src) as [r|] eqn:E;
    [|reflexivity].
  specialize (H r eq_refl). lia.
Qed.

Lemma parse_ip_needs_separators_witness :
  gsmi_parse_ip (fun v => v) "10" = None.
Proof.
  apply (proj2 (parse_ip_needs_separators (fun v => v) "10")).
  simpl. lia.
Defined.

Section MacFacts.

Variable mac_elem : Z -> Z.
Variable isx : ascii -> bool.
Variable val : ascii -> Z.

Hypothesis quote_not_hex : isx DQUOTE = false.
Hypothesis comma_not_hex : isx "," = false.

Lemma is_hex_separator_spec (c : ascii) :
  is_hex_separator isx c = true ->
  Ascii.eqb c NUL = false /\ Ascii.eqb c "," = false /\
  Ascii.eqb c DQUOTE = false /\ isx c = false.
Proof.
  unfold is_hex_separator. intros H.
  apply andb_true_iff in H as [H H4]. apply andb_true_iff in H as [H H3].
  apply andb_true_iff in H as [H1 H2].
  apply negb_true_iff in H1, H2, H3, H4. auto.
Qed.

Lemma parse_hexnumber_then_step (f : string) (sep : ascii) (rest : string) :
  all_hexdigits isx f = true -> is_hex_separator isx sep = true ->
  gsmi_parse_hexnumber isx val (f ++ String sep rest)
    = (wrap_u32 (hex_value val f), String sep rest) /\
  step_over (String sep rest) = Some rest.
Proof.
  intros Hf Hsep.
  destruct (is_hex_separator_spec sep Hsep) as (Hn & Hc & Hq & Hx).
  split.
  - pose proof (parse_hexnumber_lead isx val quote_not_hex comma_not_hex
                  false false false f (String sep rest) Hf) as H.
    cbn [number_lead append] in H. rewrite H.
    + rewrite skip_char_ne by exact Hc. reflexivity.
    + unfold hex_stop. cbn [deref]. rewrite Hx. apply orb_true_r.
    + right. cbn [deref]. auto.
  - cbn [step_over]. rewrite Hn. reflexivity.
Qed.

Lemma parse_mac_fields_text (fs : list (string * ascii)) :
  forall (rest : string) (acc : list Z),
    Forall (fun f => all_hexdigits isx (fst f) = true /\
                     is_hex_separator isx (snd f) = true) fs ->
    parse_mac_fields mac_elem isx val (List.length fs) (fields_text fs rest) acc
    = Some (rest,
            rev ((fun f => mac_elem (wrap_u32 (hex_value val (fst f)))) <$> fs)
            ++ acc).
Proof.
  induction fs as [|[f sep] fs IH]; intros rest acc Hok; [reflexivity|].
  apply Forall_cons in Hok as [[Hf Hsep] Hok]. cbn [fst snd] in *.
  cbn [List.length parse_mac_fields fields_text fold_right fst snd].
  fold (fields_text fs rest).
  destruct (parse_hexnumber_then_step f sep (fields_text fs rest) Hf Hsep)
    as [-> ->].
  rewrite IH by exact Hok.
  cbn [fmap list_fmap rev fst]. rewrite <- app_assoc. reflexivity.
Qed.

(** X12: [gsmi_parse_mac] on six fields of hexadecimal digits, for any
    classifier and valuation that take neither a quote nor a comma for a
    digit, with or without an opening quote: the five separators are
    stepped over without being looked at, each field is stored as its
    base-16 value modulo [2^32], in order, and behind the last field a
    comma, a quote and a comma are skipped, in that order. *)
Theorem parse_mac_fields_ok (lead : bool) (fs : list (string * ascii))
    (last tail : string) :
  List.length fs = 5%nat ->
  Forall (fun f => all_hexdigits isx (fst f) = true /\
                   is_hex_separator isx (snd f) = true) fs ->
  all_hexdigits isx last = true -> last <> EmptyString ->
  hex_stop isx tail = true ->
  gsmi_parse_mac mac_elem isx val
    ((if lead then String DQUOTE EmptyString else EmptyString) ++
     fields_text fs (last ++ tail))
  = Some (skip_char "," (skip_char DQUOTE (skip_char "," tail)),
          (fun f => mac_elem (hex_value val f mod 2 ^ 32))
            <$> ((fst <$> fs) ++ [last])).
Proof.
  intros Hlen Hok Hl Hne Ht. unfold gsmi_parse_mac.
  assert (Hhead : Ascii.eqb (deref (fields_text fs (last ++ tail))) DQUOTE
                  = false).
  { destruct fs as [|[f sep] fs]; [discriminate Hlen|].
    apply Forall_cons in Hok as [[Hf Hsep] _]. cbn [fst snd] in *.
    cbn [fields_text fold_right fst snd].
    destruct (is_hex_separator_spec sep Hsep) as (_ & Hc & Hq & _).
    apply (hexdigits_head isx quote_not_hex comma_not_hex f _ Hf).
    right. cbn [deref]. auto. }
  assert (Hlead : skip_char DQUOTE
            ((if lead then String DQUOTE EmptyString else EmptyString) ++
             fields_text fs (last ++ tail))
          = fields_text fs (last ++ tail)).
  { destruct lead; cbn [append]; [apply skip_char_eq|].
    unfold skip_char. rewrite Hhead. reflexivity. }
  rewrite Hlead. rewrite <- Hlen.
  rewrite (parse_mac_fields_text fs (last ++ tail) [] Hok).
  pose proof (parse_hexnumber_lead isx val quote_not_hex comma_not_hex
                false false false last tail Hl Ht (or_introl Hne)) as H.
  cbn [number_lead append] in H. rewrite H.
  f_equal. f_equal. rewrite app_nil_r.
  rewrite fmap_app, <- list_fmap_compose. cbn [fmap list_fmap].
  rewrite <- rev_unit. rewrite rev_app_distr. cbn [rev app].
  rewrite rev_involutive. reflexivity.
Qed.

End MacFacts.

Lemma parse_mac_fields_ok_witness :
  gsmi_parse_mac (fun v => v mod 256) is_hex_digit hex_digit_value
    (String DQUOTE ("00:1a:2B:3c:4D:5e" ++ String DQUOTE ",rest"))
  = Some ("rest"%string, [0; 26; 43; 60; 77; 94]).
Proof.
  apply (parse_mac_fields_ok (fun v => v mod 256) is_hex_digit hex_digit_value
           eq_refl eq_refl true
           [("00"%string, ":"%char); ("1a"%string, ":"%char);
            ("2B"%string, ":"%char); ("3c"%string, ":"%char);
            ("4D"%string, ":"%char)]
           "5e" (String DQUOTE ",rest")).
  - reflexivity.
  - repeat constructor.
  - reflexivity.
  - discriminate.
  - reflexivity.
Defined.

(** ** Memory masks *)

Lemma land_pow2 (a k : Z) :
  0 <= k -> Z.land a (2 ^ k) = if Z.testbit a k then 2 ^ k else 0.
Proof.
  intros Hk. apply Z.bits_inj'. intros n Hn.
  rewrite Z.land_spec.
  destruct (Z.eq_dec n k) as [-> | Hne].
  - rewrite Z.pow2_bits_true by lia.
    destruct (Z.testbit a k); [rewrite Z.pow2_bits_true by lia|rewrite Z.bits_0];
      reflexivity.
  - rewrite (Z.pow2_bits_false k n) by lia. rewrite andb_false_r.
    destruct (Z.testbit a k);
      [rewrite Z.pow2_bits_false by lia | rewrite Z.bits_0]; reflexivity.
Qed.

Lemma mem_bit_testbit (m k : Z) :
  0 <= m < 32 -> 0 <= k ->
  Z.testbit (mem_bit m) k = (k =? m).
Proof.
  intros Hm Hk. unfold mem_bit, GSM_U32, wrap_u32.
  rewrite (Z.mod_small m) by lia. rewrite Z.shiftl_1_l.
  rewrite Z.mod_small
    by (split; [apply Z.pow_nonneg; lia | apply Z.pow_lt_mono_r; lia]).
  destruct (k =? m) eqn:E.
  - apply Z.eqb_eq in E. subst k. apply Z.pow2_bits_true. lia.
  - apply Z.eqb_neq in E. apply Z.pow2_bits_false. lia.
Qed.

Lemma memory_mask_fold (ms : list gsm_mem_t) :
  forall (acc k : Z),
    Forall (fun m => 0 <= m < 32) ms -> 0 <= k ->
    Z.testbit (fold_left (fun a m => Z.lor a (mem_bit m)) ms acc) k
    = Z.testbit acc k || existsb (Z.eqb k) ms.
Proof.
  induction ms as [|m ms IH]; intros acc k Hms Hk.
  - simpl. rewrite orb_false_r. reflexivity.
  - apply Forall_cons in Hms as [Hm Hms]. cbn [fold_left existsb].
    rewrite IH by assumption.
    rewrite Z.lor_spec, mem_bit_testbit by assumption.
    rewrite orb_assoc. reflexivity.
Qed.

Lemma memory_mask_testbit (ms : list gsm_mem_t) (k : Z) :
  Forall (fun m => 0 <= m < 32) ms -> 0 <= k ->
  (Z.testbit (memory_mask ms) k = true <-> k ∈ ms).
Proof.
  intros Hms Hk. unfold memory_mask.
  rewrite memory_mask_fold by assumption.
  rewrite Z.bits_0. cbn [orb]. rewrite existsb_exists. split.
  - intros [x [Hx Hkx]]. apply Z.eqb_eq in Hkx. subst x.
    apply list_elem_of_In. exact Hx.
  - intros Hin. exists k. split; [apply list_elem_of_In; exact Hin|].
    apply Z.eqb_refl.
Qed.

(** X13: the bitmask [gsmi_parse_memories_string] returns for a bracketed
    list of known names has bit [k] set exactly when selector [k] is the
    selector of one of the names, as long as all the selectors are in
    0..31: no memory of the list is lost and none is made up. *)
Theorem memory_mask_bits (map : list gsm_dev_mem_map_t) (unknown : gsm_mem_t)
    (es : list gsm_dev_mem_map_t) (tail : string) :
  es <> [] -> known_entries map unknown es ->
  Forall (fun e => 0 <= mem e < 32) es ->
  exists mask,
    gsmi_parse_memories_string map unknown (memory_list es tail)
    = Some (tail, mask) /\
    forall k, 0 <= k ->
      (Z.testbit mask k = true <-> exists e, e ∈ es /\ mem e = k).
Proof.
  intros Hne Hk Hr. exists (memory_mask (mem <$> es)). split.
  - destruct es as [|e es]; [congruence|].
    pose proof (parse_memories_string_names map unknown e es (String ")" tail)
                  Hk (or_intror eq_refl)) as H.
    rewrite skip_char_eq in H. exact H.
  - intros k Hk0. rewrite memory_mask_testbit; [|
      apply Forall_fmap; exact Hr | exact Hk0].
    rewrite list_elem_of_fmap. split.
    + intros [e [-> He]]. exists e. auto.
    + intros [e [He <-]]. exists e. auto.
Qed.

Lemma memory_mask_bits_witness :
  exists mask,
    gsmi_parse_memories_string
      [ {| mem_str := "SM"; mem := 0 |}; {| mem_str := "ME"; mem := 2 |} ] 31
      (memory_list [ {| mem_str := "ME"; mem := 2 |} ] "x")
    = Some ("x"%string, mask) /\
    forall k, 0 <= k ->
      (Z.testbit mask k = true
       <-> exists e, e ∈ [ {| mem_str := "ME"; mem := 2 |} ] /\ mem e = k).
Proof.
  apply (memory_mask_bits
           [ {| mem_str := "SM"; mem := 0 |}; {| mem_str := "ME"; mem := 2 |} ]
           31 [ {| mem_str := "ME"; mem := 2 |} ] "x").
  - discriminate.
  - intros x Hx. apply list_elem_of_In in Hx. destruct Hx as [<- | []].
    split; [|discriminate]. exists 1%nat. split; [reflexivity|].
    intros j e' tail Hj He'. destruct j as [|j]; [|lia].
    injection He' as <-. intros [t Ht]. discriminate Ht.
  - repeat constructor; simpl; lia.
Defined.

(** X14: [check_sms_mem] accepts a selector in 0..31 below [GSM_MEM_END]
    exactly when its bit is set in the mask of available memories, the
    selector [GSM_MEM_CURRENT] whenever [can_curr] is set, and, bit or no
    bit, nothing that is neither below [GSM_MEM_END] nor an allowed
    [GSM_MEM_CURRENT]. *)
Theorem check_sms_mem_spec (mem_end mem_current : gsm_mem_t)
    (mask : Z) (m : gsm_mem_t) (can_curr : bool) :
  (0 <= m < 32 -> m < mem_end ->
   can_curr = false \/ m <> mem_current ->
   (check_sms_mem mem_end mem_current mask m can_curr = SmsApi.gsmOK
    <-> Z.testbit mask m = true)) /\
  (can_curr = true ->
   check_sms_mem mem_end mem_current mask mem_current can_curr
   = SmsApi.gsmOK) /\
  (mem_end <= m -> can_curr = false \/ m <> mem_current ->
   check_sms_mem mem_end mem_current mask m can_curr = SmsApi.gsmERRMEM).
Proof.
  unfold check_sms_mem. split; [|split].
  - intros Hm Hend Hcur.
    assert (Hc : can_curr && (m =? mem_current) = false).
    { destruct Hcur as [-> | Hne]; [reflexivity|].
      apply Z.eqb_neq in Hne. rewrite Hne. apply andb_false_r. }
    rewrite Hc, orb_false_r.
    apply Z.ltb_lt in Hend. rewrite Hend. cbn [andb].
    rewrite mem_bit_small by lia. rewrite land_pow2 by lia.
    assert (Hp : 0 < 2 ^ m) by (apply Z.pow_pos_nonneg; lia).
    destruct (Z.testbit mask m).
    + replace (2 ^ m =? 0) with false by (symmetry; apply Z.eqb_neq; lia).
      split; reflexivity.
    + split; discriminate.
  - intros ->. rewrite Z.eqb_refl. cbn [andb]. rewrite orb_true_r.
    reflexivity.
  - intros Hend Hcur.
    assert (Hc : can_curr && (m =? mem_current) = false).
    { destruct Hcur as [-> | Hne]; [reflexivity|].
      apply Z.eqb_neq in Hne. rewrite Hne. apply andb_false_r. }
    rewrite Hc, orb_false_r.
    replace (m <? mem_end) with false by (symmetry; apply Z.ltb_ge; lia).
    reflexivity.
Qed.

Lemma check_sms_mem_spec_witness :
  (check_sms_mem 3 4 (memory_mask [0; 2]) 2 true = SmsApi.gsmOK
   <-> Z.testbit (memory_mask [0; 2]) 2 = true) /\
  check_sms_mem 3 4 (memory_mask [0; 2]) 4 true = SmsApi.gsmOK /\
  check_sms_mem 3 4 (memory_mask [0; 2]) 5 true = SmsApi.gsmERRMEM.
Proof.
  split; [|split].
  - apply (proj1 (check_sms_mem_spec 3 4 (memory_mask [0; 2]) 2 true));
      [lia | lia | right; lia].
  - apply (proj1 (proj2 (check_sms_mem_spec 3 4 (memory_mask [0; 2]) 4 true))).
    reflexivity.
  - apply (proj2 (proj2 (check_sms_mem_spec 3 4 (memory_mask [0; 2]) 5 true)));
      [lia | right; lia].
Defined.

(** ** Unknown memory names *)

Section UnknownNames.

Variable map : list gsm_dev_mem_map_t.
Variable unknown : gsm_mem_t.

Lemma parse_memory_unknown (lead : bool) (w tail : string) :
  (forall e, e ∈ map -> ~ is_prefix (entry_name e) (w ++ tail)) ->
  gsmi_parse_memory map unknown
    ((if lead then String "," (String DQUOTE w) else String DQUOTE w) ++ tail)
  = (unknown,
     skip_char DQUOTE (fst (gsmi_parse_string (w ++ tail) None 0 true))).
Proof.
  intros Hno.
  assert (Hb : skip_char DQUOTE
                 (skip_char ","
                    ((if lead then String "," (String DQUOTE w)
                      else String DQUOTE w) ++ tail))
               = (w ++ tail)%string).
  { destruct lead; cbn [append].
    - rewrite !skip_char_eq. reflexivity.
    - rewrite skip_char_ne by reflexivity. apply skip_char_eq. }
  rewrite (parse_memory_no_match map unknown _); rewrite Hb; auto.
Qed.

(** The string skip on a token that starts with neither a comma nor a
    quote is the loop itself. *)
Lemma parse_string_skip_plain (s : string) :
  Ascii.eqb (deref s) "," = false -> Ascii.eqb (deref s) DQUOTE = false ->
  fst (gsmi_parse_string s None 0 true)
  = fst (fst (parse_string_loop s None 0 0 true)).
Proof.
  intros Hc Hq. unfold gsmi_parse_string, skip_char.
  rewrite Hc, Hq. cbn [Nat.pred].
  destruct (parse_string_loop s None 0 0 true) as [[p d] i]. reflexivity.
Qed.

(** X15: a quoted name that no table entry matches, closed by a quote and
    a comma, CR or LF: [gsmi_parse_memory] returns the unknown selector
    and leaves the cursor behind the closing quote, on the character that
    follows it, as it does for a known name. *)
Theorem parse_memory_unknown_token (lead : bool) (w : string) (c : ascii)
    (rest : string) :
  w <> EmptyString -> nul_free w = true -> quote_free w = true ->
  Ascii.eqb (deref w) "," = false ->
  ends_field c = true ->
  (forall e, e ∈ map ->
     ~ is_prefix (entry_name e) (w ++ String DQUOTE (String c rest))) ->
  gsmi_parse_memory map unknown
    ((if lead then String "," (quoted w) else quoted w) ++ String c rest)
  = (unknown, String c rest).
Proof.
  intros Hne Hn Hq Hwc Hc Hno.
  assert (Ht : ((if lead then String "," (quoted w) else quoted w)
                ++ String c rest)%string
               = ((if lead then String "," (String DQUOTE w)
                   else String DQUOTE w)
                  ++ String DQUOTE (String c rest))%string).
  { unfold quoted. destruct lead; cbn [append];
      rewrite string_app_assoc; reflexivity. }
  rewrite Ht, parse_memory_unknown by exact Hno. f_equal.
  rewrite parse_string_skip_plain.
  - rewrite parse_string_loop_to_quote by assumption.
    cbn [fst]. apply skip_char_ne, ends_field_not_quote, Hc.
  - destruct w; [congruence | exact Hwc].
  - destruct w as [|x w]; [congruence|]. cbn [quote_free] in Hq.
    apply andb_true_iff in Hq as [Hx _]. apply negb_true_iff in Hx.
    exact Hx.
Qed.




End UnknownNames.

Lemma parse_memory_unknown_token_witness :
  gsmi_parse_memory [ {| mem_str := "SM"; mem := 2 |} ] 31
    (String "," (quoted "XX") ++ String "," "7")
  = (31, ",7"%string).
Proof.
  apply (parse_memory_unknown_token [ {| mem_str := "SM"; mem := 2 |} ] 31
           true "XX" "," "7"); try reflexivity.
  - discriminate.
  - intros e He [t Ht]. apply list_elem_of_In in He.
    destruct He as [<- | []]. discriminate Ht.
Defined.


(** * Further properties of the line parsers *)

(** ** The fixed skip behind [+] *)

Lemma advance_checked_app (a b : string) :
  nul_free a = true -> advance_checked (String.length a) (a ++ b) = Some b.
Proof.
  induction a as [|c a IH]; [reflexivity|].
  cbn [nul_free String.length append advance_checked].
  intros H. apply andb_true_iff in H as [Hc Ha]. apply negb_true_iff in Hc.
  rewrite Hc. apply IH. exact Ha.
Qed.

Lemma cpin_body_plus (p body : string) :
  nul_free p = true -> String.length p = 6%nat ->
  cpin_body (String "+" (p ++ body)) = Some body.
Proof.
  intros Hn Hl. unfold cpin_body. cbn [deref].
  change (Ascii.eqb "+" "+") with true. cbv iota.
  change 7%nat with (S 6). rewrite <- Hl.
  change (String "+" (p ++ body)) with (String "+" p ++ body)%string.
  change (S (String.length p)) with (String.length (String "+" p)).
  apply advance_checked_app. cbn [nul_free]. rewrite Hn. reflexivity.
Qed.

Lemma advance_checked_short (n : nat) (s : string) :
  (strlen s < n)%nat -> advance_checked n s = None.
Proof.
  revert s. induction n as [|n IH]; intros s Hs; [lia|].
  destruct s as [|c s]; [reflexivity|].
  cbn [advance_checked]. unfold strlen in Hs. cbn [c_chars] in Hs.
  destruct (Ascii.eqb c NUL); [reflexivity|].
  apply IH. unfold strlen. simpl in Hs. lia.
Qed.

(** X17: the skip behind a leading [+] of [gsmi_parse_cpin] is fixed and
    blind: whatever the six characters behind the [+] are, they are
    dropped and the rest is matched as a body given without prefix is; a
    line of fewer than 7 characters that starts with [+] sends the
    pointer past the terminator. *)
Theorem cpin_fixed_skip (p body : string) (send_evt : bool) (g : gsm_t) :
  (nul_free p = true -> String.length p = 6%nat ->
   Ascii.eqb (deref body) "+" = false ->
   gsmi_parse_cpin (String "+" (p ++ body)) send_evt g
   = gsmi_parse_cpin body send_evt g) /\
  ((strlen (String "+" p) < 7)%nat ->
   gsmi_parse_cpin (String "+" p) send_evt g = None).
Proof.
  split.
  - intros Hn Hl Hb. unfold gsmi_parse_cpin.
    rewrite cpin_body_plus by assumption.
    unfold cpin_body. rewrite Hb. reflexivity.
  - intros Hs. unfold gsmi_parse_cpin, cpin_body. cbn [deref].
    change (Ascii.eqb "+" "+") with true. cbv iota.
    rewrite advance_checked_short by exact Hs. reflexivity.
Qed.

Lemma cpin_fixed_skip_witness :
  gsmi_parse_cpin "+XYZ12 READY" false
    {| sim_state := GSM_SIM_STATE_PUK; cb_cpin_state := GSM_SIM_STATE_PUK;
       ext_calls := [] |}
  = gsmi_parse_cpin "READY" false
      {| sim_state := GSM_SIM_STATE_PUK; cb_cpin_state := GSM_SIM_STATE_PUK;
         ext_calls := [] |} /\
  gsmi_parse_cpin "+CPIN" false
    {| sim_state := GSM_SIM_STATE_PUK; cb_cpin_state := GSM_SIM_STATE_PUK;
       ext_calls := [] |} = None.
Proof.
  split.
  - apply (proj1 (cpin_fixed_skip "XYZ12 " "READY" false _)); reflexivity.
  - apply (proj2 (cpin_fixed_skip "CPIN" EmptyString false _)).
    vm_compute. lia.
Defined.

(** ** [gsmi_parse_cmti], [gsmi_parse_cmgs], [gsmi_parse_cmgr] *)

(** X18: [gsmi_parse_cmti] on a line made of the 7-character prefix, a
    quoted memory name found first in the table, a comma and a decimal
    position: it delivers the selector of the name and the position, the
    comma between them being consumed as the leading comma of the number,
    and sends the event exactly when asked to. *)
Theorem parse_cmti_line (map : list gsm_dev_mem_map_t) (unknown : gsm_mem_t)
    (p : string) (e : gsm_dev_mem_map_t) (d tail : string) (send_evt : bool) :
  nul_free p = true -> String.length p = 6%nat ->
  first_named map e -> mem e <> unknown ->
  is_decimal d = true -> Z.abs (decimal_value d) <= INT32_MAX ->
  GSM_CHARISNUM (deref tail) = false ->
  gsmi_parse_cmti map unknown
    (String "+" (p ++ quoted (entry_name e) ++ String "," (d ++ tail)))
    send_evt
  = Some (mem e, decimal_value d, send_evt).
Proof.
  intros Hn Hl Hfn Hne Hd Hmax Ht. unfold gsmi_parse_cmti.
  rewrite cpin_body_plus by assumption.
  destruct (parse_memory_quoted_name map unknown e (String "," (d ++ tail))
              Hfn Hne) as [-> _].
  change (String "," (d ++ tail))
    with (number_lead false true false ++ d ++ tail)%string.
  rewrite parse_number_lead by assumption. reflexivity.
Qed.

Lemma parse_cmti_line_witness :
  gsmi_parse_cmti [ {| mem_str := "SM"; mem := 0 |} ] 31
    ("+CMTI: " ++ quoted "SM" ++ String "," ("12" ++ String CR (String LF "")))
    true
  = Some (0, 12, true).
Proof.
  apply (parse_cmti_line [ {| mem_str := "SM"; mem := 0 |} ] 31 "CMTI: "
           {| mem_str := "SM"; mem := 0 |} "12" (String CR (String LF "")) true);
    try reflexivity.
  - exists 0%nat. split; [reflexivity|]. intros j e' tail Hj. lia.
  - discriminate.
  - vm_compute. discriminate.
Defined.

(** X19: [gsmi_parse_cmgs] keeps the reference of the sent message in a
    [uint16_t]: on the prefix and a decimal number the event, when asked
    for, carries the number modulo 65536, and without [send_evt] nothing
    is reported. *)
Theorem parse_cmgs_line (p d tail : string) (send_evt : bool) :
  nul_free p = true -> String.length p = 6%nat ->
  is_decimal d = true -> Z.abs (decimal_value d) <= INT32_MAX ->
  GSM_CHARISNUM (deref tail) = false ->
  gsmi_parse_cmgs (String "+" (p ++ d ++ tail)) send_evt
  = Some (if send_evt then Some (decimal_value d mod 2 ^ 16) else None).
Proof.
  intros Hn Hl Hd Hmax Ht. unfold gsmi_parse_cmgs.
  rewrite cpin_body_plus by assumption.
  rewrite parse_number_plain by assumption. reflexivity.
Qed.

Lemma parse_cmgs_line_witness :
  gsmi_parse_cmgs "+CMGS: 65537" true = Some (Some 1).
Proof.
  apply (parse_cmgs_line "CMGS: " "65537" EmptyString true);
    try reflexivity.
  vm_compute. discriminate.
Defined.

(** X20: [gsmi_parse_cmgr] on a line made of the prefix, a quoted status
    and a quoted sender number: the number is stored, cut to the size of
    its array, whatever the status is; the status of the entry is set when
    the first 10 characters of the status token are one of the four
    literals and is left as it was otherwise, without the failure of the
    status parser being reported. *)
Theorem parse_cmgr_line (t0 : list ascii) (p st nb : string) (c : ascii)
    (rest : string) (e : gsm_sms_entry_t) :
  nul_free p = true -> String.length p = 6%nat ->
  List.length t0 = 11%nat ->
  nul_free st = true -> quote_free st = true ->
  nul_free nb = true -> quote_free nb = true ->
  ends_field c = true ->
  (1 <= List.length (sms_entry_number e))%nat ->
  exists number,
    gsmi_parse_cmgr t0
      (String "+" (p ++ quoted st ++ String "," (quoted nb) ++ String c rest)) e
    = Some {| sms_entry_status :=
                match sms_status_of_literal (first_chars 10 st) with
                | Some s => s
                | None => sms_entry_status e
                end;
              sms_entry_number := number |} /\
    buf_string number
    = first_chars (List.length (sms_entry_number e) - 1) nb /\
    List.length number = List.length (sms_entry_number e).
Proof.
  intros Hn Hl Ht Hsn Hsq Hnn Hnq Hc Hlen.
  exists (copied (first_chars (List.length (sms_entry_number e) - 1) nb)
            (sms_entry_number e)).
  split; [|split].
  - unfold gsmi_parse_cmgr. rewrite cpin_body_plus by assumption.
    cbn [append].
    rewrite (sms_status_first_chars t0 st
               (quoted nb ++ String c rest) (sms_entry_status e) Ht Hsn Hsq).
    assert (Hnum : gsmi_parse_string
                     (String "," (quoted nb ++ String c rest))
                     (Some (sms_entry_number e))
                     (List.length (sms_entry_number e)) true
                   = (String c rest,
                      Some (copied
                              (first_chars
                                 (List.length (sms_entry_number e) - 1) nb)
                              (sms_entry_number e)))).
    { apply (parse_string_token true nb c rest); auto. }
    destruct (sms_status_of_literal (first_chars 10 st)) as [s|];
      rewrite Hnum;
      destruct (gsmi_parse_string (String c rest) None 0 true);
      reflexivity.
  - apply buf_string_copied, first_chars_nul_free, Hnn.
  - unfold copied. rewrite length_app, length_list_ascii_of_string.
    cbn [List.length]. rewrite length_drop.
    pose proof (first_chars_length (List.length (sms_entry_number e) - 1) nb).
    lia.
Qed.

Lemma parse_cmgr_line_witness :
  exists number,
    gsmi_parse_cmgr (replicate 11 NUL)
      ("+CMGR: " ++ quoted "READ" ++ String "," (quoted "+38640123456")
       ++ String "," "x")
      {| sms_entry_status := GSM_SMS_STATUS_SENT;
         sms_entry_number := replicate 8 NUL |}
    = Some {| sms_entry_status := GSM_SMS_STATUS_SENT;
              sms_entry_number := number |} /\
    buf_string number = "+386401"%string /\
    List.length number = 8%nat.
Proof.
  apply (parse_cmgr_line (replicate 11 NUL) "CMGR: " "READ" "+38640123456"
           "," "x"
           {| sms_entry_status := GSM_SMS_STATUS_SENT;
              sms_entry_number := replicate 8 NUL |});
    try reflexivity.
  simpl. lia.
Defined.

(** ** [gsmi_parse_cpms] and [gsmi_parse_cpbs] *)

Section StorageFacts.

Variable map : list gsm_dev_mem_map_t.
Variable unknown : gsm_mem_t.



End StorageFacts.


(** ** [gsmi_parse_clcc] *)

Lemma parse_number_comma (d rest : string) :
  is_decimal d = true -> Z.abs (decimal_value d) <= INT32_MAX ->
  gsmi_parse_number (d ++ String "," rest) = (decimal_value d, rest).
Proof.
  intros Hd Hmax. rewrite parse_number_plain by (assumption || reflexivity).
  rewrite skip_char_eq. reflexivity.
Qed.

(** X22: [gsmi_parse_clcc] on a well-formed call-status line (the prefix,
    five decimal fields, the quoted number, the decimal address type and
    the quoted name, separated by commas and closed by a comma, CR or LF)
    fills [gsm.call] field by field in that order: the tokenizers hand the
    cursor to one another, each comma being consumed either behind a
    number or in front of the next token; the two strings are cut to the
    sizes of their arrays; the event is sent exactly when asked for. *)
Theorem parse_clcc_line (p d1 d2 d3 d4 d5 nb d6 nm : string) (c : ascii)
    (rest : string) (send_evt : bool) (call : gsm_call_t) :
  nul_free p = true -> String.length p = 6%nat ->
  Forall (fun d => is_decimal d = true /\ Z.abs (decimal_value d) <= INT32_MAX)
         [d1; d2; d3; d4; d5; d6] ->
  nul_free nb = true -> quote_free nb = true ->
  nul_free nm = true -> quote_free nm = true ->
  ends_field c = true ->
  (1 <= List.length (call_number call))%nat ->
  (1 <= List.length (call_name call))%nat ->
  exists number name,
    gsmi_parse_clcc
      (String "+"
         (p ++ d1 ++ String "," (d2 ++ String "," (d3 ++ String ","
            (d4 ++ String "," (d5 ++ String ","
               (quoted nb ++ String "," (d6 ++ String ","
                  (quoted nm ++ String c rest)))))))))
      send_evt call
    = Some ({| call_id := decimal_value d1; call_dir := decimal_value d2;
               call_state := decimal_value d3; call_type := decimal_value d4;
               call_is_multipart := decimal_value d5;
               call_number := number;
               call_addr_type := decimal_value d6;
               call_name := name |}, send_evt) /\
    buf_string number = first_chars (List.length (call_number call) - 1) nb /\
    buf_string name = first_chars (List.length (call_name call) - 1) nm.
Proof.
  intros Hn Hl Hds Hbn Hbq Hmn Hmq Hc Ln Lm.
  repeat (apply Forall_cons in Hds as [[? ?] Hds]).
  exists (copied (first_chars (List.length (call_number call) - 1) nb)
            (call_number call)),
         (copied (first_chars (List.length (call_name call) - 1) nm)
            (call_name call)).
  split; [|split].
  - unfold gsmi_parse_clcc. rewrite cpin_body_plus by assumption.
    rewrite !parse_number_comma by assumption.
    rewrite (parse_string_token false nb "," _ (call_number call)
               (List.length (call_number call)) true)
      by (auto || lia).
    change (String "," (d6 ++ String "," (quoted nm ++ String c rest)))
      with (number_lead false true false ++ d6
            ++ String "," (quoted nm ++ String c rest))%string.
    rewrite parse_number_lead by (assumption || reflexivity).
    rewrite skip_char_eq.
    rewrite (parse_string_token false nm c rest (call_name call)
               (List.length (call_name call)) true)
      by (auto || lia).
    reflexivity.
  - apply buf_string_copied, first_chars_nul_free, Hbn.
  - apply buf_string_copied, first_chars_nul_free, Hmn.
Qed.

Lemma parse_clcc_line_witness :
  exists number name,
    gsmi_parse_clcc
      ("+CLCC: 1,1,4,0,0," ++ quoted "+38640123456" ++ ",145," ++ quoted "Bob"
       ++ String CR (String LF ""))
      true
      {| call_id := 0; call_dir := 0; call_state := 0; call_type := 0;
         call_is_multipart := 0; call_number := replicate 20 NUL;
         call_addr_type := 0; call_name := replicate 3 NUL |}
    = Some ({| call_id := 1; call_dir := 1; call_state := 4; call_type := 0;
               call_is_multipart := 0; call_number := number;
               call_addr_type := 145; call_name := name |}, true) /\
    buf_string number = "+38640123456"%string /\
    buf_string name = "Bo"%string.
Proof.
  apply (parse_clcc_line "CLCC: " "1" "1" "4" "0" "0" "+38640123456" "145"
           "Bob" CR (String LF "") true
           {| call_id := 0; call_dir := 0; call_state := 0; call_type := 0;
              call_is_multipart := 0; call_number := replicate 20 NUL;
              call_addr_type := 0; call_name := replicate 3 NUL |});
    try reflexivity; try (simpl; lia).
  repeat constructor; vm_compute; discriminate.
Defined.

(** * Further properties of the operator scanner *)

(** ** What a call can change *)

Lemma cops_scan_step_frame (ch : ascii) (reset : bool) (st : cops_state) :
  let st' := gsmi_parse_cops_scan ch reset st in
  opsl (cops st') = opsl (cops st) /\
  List.length (ops (cops st')) = List.length (ops (cops st)) /\
  (opsi (cops st) <= opsi (cops st'))%nat /\
  ((opsi (cops st) <= opsl (cops st))%nat ->
   (opsi (cops st') <= opsl (cops st'))%nat) /\
  (opf (cops st) = Some (opsi (cops st)) ->
   opf (cops st') = Some (opsi (cops st'))) /\
  (forall j, j <> opsi (cops st) ->
             ops (cops st') !! j = ops (cops st) !! j).
Proof.
  unfold gsmi_parse_cops_scan.
  destruct reset; [cbn; auto 10|].
  destruct (ccd (u st) || (opsl (cops st) <=? opsi (cops st))%nat) eqn:Ef;
    [cbn; auto 10|].
  apply orb_false_iff in Ef as [_ Ef]. apply Nat.leb_gt in Ef.
  destruct (bo (u st)).
  - destruct (Ascii.eqb ch ")").
    + cbn. repeat split; auto; try lia. intros ->. reflexivity.
    + destruct (Ascii.eqb ch ","); [cbn; auto 10|].
      destruct (negb (Ascii.eqb ch DQUOTE)); [|cbn; auto 10].
      destruct (ops (cops st) !! opsi (cops st)) as [o|]; [|cbn; auto 10].
      destruct (cops_term _ _ _ _) as [o' tp']. cbn.
      repeat split; auto.
      * apply length_insert.
      * intros j Hj. apply list_lookup_insert_ne. congruence.
  - destruct (Ascii.eqb ch "("); [cbn; auto 10|].
    destruct (Ascii.eqb ch "," && Ascii.eqb (ch_prev (u st)) ",");
      cbn; auto 10.
Qed.

(** X23: whatever characters and resets the scanner is fed, the operator
    array keeps its size, the index of the entry being filled never goes
    back and never passes the capacity, a count that started equal to the
    index stays equal to it, and the entries below the index, the records
    already counted, are never written again. *)
Theorem cops_scan_counted_entries (calls : list (ascii * bool)) :
  forall st : cops_state,
    (opsi (cops st) <= opsl (cops st))%nat ->
    let st' := cops_run calls st in
    opsl (cops st') = opsl (cops st) /\
    List.length (ops (cops st')) = List.length (ops (cops st)) /\
    (opsi (cops st) <= opsi (cops st') <= opsl (cops st))%nat /\
    (opf (cops st) = Some (opsi (cops st)) ->
     opf (cops st') = Some (opsi (cops st'))) /\
    (forall j, (j < opsi (cops st))%nat ->
               ops (cops st') !! j = ops (cops st) !! j).
Proof.
  unfold cops_run.
  induction calls as [|[ch reset] calls IH]; intros st Hle.
  - cbn. repeat split; auto; lia.
  - cbn [fold_left fst snd].
    destruct (cops_scan_step_frame ch reset st) as (Hl & Hn & Hi & Hb & Hf & Hk).
    destruct (IH (gsmi_parse_cops_scan ch reset st) (Hb Hle))
      as (Hl' & Hn' & Hi' & Hf' & Hk').
    cbv zeta in *. repeat split.
    + congruence.
    + congruence.
    + lia.
    + lia.
    + intros H. apply Hf', Hf, H.
    + intros j Hj. rewrite Hk' by lia. apply Hk. lia.
Qed.

Lemma cops_scan_counted_entries_witness :
  let st := cops_feed "(2,a,b,5)"
              (cops_start {| ops := [operator_zero; operator_zero];
                             opsl := 2; opsi := 0; opf := Some 0%nat |}) in
  let st' := cops_run [(","%char, false); ("("%char, true); ("9"%char, false);
                       ("("%char, false); ("7"%char, false)] st in
  ops (cops st') !! 0%nat = ops (cops st) !! 0%nat /\
  stat <$> ops (cops st') !! 0%nat = Some 2.
Proof.
  intros st st'.
  destruct (cops_scan_counted_entries
              [(","%char, false); ("("%char, true); ("9"%char, false);
               ("("%char, false); ("7"%char, false)] st)
    as (_ & _ & _ & _ & Hk); [vm_compute; lia|].
  split.
  - apply Hk. vm_compute. lia.
  - vm_compute. reflexivity.
Defined.

(** ** One record, end to end *)

Lemma list_ascii_of_string_app (a b : string) :
  list_ascii_of_string (a ++ b)
  = list_ascii_of_string a ++ list_ascii_of_string b.
Proof. induction a as [|c a IH]; simpl; [reflexivity | rewrite IH; reflexivity]. Qed.

Lemma cops_feed_app (a b : string) (st : cops_state) :
  cops_feed (a ++ b) st = cops_feed b (cops_feed a st).
Proof.
  unfold cops_feed. rewrite list_ascii_of_string_app. apply fold_left_app.
Qed.

Lemma cops_feed_cons (c : ascii) (s : string) (st : cops_state) :
  cops_feed (String c s) st = cops_feed s (gsmi_parse_cops_scan c false st).
Proof. reflexivity. Qed.

Section RecordFacts.

Variable ops0 : list gsm_operator_t.
Variable l i : nat.
Variable f : option nat.

Hypothesis index_free : (i < l)%nat.
Hypothesis index_inside : (i < List.length ops0)%nat.

Lemma leb_index : (l <=? i)%nat = false.
Proof. apply Nat.leb_gt. exact index_free. Qed.

Lemma cops_step_open (t p : nat) (prev : ascii) (os : list gsm_operator_t) :
  gsmi_parse_cops_scan "(" false (cops_mk false false t p prev os l i f)
  = cops_mk true false t p "(" os l i f.
Proof.
  unfold gsmi_parse_cops_scan, cops_mk. cbn [u cops bo ccd tn tp ch_prev opsl opsi].
  rewrite leb_index. reflexivity.
Qed.

Lemma cops_step_comma (t p : nat) (prev : ascii) (os : list gsm_operator_t) :
  gsmi_parse_cops_scan "," false (cops_mk true false t p prev os l i f)
  = cops_mk true false ((t + 1) mod 4) 0 "," os l i f.
Proof.
  unfold gsmi_parse_cops_scan, cops_mk. cbn [u cops bo ccd tn tp ch_prev opsl opsi].
  rewrite leb_index. reflexivity.
Qed.

Lemma cops_step_close (t p : nat) (prev : ascii) (os : list gsm_operator_t) :
  gsmi_parse_cops_scan ")" false (cops_mk true false t p prev os l i f)
  = cops_mk false false 0 0 ")" os l (S i) (option_map (fun _ => S i) f).
Proof.
  unfold gsmi_parse_cops_scan, cops_mk. cbn [u cops bo ccd tn tp ch_prev opsl opsi].
  rewrite leb_index. reflexivity.
Qed.

Lemma cops_step_data (ch : ascii) (t p : nat) (prev : ascii)
    (o : gsm_operator_t) :
  Ascii.eqb ch "," = false -> Ascii.eqb ch ")" = false ->
  gsmi_parse_cops_scan ch false
    (cops_mk true false t p prev (<[i:=o]> ops0) l i f)
  = cops_mk true false t (snd (field_fold t (String ch EmptyString) o p)) ch
      (<[i:=fst (field_fold t (String ch EmptyString) o p)]> ops0) l i f.
Proof.
  intros Hc Hb.
  unfold gsmi_parse_cops_scan, cops_mk.
  cbn [u cops bo ccd tn tp ch_prev opsl opsi ops opf].
  rewrite leb_index, Hc, Hb. cbn [orb field_fold].
  destruct (Ascii.eqb ch DQUOTE); cbn [negb fst snd].
  - reflexivity.
  - rewrite list_lookup_insert_eq by exact index_inside.
    destruct (cops_term t p ch o) as [o' p']. cbn [fst snd].
    rewrite list_insert_insert_eq. reflexivity.
Qed.

Lemma field_fold_cons (t : nat) (c : ascii) (w : string)
    (o : gsm_operator_t) (p : nat) :
  field_fold t (String c w) o p
  = field_fold t w (fst (field_fold t (String c EmptyString) o p))
      (snd (field_fold t (String c EmptyString) o p)).
Proof.
  cbn [field_fold]. destruct (Ascii.eqb c DQUOTE); [reflexivity|].
  destruct (cops_term t p c o). reflexivity.
Qed.

(** Feeding the text of one field changes the entry being filled as the
    fold of the [switch] over its characters does, and nothing else but
    the previous character. *)
Lemma cops_feed_field (w : string) :
  forall (t p : nat) (prev : ascii) (o : gsm_operator_t),
    is_field w = true ->
    cops_feed w (cops_mk true false t p prev (<[i:=o]> ops0) l i f)
    = cops_mk true false t (snd (field_fold t w o p)) (last_char prev w)
        (<[i:=fst (field_fold t w o p)]> ops0) l i f.
Proof.
  induction w as [|c w IH]; intros t p prev o Hw; [reflexivity|].
  cbn [is_field] in Hw.
  apply andb_true_iff in Hw as [Hc Hw]. apply andb_true_iff in Hc as [Hc Hb].
  apply negb_true_iff in Hc, Hb.
  rewrite cops_feed_cons, cops_step_data by assumption.
  rewrite IH by exact Hw. rewrite <- field_fold_cons. reflexivity.
Qed.

End RecordFacts.

(** The fields 0 and 3 accumulate a decimal value. *)
Lemma field_fold_stat (w : string) :
  forall (o : gsm_operator_t) (p : nat),
    all_digits (unquote w) = true ->
    0 <= stat o ->
    stat o * 10 ^ Z.of_nat (String.length (unquote w))
      + digits_value (unquote w) < 2 ^ 32 ->
    field_fold 0 w o p
    = ({| stat := stat o * 10 ^ Z.of_nat (String.length (unquote w))
                  + digits_value (unquote w);
          long_name := long_name o; short_name := short_name o;
          num := num o |}, p).
Proof.
  induction w as [|c w IH]; intros o p Hd H0 Hmax.
  - cbn. destruct o. cbn. do 2 f_equal. lia.
  - cbn [unquote field_fold] in *.
    destruct (Ascii.eqb c DQUOTE); [apply IH; assumption|].
    cbn [all_digits String.length digits_value] in *.
    apply andb_true_iff in Hd as [Hc Hd].
    pose proof (digit_range c Hc) as Hr. unfold GSM_CHARTONUM in *.
    pose proof (digits_value_nonneg _ Hd) as Hv.
    assert (Hp : 0 < 10 ^ Z.of_nat (String.length (unquote w)))
      by (apply Z.pow_pos_nonneg; lia).
    rewrite Nat2Z.inj_succ, Z.pow_succ_r in * by lia.
    cbn [cops_term].
    assert (Hw : wrap_u32 (10 * stat o + (char_code c - char_code "0"))
                 = 10 * stat o + (char_code c - char_code "0")).
    { unfold wrap_u32. apply Z.mod_small. nia. }
    rewrite Hw. rewrite IH; cbn [stat long_name short_name num];
      [do 2 f_equal; ring | assumption | lia | nia].
Qed.

Lemma field_fold_num (w : string) :
  forall (o : gsm_operator_t) (p : nat),
    all_digits (unquote w) = true ->
    0 <= num o ->
    num o * 10 ^ Z.of_nat (String.length (unquote w))
      + digits_value (unquote w) < 2 ^ 32 ->
    field_fold 3 w o p
    = ({| stat := stat o; long_name := long_name o;
          short_name := short_name o;
          num := num o * 10 ^ Z.of_nat (String.length (unquote w))
                 + digits_value (unquote w) |}, p).
Proof.
  induction w as [|c w IH]; intros o p Hd H0 Hmax.
  - cbn. destruct o. cbn. do 2 f_equal. lia.
  - cbn [unquote field_fold] in *.
    destruct (Ascii.eqb c DQUOTE); [apply IH; assumption|].
    cbn [all_digits String.length digits_value] in *.
    apply andb_true_iff in Hd as [Hc Hd].
    pose proof (digit_range c Hc) as Hr. unfold GSM_CHARTONUM in *.
    pose proof (digits_value_nonneg _ Hd) as Hv.
    assert (Hp : 0 < 10 ^ Z.of_nat (String.length (unquote w)))
      by (apply Z.pow_pos_nonneg; lia).
    rewrite Nat2Z.inj_succ, Z.pow_succ_r in * by lia.
    cbn [cops_term].
    assert (Hw : wrap_u32 (10 * num o + (char_code c - char_code "0"))
                 = 10 * num o + (char_code c - char_code "0")).
    { unfold wrap_u32. apply Z.mod_small. nia. }
    rewrite Hw. rewrite IH; cbn [stat long_name short_name num];
      [do 2 f_equal; ring | assumption | lia | nia].
Qed.

(** The fields 1 and 2 run [name_put] over their characters. *)
Lemma field_fold_long (w : string) :
  forall (o : gsm_operator_t) (p : nat),
    field_fold 1 w o p
    = ({| stat := stat o; long_name := fst (name_fold (long_name o) p w);
          short_name := short_name o; num := num o |},
       snd (name_fold (long_name o) p w)).
Proof.
  induction w as [|c w IH]; intros o p; [destruct o; reflexivity|].
  cbn [field_fold name_fold].
  destruct (Ascii.eqb c DQUOTE); [apply IH|].
  cbn [cops_term]. destruct (name_put (long_name o) p c) as [a p'].
  rewrite IH. reflexivity.
Qed.

Lemma field_fold_short (w : string) :
  forall (o : gsm_operator_t) (p : nat),
    field_fold 2 w o p
    = ({| stat := stat o; long_name := long_name o;
          short_name := fst (name_fold (short_name o) p w); num := num o |},
       snd (name_fold (short_name o) p w)).
Proof.
  induction w as [|c w IH]; intros o p; [destruct o; reflexivity|].
  cbn [field_fold name_fold].
  destruct (Ascii.eqb c DQUOTE); [apply IH|].
  cbn [cops_term]. destruct (name_put (short_name o) p c) as [a p'].
  rewrite IH. reflexivity.
Qed.

Lemma name_fill_length (done : list ascii) (n : nat) :
  (List.length done <= n)%nat -> List.length (name_fill done n) = n.
Proof.
  intros H. unfold name_fill. rewrite length_app, length_replicate. lia.
Qed.

(** One character into a name array that is zero behind what it holds. *)
Lemma name_put_fill (done : list ascii) (n : nat) (c : ascii) :
  (n <= 256)%nat -> (List.length done <= n)%nat ->
  name_put (name_fill done n) (List.length done) c
  = if (List.length done <? n - 1)%nat
    then (name_fill (done ++ [c]) n, S (List.length done))
    else (name_fill done n, List.length done).
Proof.
  intros Hn Hd. unfold name_put. rewrite name_fill_length by exact Hd.
  destruct (List.length done <? n - 1)%nat eqn:E; [|reflexivity].
  apply Nat.ltb_lt in E.
  rewrite Nat.mod_small by lia. f_equal; [|lia].
  unfold name_fill.
  replace (n - List.length done)%nat
    with (S (S (n - List.length done - 2))) by lia.
  cbn [replicate].
  rewrite insert_app_r_alt by lia. rewrite Nat.sub_diag. cbn [insert list_insert].
  rewrite insert_app_r_alt by lia.
  replace (List.length done + 1 - List.length done)%nat with 1%nat by lia.
  cbn [insert list_insert].
  rewrite length_app. cbn [List.length].
  replace (n - (List.length done + 1))%nat
    with (S (n - List.length done - 2)) by lia.
  cbn [replicate]. rewrite <- app_assoc. reflexivity.
Qed.

Lemma name_fold_fill (w : string) :
  forall (done : list ascii) (n : nat),
    (n <= 256)%nat -> (1 <= n)%nat -> (List.length done <= n - 1)%nat ->
    name_fold (name_fill done n) (List.length done) w
    = (name_fill
         (done ++ list_ascii_of_string
                    (first_chars (n - 1 - List.length done) (unquote w))) n,
       (List.length done
        + String.length (first_chars (n - 1 - List.length done) (unquote w)))%nat).
Proof.
  induction w as [|c w IH]; intros done n Hn H1 Hd.
  - cbn. destruct (n - 1 - List.length done)%nat; cbn;
      rewrite app_nil_r, Nat.add_0_r; reflexivity.
  - cbn [name_fold unquote].
    destruct (Ascii.eqb c DQUOTE); [apply IH; assumption|].
    rewrite name_put_fill by lia.
    destruct (List.length done <? n - 1)%nat eqn:E.
    + apply Nat.ltb_lt in E.
      replace (S (List.length done)) with (List.length (done ++ [c]))
        by (rewrite length_app; simpl; lia).
      rewrite IH by (rewrite ?length_app; simpl; lia).
      rewrite length_app. cbn [List.length].
      replace (n - 1 - List.length done)%nat
        with (S (n - 1 - (List.length done + 1))) by lia.
      cbn [first_chars list_ascii_of_string String.length].
      rewrite <- app_assoc. f_equal. lia.
    + apply Nat.ltb_ge in E.
      rewrite IH by assumption.
      replace (n - 1 - List.length done)%nat with 0%nat by lia.
      reflexivity.
Qed.

Lemma name_fold_zero (w : string) (n : nat) :
  (1 <= n <= 256)%nat ->
  name_fold (replicate n NUL) 0 w
  = (name_fill (list_ascii_of_string (first_chars (n - 1) (unquote w))) n,
     String.length (first_chars (n - 1) (unquote w))).
Proof.
  intros Hn.
  pose proof (name_fold_fill w [] n) as H.
  unfold name_fill at 1 in H. cbn [List.length app Nat.add] in H.
  rewrite !Nat.sub_0_r in H. apply H; lia.
Qed.

Lemma buf_string_name_fill (w : string) (n : nat) :
  nul_free w = true -> (String.length w < n)%nat ->
  buf_string (name_fill (list_ascii_of_string w) n) = w.
Proof.
  intros Hw Hn. unfold name_fill, buf_string.
  rewrite length_list_ascii_of_string.
  replace (n - String.length w)%nat with (S (n - String.length w - 1)) by lia.
  cbn [replicate].
  rewrite c_chars_of_list; rewrite string_of_list_ascii_of_string; auto.
Qed.

(** X24: one operator record, end to end.  From a scanner outside of a
    record, at field 0 and offset 0, with a free, zeroed entry under the
    index: the text of a bracketed record of four fields is stored as the
    decimal value of the first field, the first [size - 1] characters of
    the second and of the third in the long and the short name, zero
    behind them, and the decimal value of the fourth; quotes are dropped
    wherever they stand; the closing bracket moves the index and the
    reported count to the next entry and leaves the scanner ready for the
    next record. *)
Theorem cops_scan_record (os : list gsm_operator_t) (l i : nat)
    (f : option nat) (prev : ascii) (n1 n2 : nat) (f1 f2 f3 f4 : string) :
  (i < l)%nat ->
  os !! i = Some {| stat := 0; long_name := replicate n1 NUL;
                    short_name := replicate n2 NUL; num := 0 |} ->
  (1 <= n1 <= 256)%nat -> (1 <= n2 <= 256)%nat ->
  is_field f1 = true -> is_field f2 = true ->
  is_field f3 = true -> is_field f4 = true ->
  all_digits (unquote f1) = true -> digits_value (unquote f1) < 2 ^ 32 ->
  all_digits (unquote f4) = true -> digits_value (unquote f4) < 2 ^ 32 ->
  let long := first_chars (n1 - 1) (unquote f2) in
  let short := first_chars (n2 - 1) (unquote f3) in
  cops_feed
    (String "(" (f1 ++ String "," (f2 ++ String "," (f3 ++ String ","
       (f4 ++ String ")" EmptyString)))))
    (cops_mk false false 0 0 prev os l i f)
  = cops_mk false false 0 0 ")"
      (<[i:={| stat := digits_value (unquote f1);
               long_name := name_fill (list_ascii_of_string long) n1;
               short_name := name_fill (list_ascii_of_string short) n2;
               num := digits_value (unquote f4) |}]> os)
      l (S i) (option_map (fun _ => S i) f) /\
  (nul_free (unquote f2) = true ->
   buf_string (name_fill (list_ascii_of_string long) n1) = long) /\
  (nul_free (unquote f3) = true ->
   buf_string (name_fill (list_ascii_of_string short) n2) = short).
Proof.
  intros Hil Hlook Hn1 Hn2 F1 F2 F3 F4 D1 M1 D4 M4 long short.
  assert (Hin : (i < List.length os)%nat)
    by (apply lookup_lt_is_Some; eauto).
  split; [|split].
  - rewrite <- (list_insert_id os i _ Hlook) at 1.
    rewrite cops_feed_cons, (cops_step_open l i f Hil).
    rewrite cops_feed_app, (cops_feed_field os l i f Hil Hin f1) by exact F1.
    rewrite field_fold_stat
      by (cbn [stat]; (assumption || lia)).
    cbn [fst snd stat long_name short_name num].
    rewrite cops_feed_cons, (cops_step_comma l i f Hil).
    change ((0 + 1) mod 4)%nat with 1%nat.
    rewrite cops_feed_app, (cops_feed_field os l i f Hil Hin f2) by exact F2.
    rewrite field_fold_long. cbn [fst snd stat long_name short_name num].
    rewrite name_fold_zero by lia. cbn [fst snd].
    rewrite cops_feed_cons, (cops_step_comma l i f Hil).
    change ((1 + 1) mod 4)%nat with 2%nat.
    rewrite cops_feed_app, (cops_feed_field os l i f Hil Hin f3) by exact F3.
    rewrite field_fold_short. cbn [fst snd stat long_name short_name num].
    rewrite name_fold_zero by lia. cbn [fst snd].
    rewrite cops_feed_cons, (cops_step_comma l i f Hil).
    change ((2 + 1) mod 4)%nat with 3%nat.
    rewrite cops_feed_app, (cops_feed_field os l i f Hil Hin f4) by exact F4.
    rewrite field_fold_num
      by (cbn [num]; (assumption || lia)).
    cbn [fst snd stat long_name short_name num].
    rewrite cops_feed_cons, (cops_step_close l i f Hil).
    cbn [cops_feed list_ascii_of_string fold_left].
    unfold long, short. rewrite !Z.mul_0_l, !Z.add_0_l. reflexivity.
  - intros Hn. apply buf_string_name_fill.
    + apply first_chars_nul_free, Hn.
    + unfold long. rewrite first_chars_length. lia.
  - intros Hn. apply buf_string_name_fill.
    + apply first_chars_nul_free, Hn.
    + unfold short. rewrite first_chars_length. lia.
Qed.

Lemma cops_scan_record_witness :
  cops_feed
    (String "(" ("2" ++ String "," (quoted "Long Op" ++ String ","
       (quoted "LO" ++ String "," ("20801" ++ String ")" EmptyString)))))
    (cops_mk false false 0 0 NUL
       [ {| stat := 0; long_name := replicate 5 NUL;
            short_name := replicate 5 NUL; num := 0 |} ] 1 0 (Some 0%nat))
  = cops_mk false false 0 0 ")"
      [ {| stat := 2;
           long_name := list_ascii_of_string "Long" ++ [NUL];
           short_name := list_ascii_of_string "LO" ++ [NUL; NUL; NUL];
           num := 20801 |} ] 1 1 (Some 1%nat).
Proof.
  refine (proj1 (cops_scan_record
            [ {| stat := 0; long_name := replicate 5 NUL;
                 short_name := replicate 5 NUL; num := 0 |} ]
            1 0 (Some 0%nat) NUL 5 5 "2" (quoted "Long Op") (quoted "LO")
            "20801" _ eq_refl _ _ eq_refl eq_refl eq_refl eq_refl
            eq_refl _ eq_refl _)); try lia; reflexivity.
Defined.

(** ** A reset and a full array *)

(** X25: a reset clears the latch of the scanner but not the index of the
    operator array: when the array is full, the scanner ignores every
    character after a reset as it did before it; when it was only latched
    and the array has room, a reset makes it take input again. *)
Theorem cops_scan_reset_and_full (st : cops_state) (ch : ascii) :
  ((opsl (cops st) <= opsi (cops st))%nat ->
   forall s, cops_feed s (gsmi_parse_cops_scan ch true st)
             = gsmi_parse_cops_scan ch true st) /\
  ((opsi (cops st) < opsl (cops st))%nat ->
   gsmi_parse_cops_scan "(" false (gsmi_parse_cops_scan ch true st)
   = cops_mk true false 0 0 "(" (ops (cops st)) (opsl (cops st))
       (opsi (cops st)) (opf (cops st))).
Proof.
  split.
  - intros Hfull s. apply cops_feed_frozen. right. exact Hfull.
  - intros Hroom. destruct st as [fl [os l i f]]. cbn in *.
    apply (cops_step_open l i f Hroom).
Qed.

Lemma cops_scan_reset_and_full_witness :
  let full := cops_feed "(2,a,b,5)"
                (cops_start {| ops := [operator_zero]; opsl := 1; opsi := 0;
                               opf := Some 0%nat |}) in
  cops_feed "(1,c,d,6)" (gsmi_parse_cops_scan NUL true full)
  = gsmi_parse_cops_scan NUL true full.
Proof.
  intros full.
  apply (proj1 (cops_scan_reset_and_full full NUL)).
  vm_compute. lia.
Defined.

(** * Further properties of the memory list loop *)

Lemma memories_loop_suffix (map : list gsm_dev_mem_map_t)
    (unknown : gsm_mem_t) (fuel : nat) :
  forall (str cur : string) (acc m : Z),
    memories_loop map unknown fuel str acc = Some (cur, m) ->
    is_suffix cur str.
Proof.
  induction fuel as [|fuel IH]; intros str cur acc m; [discriminate|].
  cbn [memories_loop].
  pose proof (parse_memory_suffix map unknown str) as Hp.
  destruct (gsmi_parse_memory map unknown str) as [m' str']. cbn [snd] in Hp.
  destruct (negb _ && negb _).
  - intros H. eapply is_suffix_trans; [exact (IH _ _ _ _ H) | exact Hp].
  - intros H. injection H as <- _. exact Hp.
Qed.

(** X26: [gsmi_parse_memories_string] returns on every input, whatever
    its shape, as long as no name of the table is empty: each turn of its
    loop that is followed by another one consumes at least one
    character; the cursor it leaves is inside the text. *)
Theorem memories_string_returns (map : list gsm_dev_mem_map_t)
    (unknown : gsm_mem_t) (src : string) :
  (forall e, e ∈ map -> entry_name e <> EmptyString) ->
  exists cur mask,
    gsmi_parse_memories_string map unknown src = Some (cur, mask) /\
    is_suffix cur src.
Proof.
  intros Hne. unfold gsmi_parse_memories_string.
  set (str := skip_char "(" (skip_char "," src)).
  assert (Hs : is_suffix str src).
  { unfold str. eapply is_suffix_trans; apply is_suffix_skip_char. }
  destruct (memories_loop_terminates map unknown Hne
              (S (String.length str)) str 0) as [[cur m] Hr]; [lia|].
  rewrite Hr. exists (skip_char ")" cur), m. split; [reflexivity|].
  eapply is_suffix_trans; [apply is_suffix_skip_char|].
  eapply is_suffix_trans; [|exact Hs].
  exact (memories_loop_suffix map unknown _ _ _ _ _ Hr).
Qed.

Lemma memories_string_returns_witness :
  exists cur mask,
    gsmi_parse_memories_string [ {| mem_str := "SM"; mem := 0 |} ] 31
      ")(,,x" = Some (cur, mask) /\
    is_suffix cur ")(,,x".
Proof.
  apply (memories_string_returns [ {| mem_str := "SM"; mem := 0 |} ] 31).
  intros e He. apply list_elem_of_In in He.
  destruct He as [<- | []]. discriminate.
Defined.

Lemma memories_loop_stuck (map : list gsm_dev_mem_map_t)
    (unknown : gsm_mem_t) (e : gsm_dev_mem_map_t) (str : string) :
  map !! 0%nat = Some e -> entry_name e = EmptyString -> mem e <> unknown ->
  Ascii.eqb (deref str) NUL = false -> Ascii.eqb (deref str) ")" = false ->
  Ascii.eqb (deref str) "," = false -> Ascii.eqb (deref str) DQUOTE = false ->
  forall fuel acc, memories_loop map unknown fuel str acc = None.
Proof.
  intros H0 Hn Hu Hnul Hb Hc Hq.
  assert (Hp : gsmi_parse_memory map unknown str = (mem e, str)).
  { assert (Hk : skip_char DQUOTE (skip_char "," str) = str).
    { unfold skip_char. rewrite Hc, Hq. reflexivity. }
    rewrite (parse_memory_match map unknown str str 0%nat e); cbv zeta;
      rewrite ?Hk; auto.
    - f_equal. unfold skip_char. rewrite Hq. reflexivity.
    - rewrite Hn. reflexivity.
    - intros j e' Hj. lia. }
  induction fuel as [|fuel IH]; intros acc; [reflexivity|].
  cbn [memories_loop]. rewrite Hp, Hnul, Hb. cbn [negb andb]. apply IH.
Qed.

(** X27: with an empty name in the first entry of the table, for a
    selector other than the unknown one, the loop of
    [gsmi_parse_memories_string] never ends on a list whose first
    character is none of a quote, a comma, a closing bracket and the
    terminator: the empty name matches without consuming anything, the
    loop test finds the same character again, and no number of turns is
    enough. *)
Theorem memories_string_empty_name_loops (map : list gsm_dev_mem_map_t)
    (unknown : gsm_mem_t) (e : gsm_dev_mem_map_t) (str : string) :
  map !! 0%nat = Some e -> entry_name e = EmptyString -> mem e <> unknown ->
  Ascii.eqb (deref str) NUL = false -> Ascii.eqb (deref str) ")" = false ->
  Ascii.eqb (deref str) "," = false -> Ascii.eqb (deref str) DQUOTE = false ->
  Ascii.eqb (deref str) "(" = false ->
  (forall fuel acc, memories_loop map unknown fuel str acc = None) /\
  gsmi_parse_memories_string map unknown (String "(" str) = None.
Proof.
  intros H0 Hn Hu Hnul Hb Hc Hq Hpar.
  pose proof (memories_loop_stuck map unknown e str H0 Hn Hu Hnul Hb Hc Hq)
    as Hl.
  split; [exact Hl|].
  unfold gsmi_parse_memories_string.
  rewrite skip_char_ne by reflexivity. rewrite skip_char_eq, Hl. reflexivity.
Qed.

Lemma memories_string_empty_name_loops_witness :
  gsmi_parse_memories_string
    [ {| mem_str := EmptyString; mem := 0 |}; {| mem_str := "SM"; mem := 1 |} ]
    31 "(x" = None.
Proof.
  apply (proj2 (memories_string_empty_name_loops
           [ {| mem_str := EmptyString; mem := 0 |};
             {| mem_str := "SM"; mem := 1 |} ]
           31 {| mem_str := EmptyString; mem := 0 |} "x"
           eq_refl eq_refl ltac:(discriminate)
           eq_refl eq_refl eq_refl eq_refl eq_refl)).
Defined.

(** * The argument checks of [gsm_sms_send], beyond the NULL text *)

(** X28: the order of the checks of [gsm_sms_send].  A NULL [num] is
    rejected before [text] is looked at, so also when [text] is NULL; with
    both present, a text of more than 160 characters is rejected whether
    SMS is enabled or not; a text of at most 160 characters is refused
    with [gsmERRNOTENABLED] when SMS is disabled, and otherwise goes to
    the mailbox as a [GSM_CMD_CMGS] message, first command [GSM_CMD_CMGF],
    format 1, with the two pointers as given. *)
Theorem sms_send_checks
    (send : SmsApi.sms_send_msg -> Z -> SmsApi.gsmr_t) (enabled : bool)
    (blocking : Z) :
  (forall text,
     SmsApi.gsm_sms_send send enabled None text blocking
     = SmsApi.Returns SmsApi.gsmPARERR) /\
  (forall num text,
     (160 < strlen text)%nat ->
     SmsApi.gsm_sms_send send enabled (Some num) (Some text) blocking
     = SmsApi.Returns SmsApi.gsmPARERR) /\
  (forall num text,
     (strlen text <= 160)%nat ->
     SmsApi.gsm_sms_send send enabled (Some num) (Some text) blocking
     = if enabled
       then SmsApi.Returns
              (send {| SmsApi.cmd_def := SmsApi.GSM_CMD_CMGS;
                       SmsApi.cmd := SmsApi.GSM_CMD_CMGF;
                       SmsApi.sms_num := Some num;
                       SmsApi.sms_text := Some text;
                       SmsApi.sms_format := 1 |} blocking)
       else SmsApi.Returns SmsApi.gsmERRNOTENABLED).
Proof.
  split; [|split].
  - intros text. reflexivity.
  - intros num text Hl. unfold SmsApi.gsm_sms_send.
    cbn [SmsApi.assert_num_cond SmsApi.assert_text_cond SmsApi.GSM_ASSERT].
    replace (strlen text <=? 160)%nat with false
      by (symmetry; apply Nat.leb_gt; exact Hl).
    reflexivity.
  - intros num text Hl. unfold SmsApi.gsm_sms_send.
    cbn [SmsApi.assert_num_cond SmsApi.assert_text_cond SmsApi.GSM_ASSERT].
    replace (strlen text <=? 160)%nat with true
      by (symmetry; apply Nat.leb_le; exact Hl).
    destruct enabled; reflexivity.
Qed.

Lemma sms_send_checks_witness :
  SmsApi.gsm_sms_send (fun _ _ => SmsApi.gsmOK) false (Some "+386"%string)
    (Some "hello"%string) 1
  = SmsApi.Returns SmsApi.gsmERRNOTENABLED.
Proof.
  apply (proj2 (proj2 (sms_send_checks (fun _ _ => SmsApi.gsmOK) false 1))
           "+386"%string "hello"%string).
  vm_compute. lia.
Defined.
